(** * VLCSub: the cue store (srt_parser.py) and the sync engine (sync_engine.py)

    A shallow embedding of the two modules that make up the subtitle
    synchronisation core, and the properties of the design document that
    can be stated over it.

    Modelling conventions.
    - A Python [str] is a list of Unicode code points ([N]); a file is a
      list of bytes.  The character classes of [re] and of [str.strip]
      on [str] values are the Unicode ones ([\s] is [str.isspace], [\d] is
      the category Nd), and are written out as tables.
    - Python [int] is [Z].
    - Exceptions are values of [exn]; code that can raise returns
      [result A = exn + A].
    - [time.time()] is an argument [now] of every method that reads the
      clock.  Wall-clock readings, and what is computed from them, are
      Python floats, that is IEEE 754 binary64 numbers: values of the
      Standard Library's [spec_float], with its [SFsub], [SFmul] and
      [SFdiv] at 53 bits of precision (round to nearest, ties to even).
      [int(x)] truncates, and raises on an infinity or a NaN; an [int]
      operand of a float operation is converted to the nearest float,
      which raises [OverflowError] beyond the largest one.
    - A method of the engine that can raise gives the object as the call
      leaves it, and the exception if there is one.
    - A file is given by the bytes it holds: it exists and can be read.
    - Interpreter limits (memory, the configurable digit limit of
      [int(str)]) are outside the model. *)

From Stdlib Require Import ZArith NArith QArith Qpower List Bool Lia.
From Stdlib Require Import Permutation Sorted SpecFloat.
From Stdlib.Strings Require Import String Ascii Byte.
Import Corelib.Init.Datatypes.
Import ListNotations.

Open Scope Z_scope.

(* ===================================================================== *)
(** * Python runtime: exceptions, strings, [int], indexing *)
(* ===================================================================== *)

Module Py.

Inductive exn := ValueError | IndexError | OverflowError.

Definition result (A : Type) : Type := (exn + A)%type.

Definition ok {A} (a : A) : result A := inr a.
Definition raise {A} (e : exn) : result A := inl e.

Definition bind {A B} (m : result A) (k : A -> result B) : result B :=
  match m with
  | inl e => inl e
  | inr a => k a
  end.

Notation "x <- m ;; k" := (bind m (fun x => k))
  (at level 61, m at next level, right associativity).

(** A character is a code point; a [str] is a sequence of them. *)
Definition char := N.
Definition str := list char.

Definition chr (a : ascii) : char := N_of_ascii a.
Arguments chr a%_char.

(** ASCII literals of the source text. *)
Definition lit (s : String.string) : str :=
  map Byte.to_N (String.list_byte_of_string s).
Arguments lit s%_string.

Definition LF : char := 10%N.
Definition CR : char := 13%N.
Definition BOM : char := 65279%N. (* U+FEFF *)

(** [str.isspace] on one character, which is also [\s] of [re] on [str]
    patterns: U+0009..000D, U+001C..0020, U+0085, U+00A0, U+1680,
    U+2000..200A, U+2028, U+2029, U+202F, U+205F, U+3000. *)
Definition is_space (c : char) : bool :=
  ((9 <=? c) && (c <=? 13) || (28 <=? c) && (c <=? 32) || (c =? 133)
   || (c =? 160) || (c =? 5760) || (8192 <=? c) && (c <=? 8202)
   || (c =? 8232) || (c =? 8233) || (c =? 8239) || (c =? 8287)
   || (c =? 12288))%N.

(** The code points of the digit zero of every decimal digit run
    (category Nd); each run is ten consecutive code points 0..9. *)
Definition decimal_zeros : list N :=
  [48; 1632; 1776; 1984; 2406; 2534; 2662; 2790; 2918; 3046; 3174; 3302;
   3430; 3558; 3664; 3792; 3872; 4160; 4240; 6112; 6160; 6470; 6608; 6784;
   6800; 6992; 7088; 7232; 7248; 42528; 43216; 43264; 43472; 43504; 43600;
   44016; 65296; 66720; 68912; 69734; 69872; 69942; 70096; 70384; 70736;
   70864; 71248; 71360; 71472; 71904; 72016; 72784; 73040; 73120; 92768;
   92864; 93008; 120782; 120792; 120802; 120812; 120822; 123200; 123632;
   125264; 130032]%N.

(** The ten digit values. *)
Definition ten : list N := [0; 1; 2; 3; 4; 5; 6; 7; 8; 9]%N.

(** The decimal value of a character, when it is a decimal digit. *)
Definition decimal_value (c : char) : option Z :=
  match find (fun z => (z <=? c) && (c <? z + 10))%N decimal_zeros with
  | Some z => Some (Z.of_N (c - z))
  | None => None
  end.

(** [\d] of [re] on [str] patterns. *)
Definition is_decimal (c : char) : bool :=
  match decimal_value c with Some _ => true | None => false end.

(** ** [str] methods *)

Fixpoint lstrip (p : char -> bool) (s : str) : str :=
  match s with
  | c :: s' => if p c then lstrip p s' else s
  | [] => []
  end.

Definition rstrip (p : char -> bool) (s : str) : str :=
  rev (lstrip p (rev s)).

(** [s.strip()] *)
Definition strip (s : str) : str := rstrip is_space (lstrip is_space s).

(** [s.split(sep)] for a one-character separator. *)
Fixpoint split (sep : char) (s : str) : list str :=
  match s with
  | [] => [[]]
  | c :: s' =>
      if (c =? sep)%N then [] :: split sep s'
      else match split sep s' with
           | piece :: pieces => (c :: piece) :: pieces
           | [] => [[c]]
           end
  end.

(** [sep.join(pieces)] for a one-character separator. *)
Fixpoint join (sep : char) (pieces : list str) : str :=
  match pieces with
  | [] => []
  | [p] => p
  | p :: rest => p ++ sep :: join sep rest
  end.

(** [s.replace(a, b)] for one-character [a] and [b]. *)
Definition replace (a b : char) (s : str) : str :=
  map (fun c => if (c =? a)%N then b else c) s.

(** ** Indexing: [l[i]], negative indices count from the end. *)
Definition getitem {A} (l : list A) (i : Z) : result A :=
  let n := Z.of_nat (length l) in
  let j := if i <? 0 then i + n else i in
  if (0 <=? j) && (j <? n) then
    match nth_error l (Z.to_nat j) with
    | Some a => ok a
    | None => raise IndexError
    end
  else raise IndexError.

(** ** [int(s)] for a [str], base ten.

    The whitespace [int] strips is [str.isspace] without U+001C..001F;
    then an optional sign, then decimal digits, single underscores allowed
    between digits. *)
Definition int_space (c : char) : bool :=
  is_space c && negb ((28 <=? c) && (c <=? 31))%N.

Fixpoint int_digits (acc : Z) (need_digit : bool) (s : str) : option Z :=
  match s with
  | [] => if need_digit then None else Some acc
  | c :: s' =>
      match decimal_value c with
      | Some d => int_digits (10 * acc + d) false s'
      | None =>
          if (c =? chr "_")%N && negb need_digit then int_digits acc true s'
          else None
      end
  end.

Definition int (s : str) : result Z :=
  let s := rstrip int_space (lstrip int_space s) in
  let signed :=
    match s with
    | c :: s' =>
        if (c =? chr "-")%N then option_map Z.opp (int_digits 0 true s')
        else if (c =? chr "+")%N then int_digits 0 true s'
        else int_digits 0 true s
    | [] => None
    end in
  match signed with
  | Some z => ok z
  | None => raise ValueError
  end.

End Py.

(* ===================================================================== *)
(** * The fragment of [re] the parser uses *)
(* ===================================================================== *)

Module Re.
Import Py.

(** Patterns: one character of a class, a greedy repetition of a class
    ([\s*], [[^>]+], [\d{1,2}]), concatenation and capturing groups.  The
    groups of the source's patterns are not nested, so they close in the
    order they are numbered. *)
Inductive regex :=
| Eps
| Chr (p : char -> bool)
| Rep (p : char -> bool) (lo : nat) (hi : option nat)
| Cat (r1 r2 : regex)
| Grp (r : regex).

(** Greedy repetition with backtracking: take one more character when
    the class and the upper bound allow it and the rest of the pattern
    then matches; otherwise stop here if the lower bound is reached. *)
Fixpoint rep_match {A} (p : char -> bool) (lo : nat) (hi : option nat)
    (s : str) (k : str -> option A) : option A :=
  let stop := match lo with O => k s | S _ => None end in
  match s with
  | c :: s' =>
      if p c && match hi with Some O => false | _ => true end then
        match rep_match p (pred lo) (option_map pred hi) s' k with
        | Some r => Some r
        | None => stop
        end
      else stop
  | [] => stop
  end.

(** The backtracking matcher, in continuation-passing style: [k] receives
    the unconsumed input and the groups closed so far. *)
Fixpoint run {A} (r : regex) (s : str) (caps : list str)
    (k : str -> list str -> option A) : option A :=
  match r with
  | Eps => k s caps
  | Chr p =>
      match s with
      | c :: s' => if p c then k s' caps else None
      | [] => None
      end
  | Rep p lo hi => rep_match p lo hi s (fun s' => k s' caps)
  | Cat r1 r2 => run r1 s caps (fun s' caps' => run r2 s' caps' k)
  | Grp r1 =>
      run r1 s caps
        (fun s' caps' => k s' (caps' ++ [firstn (length s - length s') s]))
  end.

(** [re.match(r, s)]: the groups of a match at the start of [s], group 0
    (the whole match) first. *)
Definition re_match (r : regex) (s : str) : option (list str) :=
  run r s [] (fun s' caps => Some (firstn (length s - length s') s :: caps)).

(** Length of the match of [r] at the start of [s]. *)
Definition match_len (r : regex) (s : str) : option nat :=
  run r s [] (fun s' _ => Some (length s - length s')%nat).

(** [re.sub(r, '', s)]: leftmost non-overlapping matches are removed.
    [skip] counts the characters of the current match still to drop.
    (None of the source's patterns matches the empty string.) *)
Fixpoint sub_go (r : regex) (skip : nat) (s : str) : str :=
  match s with
  | [] => []
  | c :: s' =>
      match skip with
      | S n => sub_go r n s'
      | O =>
          match match_len r s with
          | Some (S n) => sub_go r n s'
          | _ => c :: sub_go r O s'
          end
      end
  end.

Definition re_sub (r : regex) (s : str) : str := sub_go r O s.

(** [re.split(r, s)]: the pieces between leftmost non-overlapping
    matches; [cur] is the current piece, reversed. *)
Fixpoint split_go (r : regex) (skip : nat) (cur : str) (s : str) : list str :=
  match s with
  | [] => [rev cur]
  | c :: s' =>
      match skip with
      | S n => split_go r n cur s'
      | O =>
          match match_len r s with
          | Some (S n) => rev cur :: split_go r n [] s'
          | _ => split_go r O (c :: cur) s'
          end
      end
  end.

Definition re_split (r : regex) (s : str) : list str := split_go r O [] s.

(** Pattern syntax. *)
Definition ch (a : ascii) : char -> bool := fun c => (c =? chr a)%N.
Arguments ch a%_char.
Definition not_ch (a : ascii) : char -> bool := fun c => negb (c =? chr a)%N.
Arguments not_ch a%_char.
Definition one_of (a b : ascii) : char -> bool :=
  fun c => ((c =? chr a) || (c =? chr b))%N.
Arguments one_of (a b)%_char.

Fixpoint cat (rs : list regex) : regex :=
  match rs with
  | [] => Eps
  | [r] => r
  | r :: rs' => Cat r (cat rs')
  end.

Definition star (p : char -> bool) : regex := Rep p 0 None.
Definition plus (p : char -> bool) : regex := Rep p 1 None.
Definition times (p : char -> bool) (n : nat) : regex := Rep p n (Some n).
Definition between (p : char -> bool) (lo hi : nat) : regex :=
  Rep p lo (Some hi).

End Re.

(* ===================================================================== *)
(** * Text files: the codecs tried by the parser, universal newlines *)
(* ===================================================================== *)

Module Codecs.
Import Py.

Definition bytes := list byte.

(** The encodings [parse_srt_file] names. *)
Inductive codec := utf_8 | utf_8_sig | latin_1 | cp1252.

Definition continuation (b : N) : bool := ((128 <=? b) && (b <=? 191))%N.

(** Strict UTF-8: shortest forms only, no surrogates, at most U+10FFFF.
    [None] is [UnicodeDecodeError]. *)
Fixpoint utf8 (bs : list N) : option str :=
  match bs with
  | [] => Some []
  | b0 :: r0 =>
      if (b0 <? 128)%N then option_map (cons b0) (utf8 r0)
      else if ((194 <=? b0) && (b0 <=? 223))%N then
        match r0 with
        | b1 :: r1 =>
            if continuation b1
            then option_map (cons ((b0 - 192) * 64 + (b1 - 128))%N) (utf8 r1)
            else None
        | _ => None
        end
      else if ((224 <=? b0) && (b0 <=? 239))%N then
        match r0 with
        | b1 :: b2 :: r2 =>
            let lo := if (b0 =? 224)%N then 160%N else 128%N in
            let hi := if (b0 =? 237)%N then 159%N else 191%N in
            if ((lo <=? b1) && (b1 <=? hi))%N && continuation b2
            then option_map
                   (cons ((b0 - 224) * 4096 + (b1 - 128) * 64 + (b2 - 128))%N)
                   (utf8 r2)
            else None
        | _ => None
        end
      else if ((240 <=? b0) && (b0 <=? 244))%N then
        match r0 with
        | b1 :: b2 :: b3 :: r3 =>
            let lo := if (b0 =? 240)%N then 144%N else 128%N in
            let hi := if (b0 =? 244)%N then 143%N else 191%N in
            if ((lo <=? b1) && (b1 <=? hi))%N && continuation b2
               && continuation b3
            then option_map
                   (cons ((b0 - 240) * 262144 + (b1 - 128) * 4096
                          + (b2 - 128) * 64 + (b3 - 128))%N)
                   (utf8 r3)
            else None
        | _ => None
        end
      else None
  end.

(** [utf-8-sig]: UTF-8 after an optional leading EF BB BF.  Read through
    a file object, a file that is only the first one or two bytes of that
    mark decodes to the empty text (the decoder keeps waiting for the
    rest of the mark). *)
Definition utf8_sig (bs : list N) : option str :=
  match bs with
  | 239%N :: 187%N :: 191%N :: rest => utf8 rest
  | [239%N] | [239%N; 187%N] => Some []
  | _ => utf8 bs
  end.

(** Windows-1252: Latin-1 except for 0x80..0x9F, five of which are
    undefined. *)
Definition cp1252_high : list (option N) :=
  [Some 8364; None; Some 8218; Some 402; Some 8222; Some 8230; Some 8224;
   Some 8225; Some 710; Some 8240; Some 352; Some 8249; Some 338; None;
   Some 381; None; None; Some 8216; Some 8217; Some 8220; Some 8221;
   Some 8226; Some 8211; Some 8212; Some 732; Some 8482; Some 353;
   Some 8250; Some 339; None; Some 382; Some 376]%N.

Definition cp1252_char (b : N) : option char :=
  if ((128 <=? b) && (b <? 160))%N
  then nth (N.to_nat (b - 128)) cp1252_high None
  else Some b.

Fixpoint cp1252_decode (bs : list N) : option str :=
  match bs with
  | [] => Some []
  | b :: rest =>
      match cp1252_char b, cp1252_decode rest with
      | Some c, Some s => Some (c :: s)
      | _, _ => None
      end
  end.

Definition decode (enc : codec) (data : bytes) : option str :=
  let bs := map Byte.to_N data in
  match enc with
  | utf_8 => utf8 bs
  | utf_8_sig => utf8_sig bs
  | latin_1 => Some bs
  | cp1252 => cp1252_decode bs
  end.

(** Text mode translates ["\r\n"] and a lone ["\r"] to ["\n"] on input. *)
Fixpoint universal_newlines (s : str) : str :=
  match s with
  | [] => []
  | c :: s' =>
      if (c =? CR)%N then
        LF :: match s' with
              | d :: s'' =>
                  if (d =? LF)%N then universal_newlines s''
                  else universal_newlines s'
              | [] => []
              end
      else c :: universal_newlines s'
  end.

(** [open(path, 'r', encoding=enc).read()] on a file holding [data]. *)
Definition read_text (enc : codec) (data : bytes) : option str :=
  option_map universal_newlines (decode enc data).

End Codecs.

(* ===================================================================== *)
(** * srt_parser.py *)
(* ===================================================================== *)

Module SrtParser.
Import Py Re Codecs.

(** [class Subtitle] *)
Record Subtitle := mkSubtitle {
  index : Z;
  start_ms : Z;  (* start time in milliseconds *)
  end_ms : Z;    (* end time in milliseconds *)
  text : str     (* the subtitle text (may contain several lines) *)
}.

(** [(\d{1,2}):(\d{2}):(\d{2})\.(\d{3})] *)
Definition timestamp_re : regex :=
  cat [Grp (between is_decimal 1 2); Chr (ch ":");
       Grp (times is_decimal 2); Chr (ch ":");
       Grp (times is_decimal 2); Chr (ch ".");
       Grp (times is_decimal 3)].

(** [\d{1,2}:\d{2}:\d{2}[,\.]\d{3}] *)
Definition stamp : regex :=
  cat [between is_decimal 1 2; Chr (ch ":"); times is_decimal 2;
       Chr (ch ":"); times is_decimal 2; Chr (one_of "," ".");
       times is_decimal 3].

(** [(stamp)\s*-->\s*(stamp)] *)
Definition timestamp_line_re : regex :=
  cat [Grp stamp; star is_space; Chr (ch "-"); Chr (ch "-"); Chr (ch ">");
       star is_space; Grp stamp].

(** [<[^>]+>] *)
Definition tag_re : regex :=
  cat [Chr (ch "<"); plus (not_ch ">"); Chr (ch ">")].

(** [\n\s*\n] *)
Definition blank_re : regex :=
  cat [Chr (N.eqb LF); star is_space; Chr (N.eqb LF)].

(** [timestamp_to_ms]: HH:MM:SS,mmm or HH:MM:SS.mmm to milliseconds. *)
Definition timestamp_to_ms (timestamp : str) : result Z :=
  let timestamp := replace (chr ",") (chr ".") timestamp in
  match re_match timestamp_re timestamp with
  | None => raise ValueError
  | Some m =>
      match skipn 1 m with
      | [g1; g2; g3; g4] =>
          hours <- int g1 ;;
          minutes <- int g2 ;;
          seconds <- int g3 ;;
          milliseconds <- int g4 ;;
          ok (hours * 3600000 + minutes * 60000 + seconds * 1000
              + milliseconds)
      | _ => raise ValueError (* unpacking a tuple of another length *)
      end
  end.

(** The body of the [try] for one block with at least three lines.
    [ok None] is the [continue] taken when line 2 does not match. *)
Definition block_body (lines : list str) : result (option Subtitle) :=
  line0 <- getitem lines 0 ;;
  index <- int (strip line0) ;;
  line1 <- getitem lines 1 ;;
  let timestamp_line := strip line1 in
  match re_match timestamp_line_re timestamp_line with
  | None => ok None
  | Some timestamp_match =>
      start_time <- getitem timestamp_match 1 ;;
      end_time <- getitem timestamp_match 2 ;;
      let text := strip (join LF (skipn 2 lines)) in
      let text := re_sub tag_re text in
      start <- timestamp_to_ms start_time ;;
      end_ <- timestamp_to_ms end_time ;;
      ok (Some (mkSubtitle index start end_ text))
  end.

(** One iteration of the loop over the blocks: the subtitle to append,
    if any.  Both exceptions of [except (ValueError, IndexError)] skip
    the block. *)
Definition parse_block (block : str) : option Subtitle :=
  let block := strip block in
  match block with
  | [] => None
  | _ =>
      let lines := split LF block in
      if (length lines <? 3)%nat then None
      else match block_body lines with
           | inl _ => None
           | inr found => found
           end
  end.

(** [subtitles.sort(key=lambda s: s.start_ms)]: a stable sort on the
    start time. *)
Fixpoint insert (s : Subtitle) (l : list Subtitle) : list Subtitle :=
  match l with
  | [] => [s]
  | x :: l' =>
      if start_ms s <=? start_ms x then s :: l else x :: insert s l'
  end.

Definition sort (l : list Subtitle) : list Subtitle := fold_right insert [] l.

(** The loop over the blocks, appending the subtitles found. *)
Definition collect (blocks : list str) : list Subtitle :=
  fold_left
    (fun subtitles block =>
       match parse_block block with
       | Some subtitle => subtitles ++ [subtitle]
       | None => subtitles
       end)
    blocks [].

(** [parse_srt_file] from the decoded content on. *)
Definition parse_content (content : str) : list Subtitle :=
  let content := lstrip (fun c => (c =? BOM)%N) content in
  let blocks := re_split blank_re (strip content) in
  sort (collect blocks).

(** The first encoding of the list that decodes the file. *)
Fixpoint first_decoding (encodings_to_try : list codec) (data : bytes)
    : option str :=
  match encodings_to_try with
  | [] => None
  | enc :: rest =>
      match read_text enc data with
      | Some content => Some content
      | None => first_decoding rest data
      end
  end.

Definition encodings_to_try (encoding : codec) : list codec :=
  [encoding; utf_8_sig; latin_1; cp1252].

(** [parse_srt_file(filepath, encoding)], for a file holding [data]. *)
Definition parse_srt_file (data : bytes) (encoding : codec)
    : result (list Subtitle) :=
  match first_decoding (encodings_to_try encoding) data with
  | None => raise ValueError
  | Some content => ok (parse_content content)
  end.

(** ** [get_subtitle_at_time] *)

(** What a call can do: return, raise, or fail to finish within the
    iterations allowed. *)
Inductive outcome :=
| Returned (found : option Subtitle)
| Raised (e : exn)
| Diverged.

(** The result of one test of the [while] condition and, when it holds,
    one run of the loop body. *)
Inductive iteration :=
| Exit (o : outcome)
| Next (left right : Z).

Definition search_step (subtitles : list Subtitle) (current_ms : Z)
    (left right : Z) : iteration :=
  if left <=? right then
    let mid := (left + right) / 2 in
    match getitem subtitles mid with
    | inl e => Exit (Raised e)
    | inr sub =>
        if (start_ms sub <=? current_ms) && (current_ms <=? end_ms sub)
        then Exit (Returned (Some sub))
        else if current_ms <? start_ms sub then Next left (mid - 1)
        else Next (mid + 1) right
    end
  else Exit (Returned None).

Fixpoint search_loop (fuel : nat) (subtitles : list Subtitle)
    (current_ms : Z) (left right : Z) : outcome :=
  match fuel with
  | O => Diverged
  | S fuel' =>
      match search_step subtitles current_ms left right with
      | Exit o => o
      | Next left' right' =>
          search_loop fuel' subtitles current_ms left' right'
      end
  end.

(** The loop is given one iteration per element and one for the exit
    test. *)
Definition get_subtitle_at_time (subtitles : list Subtitle)
    (current_ms : Z) : outcome :=
  match subtitles with
  | [] => Returned None
  | _ =>
      search_loop (S (length subtitles)) subtitles current_ms
        0 (Z.of_nat (length subtitles) - 1)
  end.

End SrtParser.

(* ===================================================================== *)
(** * Python runtime: [float] *)
(* ===================================================================== *)

Module Float.
Import Py.

(** A Python [float] is an IEEE 754 binary64 number; the operations are
    the ones the Standard Library specifies, at 53 bits of precision. *)
Definition float := spec_float.

Definition sub (x y : float) : float := SFsub 53 1024 x y.
Definition mul (x y : float) : float := SFmul 53 1024 x y.
Definition div (x y : float) : float := SFdiv 53 1024 x y.

(** The conversion of the [int] operand of a [float] operation: the
    nearest float, and [OverflowError] beyond the largest. *)
Definition of_int (z : Z) : result float :=
  match binary_normalize 53 1024 z 0 false with
  | S754_infinity _ => raise OverflowError
  | x => ok x
  end.

(** [1000.0], which is also what the [int] 1000 converts to. *)
Definition thousand : float := S754_finite false 8796093022208000 (-43).

(** [int(x)]: truncation toward zero. *)
Definition to_int (x : float) : result Z :=
  match x with
  | S754_zero _ => ok 0
  | S754_finite s m e => ok (cond_Zopp s (Z.shiftl (Z.pos m) e))
  | S754_infinity _ => raise OverflowError
  | S754_nan => raise ValueError
  end.

(** The number a float stands for. *)
Definition to_Q (x : float) : Q :=
  match x with
  | S754_finite s m e => inject_Z (cond_Zopp s (Z.pos m)) * (2 # 1) ^ e
  | _ => 0
  end.

End Float.

(* ===================================================================== *)
(** * sync_engine.py *)
(* ===================================================================== *)

Module SyncEngine.
Import Py Float SrtParser.

(** The attributes of a [SubtitleSync] object. *)
Record SubtitleSync := mkSubtitleSync {
  subtitles : list Subtitle;
  _start_time : option float;   (* wall clock when started; None: never *)
  _offset_ms : Z;               (* user adjustment offset *)
  _is_running : bool;
  _pause_elapsed : Z;           (* time elapsed when paused *)
  _current_subtitle : option Subtitle
}.

Definition set_start_time (self : SubtitleSync) (v : option float) :=
  mkSubtitleSync (subtitles self) v (_offset_ms self) (_is_running self)
    (_pause_elapsed self) (_current_subtitle self).

Definition set_offset_ms (self : SubtitleSync) (v : Z) :=
  mkSubtitleSync (subtitles self) (_start_time self) v (_is_running self)
    (_pause_elapsed self) (_current_subtitle self).

Definition set_is_running (self : SubtitleSync) (v : bool) :=
  mkSubtitleSync (subtitles self) (_start_time self) (_offset_ms self) v
    (_pause_elapsed self) (_current_subtitle self).

Definition set_pause_elapsed (self : SubtitleSync) (v : Z) :=
  mkSubtitleSync (subtitles self) (_start_time self) (_offset_ms self)
    (_is_running self) v (_current_subtitle self).

Definition set_current_subtitle (self : SubtitleSync) (v : option Subtitle) :=
  mkSubtitleSync (subtitles self) (_start_time self) (_offset_ms self)
    (_is_running self) (_pause_elapsed self) v.

(** What a call of a method that can raise leaves behind: the object as
    it is when the call ends, and the exception if one was raised. *)
Definition ended := (SubtitleSync * option exn)%type.

Definition returns (self : SubtitleSync) : ended := (self, None).
Definition raises (self : SubtitleSync) (e : exn) : ended := (self, Some e).

(** [__init__] *)
Definition init (subtitles : list Subtitle) : SubtitleSync :=
  mkSubtitleSync subtitles None 0 false 0 None.

(** [ms / 1000.0] *)
Definition seconds (ms : Z) : result float :=
  x <- of_int ms ;; ok (div x thousand).

(** [set_playback_time]: set the playback time directly (VLC sync mode). *)
Definition set_playback_time (self : SubtitleSync) (time_ms : Z)
    (now : float) : ended :=
  let self := set_pause_elapsed self time_ms in
  if _is_running self then
    match seconds time_ms with
    | inr s => returns (set_start_time self (Some (sub now s)))
    | inl e => raises self e
    end
  else returns self.

(** [start]: start or resume. *)
Definition start (self : SubtitleSync) (now : float) : ended :=
  if _is_running self then returns self
  else
    match _start_time self with
    | None =>
        (* fresh start *)
        let self := set_pause_elapsed (set_start_time self (Some now)) 0 in
        returns (set_is_running self true)
    | Some _ =>
        (* resume from pause *)
        match seconds (_pause_elapsed self) with
        | inr s =>
            let self := set_start_time self (Some (sub now s)) in
            returns (set_is_running self true)
        | inl e => raises self e
        end
    end.

(** [get_elapsed_ms]: the playback position in milliseconds. *)
Definition get_elapsed_ms (self : SubtitleSync) (now : float) : result Z :=
  match _start_time self with
  | None => ok 0
  | Some start_time =>
      if negb (_is_running self) then ok (_pause_elapsed self)
      else
        let elapsed_seconds := sub now start_time in
        to_int (mul elapsed_seconds thousand)
  end.

(** [pause] *)
Definition pause (self : SubtitleSync) (now : float) : ended :=
  if negb (_is_running self) then returns self
  else
    match get_elapsed_ms self now with
    | inr elapsed =>
        let self := set_pause_elapsed self elapsed in
        returns (set_is_running self false)
    | inl e => raises self e
    end.

(** [toggle] *)
Definition toggle (self : SubtitleSync) (now : float) : ended :=
  if _is_running self then pause self now else start self now.

(** [reset]: back to the beginning. *)
Definition reset (self : SubtitleSync) : SubtitleSync :=
  let self := set_start_time self None in
  let self := set_pause_elapsed self 0 in
  let self := set_is_running self false in
  set_current_subtitle self None.

(** [adjust_offset] *)
Definition adjust_offset (self : SubtitleSync) (delta_ms : Z) : SubtitleSync :=
  set_offset_ms self (_offset_ms self + delta_ms).

(** [set_offset] *)
Definition set_offset (self : SubtitleSync) (offset_ms : Z) : SubtitleSync :=
  set_offset_ms self offset_ms.

(** [get_adjusted_time_ms]: the position adjusted by the user offset. *)
Definition get_adjusted_time_ms (self : SubtitleSync) (now : float)
    : result Z :=
  elapsed <- get_elapsed_ms self now ;; ok (elapsed + _offset_ms self).

(** [get_current_subtitle] *)
Definition get_current_subtitle (self : SubtitleSync) (now : float)
    : outcome :=
  match subtitles self with
  | [] => Returned None
  | _ =>
      match get_adjusted_time_ms self now with
      | inr current_time => get_subtitle_at_time (subtitles self) current_time
      | inl e => Raised e
      end
  end.

(** [seek_to] *)
Definition seek_to (self : SubtitleSync) (time_ms : Z) (now : float)
    : ended :=
  let self := set_pause_elapsed self time_ms in
  if _is_running self then
    match seconds time_ms with
    | inr s => returns (set_start_time self (Some (sub now s)))
    | inl e => raises self e
    end
  else returns self.

(** The state-changing calls a driver can make, each with the clock
    reading at the time of the call. *)
Inductive call :=
| Start (now : float)
| Pause (now : float)
| Toggle (now : float)
| Reset
| AdjustOffset (delta_ms : Z)
| SetOffset (offset_ms : Z)
| SetPlaybackTime (time_ms : Z) (now : float)
| SeekTo (time_ms : Z) (now : float).

(** The object after a call, whether the call returned or raised. *)
Definition perform (self : SubtitleSync) (c : call) : SubtitleSync :=
  match c with
  | Start now => fst (start self now)
  | Pause now => fst (pause self now)
  | Toggle now => fst (toggle self now)
  | Reset => reset self
  | AdjustOffset delta_ms => adjust_offset self delta_ms
  | SetOffset offset_ms => set_offset self offset_ms
  | SetPlaybackTime time_ms now => fst (set_playback_time self time_ms now)
  | SeekTo time_ms now => fst (seek_to self time_ms now)
  end.

Definition perform_all (self : SubtitleSync) (cs : list call) : SubtitleSync :=
  fold_left perform cs self.

End SyncEngine.

(* ===================================================================== *)
(** * The vocabulary of the design document *)
(* ===================================================================== *)

Module CueSpec.
Import Py SrtParser.

(** A cue is active at [t] when [t] lies in its closed range. *)
Definition active (cue : Subtitle) (t : Z) : Prop :=
  start_ms cue <= t <= end_ms cue.

(** The range of a cue is not inverted. *)
Definition proper_range (cue : Subtitle) : Prop := start_ms cue <= end_ms cue.

(** Two closed ranges that share no instant. *)
Definition disjoint (a b : Subtitle) : Prop :=
  end_ms a < start_ms b \/ end_ms b < start_ms a.

(** Ascending start times. *)
Definition sorted_by_start (cues : list Subtitle) : Prop :=
  StronglySorted (fun a b => start_ms a <= start_ms b) cues.

(** Every cue ends before any later cue of the list starts. *)
Definition spaced (cues : list Subtitle) : Prop :=
  forall i j a b, (i < j)%nat ->
    nth_error cues i = Some a -> nth_error cues j = Some b ->
    start_ms a <= start_ms b /\ end_ms a < start_ms b.

End CueSpec.

Module ReSpec.
Import Py Re.

Definition within (hi : option nat) (n : nat) : Prop :=
  match hi with Some h => (n <= h)%nat | None => True end.

(** [matches r s gs]: the string [s], as a whole, is in the language of
    [r], its groups being [gs]. *)
Inductive matches : regex -> str -> list str -> Prop :=
| matches_eps : matches Eps [] []
| matches_chr p c : p c = true -> matches (Chr p) [c] []
| matches_rep p lo hi s :
    forallb p s = true -> (lo <= length s)%nat -> within hi (length s) ->
    matches (Rep p lo hi) s []
| matches_cat r1 r2 s1 s2 g1 g2 :
    matches r1 s1 g1 -> matches r2 s2 g2 ->
    matches (Cat r1 r2) (s1 ++ s2) (g1 ++ g2)
| matches_grp r s g : matches r s g -> matches (Grp r) s (g ++ [s]).

End ReSpec.

Module ParseSpec.
Import Py Re SrtParser.

(** A well-formed block, in the words of the design document: line 1
    parses as an integer index, line 2 matches the timestamp-range
    pattern, and the remaining lines (at least one) form the display
    text. *)
Definition well_formed (block : str) : bool :=
  let lines := split LF (strip block) in
  (3 <=? length lines)%nat
  && match int (strip (nth 0 lines [])) with
     | inr _ => true
     | inl _ => false
     end
  && match re_match timestamp_line_re (strip (nth 1 lines [])) with
     | Some _ => true
     | None => false
     end.

(** The blocks of a decoded source. *)
Definition blocks_of (content : str) : list str :=
  re_split blank_re (strip (lstrip (fun c => (c =? BOM)%N) content)).

End ParseSpec.

Module TagSpec.
Import Py Re.

(** A markup tag: ["<"], a non-empty name without [">"], [">"]. *)
Definition tag_name (name : str) : Prop :=
  name <> [] /\ forallb (not_ch ">") name = true.

Definition tag (name : str) : str := chr "<" :: name ++ [chr ">"].

(** The string contains a tag. *)
Definition has_tag (s : str) : Prop :=
  exists pre name post, tag_name name /\ s = pre ++ tag name ++ post.

End TagSpec.

(* ===================================================================== *)
(** * Vocabulary for statements about floats *)
(* ===================================================================== *)

Module FloatSpec.
Import Float.

(** The magnitude of a finite float in units of [2 ^ - N]. *)
Definition mag (N : Z) (x : spec_float) : Z :=
  match x with
  | S754_finite _ m e => Z.pos m * 2 ^ (e + N)
  | _ => 0
  end.

(** Its value, in the same units. *)
Definition sc (N : Z) (x : spec_float) : Z :=
  match x with
  | S754_finite s m e => cond_Zopp s (Z.pos m * 2 ^ (e + N))
  | _ => 0
  end.

(** A zero or a finite float whose exponent is not below that of the
    subnormal numbers. *)
Definition fin (x : spec_float) : Prop :=
  match x with
  | S754_zero _ => True
  | S754_finite _ _ e => -1074 <= e
  | _ => False
  end.

(** The sign of a float is [s], or the float is a zero. *)
Definition signed (s : bool) (x : spec_float) : Prop :=
  match x with
  | S754_zero _ => True
  | S754_finite s' _ _ => s' = s
  | _ => False
  end.

(** A reading of the wall clock: a float that is not negative and lies
    below [2 ^ 32] seconds. *)
Definition clock_reading (x : spec_float) : bool :=
  match x with
  | S754_zero _ => true
  | S754_finite false m e =>
      bounded 53 1024 m e && (Zdigits2 (Z.pos m) + e <=? 32)
  | _ => false
  end.

End FloatSpec.

(* ===================================================================== *)
(** * Vocabulary for statements about the sync engine *)
(* ===================================================================== *)

Module EngineSpec.
Import Py Float.

(** The elapsed time [elapsed] continues from the position [p] set when
    the clock read [r]: when the clock reads [t] it is [p] plus the
    milliseconds from [r] to [t], cut to whole milliseconds, up to the
    rounding of the float arithmetic.  It is never more than 1/64 ms
    ahead of that sum and less than 1 + 1/64 ms behind it. *)
Definition continues_from (p : Z) (r t : float) (elapsed : Z) : Prop :=
  (inject_Z elapsed <= inject_Z p + (to_Q t - to_Q r) * 1000 + (1 # 64))%Q
  /\ (inject_Z p + (to_Q t - to_Q r) * 1000 - 1 - (1 # 64)
      < inject_Z elapsed)%Q.

End EngineSpec.

(* ===================================================================== *)
(** * The scenarios of the design document *)
(* ===================================================================== *)

Module Scenarios.
Import Py Codecs Float SrtParser SyncEngine.

Definition file (s : String.string) : bytes := String.list_byte_of_string s.
Arguments file s%_string.

Definition cue_hello : Subtitle := mkSubtitle 1 1000 4000 (lit "Hello").
Definition cue_second : Subtitle :=
  mkSubtitle 2 5500 8200 (lit "Second
line").
Definition cue_italic : Subtitle :=
  mkSubtitle 3 10000 12500 (lit "italic stripped").

(** Scenario A: three blocks, the third with its text inside an [<i>]
    element. *)
Definition scenario_A : bytes := file "1
00:00:01,000 --> 00:00:04,000
Hello

2
00:00:05,500 --> 00:00:08,200
Second
line

3
00:00:10,000 --> 00:00:12,500
<i>italic stripped</i>
".

Definition scenario_A_cues : list Subtitle :=
  [cue_hello; cue_second; cue_italic].

(** Scenario E: a block of two lines, its text missing, between two
    well-formed blocks. *)
Definition scenario_E : bytes := file "1
00:00:01,000 --> 00:00:04,000
Hello

2
00:00:05,500 --> 00:00:08,200

3
00:00:10,000 --> 00:00:12,500
italic stripped
".


(** The clock reading [ms / 1000.0]: the float nearest to [ms]
    thousandths of a second. *)
Definition clock_at (ms : Z) : float :=
  div (binary_normalize 53 1024 ms 0 false) thousand.

(** An engine paused at 9001 ms: started, paused at once, and set to
    the position by the player. *)
Definition paused_at_9001 : SubtitleSync :=
  let now := clock_at 1700000000000 in
  let self := fst (start (init []) now) in
  let self := fst (pause self now) in
  fst (set_playback_time self 9001 now).

End Scenarios.

(* ===================================================================== *)
(** * More of the Python runtime: formatting, slices *)
(* ===================================================================== *)

Module PyFormat.
Import Py.

(** The decimal digits of a non-negative integer, most significant
    first.  The number of digits is at most the binary logarithm plus
    one, which bounds the recursion. *)
Fixpoint digits_aux (fuel : nat) (n : Z) (acc : str) : str :=
  match fuel with
  | O => acc
  | S fuel' =>
      let acc' := (chr "0" + Z.to_N (n mod 10))%N :: acc in
      if n <? 10 then acc' else digits_aux fuel' (n / 10) acc'
  end.

Definition digits (n : Z) : str :=
  digits_aux (S (Z.to_nat (Z.log2 n))) n [].

(** [format(n, "0<width>d")] and, with [plus], [format(n, "+d")]-style
    signs: the sign, then zeros up to the width, then the digits. *)
Definition format_d (plus : bool) (width : nat) (n : Z) : str :=
  let sign :=
    if n <? 0 then [chr "-"] else if plus then [chr "+"] else [] in
  let ds := digits (Z.abs n) in
  sign ++ repeat (chr "0") (width - length sign - length ds) ++ ds.

(** The bound of a slice, [i] for a sequence of length [n]: a negative
    bound counts from the end, and bounds are clipped to the sequence. *)
Definition slice_bound (n i : Z) : Z :=
  if i <? 0 then Z.max 0 (i + n) else Z.min i n.

(** [l[start:stop]] *)
Definition slice {A} (l : list A) (start stop : Z) : list A :=
  let n := Z.of_nat (length l) in
  let lo := slice_bound n start in
  let hi := slice_bound n stop in
  firstn (Z.to_nat (hi - lo)) (skipn (Z.to_nat lo) l).

(** [enumerate(l)] *)
Definition enumerate {A} (l : list A) : list (Z * A) :=
  combine (map Z.of_nat (seq 0 (length l))) l.

End PyFormat.

(* ===================================================================== *)
(** * srt_parser.py: timestamps back to text *)
(* ===================================================================== *)

Module SrtTimestamps.
Import Py PyFormat SrtParser.

(** [ms_to_timestamp]: milliseconds to [HH:MM:SS,mmm]. *)
Definition ms_to_timestamp (ms : Z) : str :=
  let hours := ms / 3600000 in
  let ms := ms mod 3600000 in
  let minutes := ms / 60000 in
  let ms := ms mod 60000 in
  let seconds := ms / 1000 in
  let milliseconds := ms mod 1000 in
  format_d false 2 hours ++ chr ":" :: format_d false 2 minutes
    ++ chr ":" :: format_d false 2 seconds
    ++ chr "," :: format_d false 3 milliseconds.

(** [Subtitle.start_formatted] *)
Definition start_formatted (self : Subtitle) : str :=
  ms_to_timestamp (start_ms self).

(** [Subtitle.end_formatted] *)
Definition end_formatted (self : Subtitle) : str :=
  ms_to_timestamp (end_ms self).

End SrtTimestamps.

(* ===================================================================== *)
(** * Vocabulary for statements about formatting *)
(* ===================================================================== *)

Module FormatSpec.
Import Py PyFormat.

Definition ascii_digit (c : char) : Prop := (48 <= c <= 57)%N.

(** [format(n, "0<width>d")] is [width] decimal digits that [int] reads
    back as [n]. *)
Definition reads_back (width : nat) (n : Z) : bool :=
  forallb is_decimal (format_d false width n)
  && (length (format_d false width n) =? width)%nat
  && match int (format_d false width n) with
     | inr z => z =? n
     | inl _ => false
     end.

End FormatSpec.

(* ===================================================================== *)
(** * More scenarios *)
(* ===================================================================== *)

Module MoreScenarios.
Import Py Codecs SrtParser Scenarios.

(** Two blocks that start at the same time, after a later one. *)
Definition same_start : bytes := file "1
00:00:05,000 --> 00:00:06,000
later

2
00:00:01,000 --> 00:00:02,000
first of two

3
00:00:01,000 --> 00:00:03,000
second of two
".

Definition same_start_cues : list Subtitle :=
  [mkSubtitle 2 1000 2000 (lit "first of two");
   mkSubtitle 3 1000 3000 (lit "second of two");
   mkSubtitle 1 5000 6000 (lit "later")].

(** A block whose text has no markup. *)
Definition plain_block : str := lit "1
00:00:01,000 --> 00:00:04,000
  Hello
".

End MoreScenarios.

(* ===================================================================== *)
(** * sync_engine.py: progress report and preview *)
(* ===================================================================== *)

Module SyncInfo.
Import Py Float PyFormat SrtParser SyncEngine.

(** The properties [is_running] and [offset_ms]. *)
Definition is_running (self : SubtitleSync) : bool := _is_running self.
Definition offset_ms (self : SubtitleSync) : Z := _offset_ms self.

(** The dictionary [get_progress_info] returns, one field per key
    ([info_elapsed] for ["elapsed"], and so on). *)
Record progress_info := mkProgressInfo {
  info_elapsed : str;
  info_elapsed_ms : Z;
  info_adjusted_ms : Z;
  info_total : str;
  info_total_ms : Z;
  info_offset : Z;
  info_offset_str : str;
  info_is_running : bool
}.

(** [format_time], local to [get_progress_info]: [MM:SS]. *)
Definition format_time (ms : Z) : str :=
  let total_seconds := Z.max 0 (ms / 1000) in
  let minutes := total_seconds / 60 in
  let seconds := total_seconds mod 60 in
  format_d false 2 minutes ++ chr ":" :: format_d false 2 seconds.

(** [get_progress_info].  The clock is read twice: once for the elapsed
    time ([now]) and once more for the adjusted time ([now']). *)
Definition get_progress_info (self : SubtitleSync) (now now' : float)
    : result progress_info :=
  elapsed <- get_elapsed_ms self now ;;
  adjusted <- get_adjusted_time_ms self now' ;;
  total_ms <-
    match subtitles self with
    | [] => ok 0
    | _ => last_cue <- getitem (subtitles self) (-1) ;; ok (end_ms last_cue)
    end ;;
  ok {| info_elapsed := format_time elapsed;
        info_elapsed_ms := elapsed;
        info_adjusted_ms := adjusted;
        info_total := format_time total_ms;
        info_total_ms := total_ms;
        info_offset := _offset_ms self;
        info_offset_str := format_d true 0 (_offset_ms self) ++ lit "ms";
        info_is_running := _is_running self |}.

(** The loop of [get_nearby_subtitles] that finds the index of the cue
    whose start is closest to [current_time]; [min_diff = None] is the
    initial [float('inf')]. *)
Fixpoint closest_loop (current_time : Z) (items : list (Z * Subtitle))
    (closest_idx : Z) (min_diff : option Z) : Z :=
  match items with
  | [] => closest_idx
  | (i, sub) :: rest =>
      let diff := Z.abs (start_ms sub - current_time) in
      if match min_diff with
         | None => true
         | Some m => diff <? m
         end
      then closest_loop current_time rest i (Some diff)
      else closest_loop current_time rest closest_idx min_diff
  end.

(** [get_nearby_subtitles(count)]: cues around the current time. *)
Definition get_nearby_subtitles (self : SubtitleSync) (count : Z)
    (now : float) : result (list Subtitle) :=
  match subtitles self with
  | [] => ok []
  | _ =>
      current_time <- get_adjusted_time_ms self now ;;
      let closest_idx :=
        closest_loop current_time (enumerate (subtitles self)) 0 None in
      let start_idx := Z.max 0 (closest_idx - count / 2) in
      let end_idx :=
        Z.min (Z.of_nat (length (subtitles self))) (start_idx + count) in
      ok (slice (subtitles self) start_idx end_idx)
  end.

End SyncInfo.

(* ===================================================================== *)
(** * Vocabulary for statements about sequences of calls *)
(* ===================================================================== *)

Module CallSpec.
Import Py SrtParser SyncEngine.

(** An engine a driver can hold: a new one, after any calls. *)
Definition reachable (self : SubtitleSync) : Prop :=
  exists subtitles calls, self = perform_all (init subtitles) calls.

(** The offset after a sequence of calls, as the offset calls alone
    make it. *)
Definition offset_after (offset : Z) (calls : list call) : Z :=
  fold_left
    (fun offset c =>
       match c with
       | AdjustOffset delta_ms => offset + delta_ms
       | SetOffset offset_ms => offset_ms
       | _ => offset
       end)
    calls offset.

End CallSpec.

(* ===================================================================== *)
(** * Facts about the runtime model *)
(* ===================================================================== *)

Module PyFacts.
Import Py.

(** A property checked on the table of decimal digits holds of every
    decimal digit. *)
Lemma decimal_table (q : char -> bool) (c : char) :
  forallb (fun z => forallb (fun i => q (z + i)%N) ten) decimal_zeros = true ->
  is_decimal c = true -> q c = true.
Proof.
  intros Htab Hc. unfold is_decimal, decimal_value in Hc.
  destruct (find (fun z => (z <=? c) && (c <? z + 10))%N decimal_zeros)
    as [z|] eqn:E; [clear Hc | discriminate].
  apply find_some in E. destruct E as [Hin Hz].
  rewrite forallb_forall in Htab. specialize (Htab z Hin).
  rewrite forallb_forall in Htab.
  apply andb_true_iff in Hz. destruct Hz as [Hlo Hhi].
  apply N.leb_le in Hlo. apply N.ltb_lt in Hhi.
  replace c with (z + (c - z))%N by lia.
  apply Htab. unfold ten. simpl. lia.
Qed.

Lemma decimal_not_space (c : char) :
  is_decimal c = true -> is_space c = false.
Proof.
  intros H. apply negb_true_iff.
  apply (decimal_table (fun c => negb (is_space c))); [|exact H].
  vm_compute. reflexivity.
Qed.

Lemma decimal_not_ascii (a : ascii) (c : char) :
  is_decimal (chr a) = false -> is_decimal c = true -> (c =? chr a)%N = false.
Proof.
  intros Ha Hc. destruct (N.eqb_spec c (chr a)) as [->|]; [|reflexivity].
  congruence.
Qed.

Lemma lstrip_keep (p : char -> bool) (c : char) (s : str) :
  p c = false -> lstrip p (c :: s) = c :: s.
Proof. intros H. simpl. rewrite H. reflexivity. Qed.

Lemma strip_ends (p : char -> bool) (s : str) :
  (forall c, In c s -> p c = false) -> rstrip p (lstrip p s) = s.
Proof.
  intros H. unfold rstrip.
  assert (L : forall u, (forall c, In c u -> p c = false) -> lstrip p u = u).
  { intros [|c u] Hu; [reflexivity|].
    apply lstrip_keep. apply Hu. left. reflexivity. }
  rewrite (L s H). rewrite L; [apply rev_involutive|].
  intros c Hc. apply H. apply in_rev. exact Hc.
Qed.

Lemma int_digits_decimal (s : str) :
  forallb is_decimal s = true ->
  forall acc, exists z, int_digits acc false s = Some z.
Proof.
  induction s as [|c s IH]; intros Hall acc; simpl in *.
  - exists acc. reflexivity.
  - apply andb_true_iff in Hall. destruct Hall as [Hc Hall].
    unfold is_decimal in Hc.
    destruct (decimal_value c) as [d|]; [|discriminate].
    apply IH. exact Hall.
Qed.

(** [int] accepts every non-empty string of decimal digits. *)
Lemma int_decimal (s : str) :
  forallb is_decimal s = true -> s <> [] -> exists z, int s = ok z.
Proof.
  intros Hall Hne. unfold int.
  rewrite strip_ends.
  2:{ intros c Hc. rewrite forallb_forall in Hall.
      unfold int_space. rewrite decimal_not_space; [reflexivity|].
      apply Hall. exact Hc. }
  destruct s as [|c s]; [contradiction|].
  simpl in Hall. apply andb_true_iff in Hall. destruct Hall as [Hc Hall].
  rewrite (decimal_not_ascii "-" c) by (reflexivity || assumption).
  rewrite (decimal_not_ascii "+" c) by (reflexivity || assumption).
  simpl. unfold is_decimal in Hc.
  destruct (decimal_value c) as [d|]; [|discriminate].
  destruct (int_digits_decimal s Hall d) as [z ->].
  exists z. reflexivity.
Qed.

End PyFacts.

Module ReFacts.
Import Py Re ReSpec.

Lemma rep_match_sound {A} (p : char -> bool) (s : str) :
  forall lo hi (k : str -> option A) a,
    rep_match p lo hi s k = Some a ->
    exists pre rest, s = pre ++ rest /\ forallb p pre = true
      /\ (lo <= length pre)%nat /\ within hi (length pre) /\ k rest = Some a.
Proof.
  induction s as [|c s IH]; intros lo hi k a H; simpl in H.
  - destruct lo; [|discriminate].
    exists [], []. repeat split; simpl; try lia; try assumption.
    destruct hi; simpl; lia.
  - assert (Hstop : match lo with O => k (c :: s) | S _ => None end = Some a ->
                    exists pre rest, c :: s = pre ++ rest
                      /\ forallb p pre = true /\ (lo <= length pre)%nat
                      /\ within hi (length pre) /\ k rest = Some a).
    { intros Hk. destruct lo; [|discriminate].
      exists [], (c :: s). repeat split; simpl; try lia; try assumption.
      destruct hi; simpl; lia. }
    destruct (p c) eqn:Hp; simpl in H; [|auto].
    destruct hi as [[|h]|]; simpl in H; [auto| |].
    + destruct (rep_match p (pred lo) (Some h) s k) as [r|] eqn:E; [|auto].
      inversion H; subst r; clear H.
      apply IH in E. destruct E as (pre & rest & -> & Hall & Hlo & Hhi & Hk).
      exists (c :: pre), rest. simpl in *. rewrite Hp, Hall.
      repeat split; try lia; assumption.
    + destruct (rep_match p (pred lo) None s k) as [r|] eqn:E; [|auto].
      inversion H; subst r; clear H.
      apply IH in E. destruct E as (pre & rest & -> & Hall & Hlo & Hhi & Hk).
      exists (c :: pre), rest. simpl in *. rewrite Hp, Hall.
      repeat split; try lia; assumption.
Qed.

Lemma rep_match_complete {A} (p : char -> bool) (pre : str) :
  forall lo hi rest (k : str -> option A),
    forallb p pre = true -> (lo <= length pre)%nat ->
    within hi (length pre) -> k rest <> None ->
    rep_match p lo hi (pre ++ rest) k <> None.
Proof.
  induction pre as [|c pre IH]; intros lo hi rest k Hall Hlo Hhi Hk.
  - simpl in *. assert (lo = O) by lia; subst lo.
    destruct rest as [|c r]; simpl; [exact Hk|].
    destruct (p c && match hi with Some O => false | _ => true end);
      [|exact Hk].
    destruct (rep_match p O (option_map pred hi) r k); [discriminate|exact Hk].
  - simpl in Hall. apply andb_true_iff in Hall. destruct Hall as [Hp Hall].
    simpl. rewrite Hp.
    assert (Hgo : rep_match p (pred lo) (option_map pred hi) (pre ++ rest) k
                  <> None).
    { apply IH; try assumption.
      - simpl in Hlo. lia.
      - destruct hi as [h|]; simpl in *; [lia | exact I]. }
    destruct hi as [[|h]|]; simpl in *; [lia| |];
      match goal with
      | |- context [rep_match p ?l ?h ?s k] =>
          destruct (rep_match p l h s k); [discriminate | contradiction]
      end.
Qed.

Lemma firstn_consumed {A} (pre rest : list A) :
  firstn (length (pre ++ rest) - length rest) (pre ++ rest) = pre.
Proof.
  rewrite length_app, Nat.add_sub.
  rewrite firstn_app, Nat.sub_diag, firstn_all. simpl. apply app_nil_r.
Qed.

(** What the matcher hands to its continuation is a match. *)
Lemma run_sound {A} (r : regex) :
  forall s caps (k : str -> list str -> option A) a,
    run r s caps k = Some a ->
    exists pre rest gs, s = pre ++ rest /\ matches r pre gs
      /\ k rest (caps ++ gs) = Some a.
Proof.
  induction r as [|p|p lo hi|r1 IH1 r2 IH2|r IH]; intros s caps k a H;
    simpl in H.
  - exists [], s, []. rewrite app_nil_r. repeat split; [constructor | exact H].
  - destruct s as [|c s]; [discriminate|].
    destruct (p c) eqn:Hp; [|discriminate].
    exists [c], s, []. rewrite app_nil_r.
    repeat split; [constructor; exact Hp | exact H].
  - apply rep_match_sound in H.
    destruct H as (pre & rest & -> & Hall & Hlo & Hhi & Hk).
    exists pre, rest, []. rewrite app_nil_r.
    repeat split; [constructor; assumption | exact Hk].
  - apply IH1 in H. destruct H as (pre1 & rest1 & g1 & -> & M1 & H).
    apply IH2 in H. destruct H as (pre2 & rest2 & g2 & -> & M2 & H).
    exists (pre1 ++ pre2), rest2, (g1 ++ g2).
    rewrite <- app_assoc. repeat split; [constructor; assumption|].
    rewrite app_assoc. exact H.
  - apply IH in H. destruct H as (pre & rest & gs & -> & M & H).
    rewrite firstn_consumed in H.
    exists pre, rest, (gs ++ [pre]).
    repeat split; [constructor; exact M|].
    rewrite app_assoc. exact H.
Qed.

(** A string with a matching prefix, after which the continuation
    succeeds, is not rejected. *)
Lemma run_complete {A} (r : regex) (pre : str) (gs : list str) :
  matches r pre gs ->
  forall rest caps (k : str -> list str -> option A),
    k rest (caps ++ gs) <> None -> run r (pre ++ rest) caps k <> None.
Proof.
  induction 1 as [|p c Hp|p lo hi s Hall Hlo Hhi
                  |r1 r2 s1 s2 g1 g2 M1 IH1 M2 IH2|r s g M IH];
    intros rest caps k Hk; simpl.
  - rewrite app_nil_r in Hk. exact Hk.
  - rewrite Hp. rewrite app_nil_r in Hk. exact Hk.
  - apply rep_match_complete; try assumption.
    rewrite app_nil_r in Hk. exact Hk.
  - rewrite <- app_assoc. apply IH1. apply IH2.
    rewrite <- app_assoc. exact Hk.
  - apply IH. rewrite firstn_consumed, <- app_assoc. exact Hk.
Qed.

Lemma re_match_sound (r : regex) (s : str) (m : list str) :
  re_match r s = Some m ->
  exists pre rest gs, s = pre ++ rest /\ matches r pre gs /\ m = pre :: gs.
Proof.
  unfold re_match. intros H. apply run_sound in H.
  destruct H as (pre & rest & gs & -> & M & H).
  rewrite firstn_consumed in H. inversion H; subst.
  exists pre, rest, gs. repeat split. exact M.
Qed.

Lemma re_match_complete (r : regex) (pre rest : str) (gs : list str) :
  matches r pre gs -> re_match r (pre ++ rest) <> None.
Proof.
  intros M. unfold re_match. eapply run_complete; [exact M | discriminate].
Qed.

End ReFacts.

(* ===================================================================== *)
(** * Facts about the cue store *)
(* ===================================================================== *)

Module SortFacts.
Import Py SrtParser CueSpec.

Lemma insert_perm (s : Subtitle) (l : list Subtitle) :
  Permutation (insert s l) (s :: l).
Proof.
  induction l as [|x l IH]; simpl; [reflexivity|].
  destruct (start_ms s <=? start_ms x); [reflexivity|].
  rewrite IH. apply perm_swap.
Qed.

Lemma sort_perm (l : list Subtitle) : Permutation (sort l) l.
Proof.
  induction l as [|x l IH]; simpl; [reflexivity|].
  rewrite insert_perm, IH. reflexivity.
Qed.

Lemma insert_sorted (s : Subtitle) (l : list Subtitle) :
  sorted_by_start l -> sorted_by_start (insert s l).
Proof.
  unfold sorted_by_start.
  induction 1 as [|x l Hl IH Hx]; simpl.
  - repeat constructor.
  - destruct (Z.leb_spec (start_ms s) (start_ms x)) as [Hle|Hgt].
    + constructor; [constructor; assumption|].
      constructor; [exact Hle|].
      rewrite Forall_forall in *. intros y Hy. specialize (Hx y Hy). lia.
    + constructor; [exact IH|].
      rewrite Forall_forall in *. intros y Hy.
      apply (Permutation_in _ (insert_perm s l)) in Hy.
      destruct Hy as [<-|Hy]; [lia | auto].
Qed.

Lemma sort_sorted (l : list Subtitle) : sorted_by_start (sort l).
Proof.
  induction l as [|x l IH]; simpl; [constructor|].
  apply insert_sorted. exact IH.
Qed.

(** The sort is stable: cues with the same start time keep their order. *)
Lemma insert_stable (k : Z) (s : Subtitle) (l : list Subtitle) :
  sorted_by_start l ->
  filter (fun c => start_ms c =? k) (insert s l)
  = filter (fun c => start_ms c =? k) (s :: l).
Proof.
  unfold sorted_by_start.
  induction 1 as [|x l Hl IH Hx]; [reflexivity|].
  simpl insert.
  destruct (Z.leb_spec (start_ms s) (start_ms x)) as [Hle|Hgt];
    [reflexivity|].
  simpl. rewrite IH. simpl.
  destruct (Z.eqb_spec (start_ms s) k), (Z.eqb_spec (start_ms x) k);
    try reflexivity. lia.
Qed.

Lemma sort_stable (k : Z) (l : list Subtitle) :
  filter (fun c => start_ms c =? k) (sort l)
  = filter (fun c => start_ms c =? k) l.
Proof.
  induction l as [|x l IH]; [reflexivity|].
  simpl sort. rewrite insert_stable by apply sort_sorted.
  simpl. rewrite IH. reflexivity.
Qed.

(** In a list sorted by start time whose ranges are proper and pairwise
    disjoint, every cue ends before the next one starts. *)
Lemma sorted_disjoint_spaced (l : list Subtitle) :
  sorted_by_start l -> Forall proper_range l -> ForallOrdPairs disjoint l ->
  spaced l.
Proof.
  unfold sorted_by_start, spaced.
  induction 1 as [|x l Hl IH Hx]; intros Hp Hd i j a b Hij Hi Hj.
  - destruct i; discriminate.
  - inversion Hp as [|? ? Hpx Hpl]; subst.
    inversion Hd as [|? ? Hdx Hdl]; subst.
    destruct j as [|j]; [lia|]. simpl in Hj.
    destruct i as [|i]; simpl in Hi.
    + inversion Hi; subst a.
      apply nth_error_In in Hj.
      rewrite Forall_forall in Hx, Hdx, Hpl.
      specialize (Hx b Hj). specialize (Hdx b Hj). specialize (Hpl b Hj).
      unfold disjoint, proper_range in *. lia.
    + apply (IH Hpl Hdl i j); [lia | assumption | assumption].
Qed.

End SortFacts.

Module LookupFacts.
Import Py SrtParser CueSpec.

Lemma getitem_in_range {A} (l : list A) (i : Z) :
  0 <= i < Z.of_nat (length l) ->
  exists a, nth_error l (Z.to_nat i) = Some a /\ getitem l i = ok a.
Proof.
  intros Hi. unfold getitem.
  destruct (Z.ltb_spec i 0) as [Hneg|_]; [lia|].
  destruct (Z.leb_spec 0 i) as [_|Hneg]; [|lia].
  destruct (Z.ltb_spec i (Z.of_nat (length l))) as [_|Hbig]; [|lia].
  simpl.
  destruct (nth_error l (Z.to_nat i)) as [a|] eqn:E.
  - exists a. split; reflexivity.
  - apply nth_error_None in E. lia.
Qed.

Lemma mid_between (left right : Z) :
  left <= right -> left <= (left + right) / 2 <= right.
Proof.
  intros H. split.
  - apply Z.div_le_lower_bound; lia.
  - apply Z.div_le_upper_bound; lia.
Qed.

(** The branches of one iteration, for a window inside the list. *)
Lemma search_step_cases (l : list Subtitle) (t left right : Z) :
  0 <= left -> right < Z.of_nat (length l) ->
  (right < left /\ search_step l t left right = Exit (Returned None))
  \/ (left <= right /\
      exists sub, nth_error l (Z.to_nat ((left + right) / 2)) = Some sub /\
        ((active sub t
          /\ search_step l t left right = Exit (Returned (Some sub)))
         \/ (t < start_ms sub
             /\ search_step l t left right
                = Next left ((left + right) / 2 - 1))
         \/ (start_ms sub <= t /\ end_ms sub < t
             /\ search_step l t left right
                = Next ((left + right) / 2 + 1) right))).
Proof.
  intros Hl Hr. unfold search_step.
  destruct (Z.leb_spec left right) as [Hle|Hgt].
  - right. split; [exact Hle|].
    pose proof (mid_between left right Hle) as Hmid.
    destruct (getitem_in_range l ((left + right) / 2)) as (sub & Hnth & Hget);
      [lia|].
    exists sub. split; [exact Hnth|]. rewrite Hget. unfold ok, active.
    cbv beta iota zeta.
    destruct (Z.leb_spec (start_ms sub) t) as [Hs|Hs]; simpl.
    + destruct (Z.leb_spec t (end_ms sub)) as [He|He].
      * left. split; [lia | reflexivity].
      * right. right.
        destruct (Z.ltb_spec t (start_ms sub)); [lia|].
        repeat split; lia.
    + right. left.
      destruct (Z.ltb_spec t (start_ms sub)); [|lia].
      split; [lia | reflexivity].
  - left. split; [lia | reflexivity].
Qed.

(** The loop finishes within [right - left + 2] iterations, returning
    [None] or an active cue of the list. *)
Lemma search_loop_total (l : list Subtitle) (t : Z) (fuel : nat)
    (left right : Z) :
  0 <= left <= right + 1 -> right < Z.of_nat (length l) ->
  right - left + 1 < Z.of_nat fuel ->
  search_loop fuel l t left right = Returned None
  \/ exists sub, In sub l /\ active sub t
       /\ search_loop fuel l t left right = Returned (Some sub).
Proof.
  revert left right.
  induction fuel as [|fuel IH]; intros left right Hl Hr Hfuel.
  - destruct (search_step_cases l t left right (proj1 Hl) Hr)
      as [[H _]|[H _]]; lia.
  - simpl.
    destruct (search_step_cases l t left right (proj1 Hl) Hr)
      as [[_ ->]|(Hle & sub & Hnth & [(Hact & ->)|[(_ & ->)|(_ & _ & ->)]])].
    + left. reflexivity.
    + right. exists sub. split; [eapply nth_error_In; eassumption|].
      split; [assumption | reflexivity].
    + pose proof (mid_between left right Hle). apply IH; lia.
    + pose proof (mid_between left right Hle). apply IH; lia.
Qed.

(** More iterations than needed change nothing. *)
Lemma search_loop_fuel (l : list Subtitle) (t : Z) (fuel fuel' : nat)
    (left right : Z) :
  0 <= left <= right + 1 -> right < Z.of_nat (length l) ->
  right - left + 1 < Z.of_nat fuel -> (fuel <= fuel')%nat ->
  search_loop fuel' l t left right = search_loop fuel l t left right.
Proof.
  revert fuel' left right.
  induction fuel as [|fuel IH]; intros fuel' left right Hl Hr Hfuel Hle'.
  - destruct (search_step_cases l t left right (proj1 Hl) Hr)
      as [[H _]|[H _]]; lia.
  - destruct fuel' as [|fuel']; [lia|]. simpl.
    destruct (search_step_cases l t left right (proj1 Hl) Hr)
      as [[_ ->]|(Hle & sub & Hnth & [(Hact & ->)|[(_ & ->)|(_ & _ & ->)]])];
      try reflexivity;
      pose proof (mid_between left right Hle); apply IH; lia.
Qed.

(** On a spaced list, a window that holds every active cue is searched
    successfully. *)
Lemma search_loop_finds (l : list Subtitle) (t : Z) (fuel : nat)
    (left right : Z) (k : nat) (cue : Subtitle) :
  spaced l ->
  0 <= left <= right + 1 -> right < Z.of_nat (length l) ->
  right - left + 1 < Z.of_nat fuel ->
  nth_error l k = Some cue -> active cue t ->
  left <= Z.of_nat k <= right ->
  search_loop fuel l t left right = Returned (Some cue).
Proof.
  intros Hsp. revert left right.
  induction fuel as [|fuel IH]; intros left right Hl Hr Hfuel Hk Hact Hwin.
  - lia.
  - simpl.
    destruct (search_step_cases l t left right (proj1 Hl) Hr)
      as [[Hlt _]|(Hle & sub & Hnth
                   & [(Hact' & ->)|[(Hlt & ->)|(Hs & He & ->)]])].
    + lia.
    + (* the probe is active: it is the cue *)
      pose proof (mid_between left right Hle) as Hmid.
      destruct (Nat.lt_trichotomy k (Z.to_nat ((left + right) / 2)))
        as [Hc|[Hc|Hc]].
      * destruct (Hsp _ _ _ _ Hc Hk Hnth). unfold active in *. lia.
      * subst k. rewrite Hnth in Hk. inversion Hk. reflexivity.
      * destruct (Hsp _ _ _ _ Hc Hnth Hk). unfold active in *. lia.
    + (* t before the probe: the cue is to its left *)
      pose proof (mid_between left right Hle) as Hmid.
      apply IH; try lia; try assumption.
      destruct (Nat.lt_trichotomy k (Z.to_nat ((left + right) / 2)))
        as [Hc|[Hc|Hc]].
      * lia.
      * subst k. rewrite Hnth in Hk. inversion Hk; subst.
        unfold active in *. lia.
      * destruct (Hsp _ _ _ _ Hc Hnth Hk). unfold active in *. lia.
    + (* t after the probe: the cue is to its right *)
      pose proof (mid_between left right Hle) as Hmid.
      apply IH; try lia; try assumption.
      destruct (Nat.lt_trichotomy k (Z.to_nat ((left + right) / 2)))
        as [Hc|[Hc|Hc]].
      * destruct (Hsp _ _ _ _ Hc Hk Hnth). unfold active in *. lia.
      * subst k. rewrite Hnth in Hk. inversion Hk; subst.
        unfold active in *. lia.
      * lia.
Qed.

(** The lookup returns no cue or an active cue of the list. *)
Lemma lookup_total (l : list Subtitle) (t : Z) :
  get_subtitle_at_time l t = Returned None
  \/ exists sub, In sub l /\ active sub t
       /\ get_subtitle_at_time l t = Returned (Some sub).
Proof.
  unfold get_subtitle_at_time. destruct l as [|x l]; [left; reflexivity|].
  apply search_loop_total; simpl length; lia.
Qed.

(** On a spaced list it returns the active cue. *)
Lemma lookup_finds (l : list Subtitle) (t : Z) (cue : Subtitle) :
  spaced l -> In cue l -> active cue t ->
  get_subtitle_at_time l t = Returned (Some cue).
Proof.
  intros Hsp Hin Hact. apply In_nth_error in Hin. destruct Hin as [k Hk].
  assert (Hlt : (k < length l)%nat) by (apply nth_error_Some; congruence).
  unfold get_subtitle_at_time. destruct l as [|x l]; [simpl in Hlt; lia|].
  apply (search_loop_finds _ _ _ _ _ k); try assumption; simpl length in *;
    lia.
Qed.

End LookupFacts.

Module ParserFacts.
Import Py Re Codecs SrtParser ReSpec ReFacts PyFacts ParseSpec.

Lemma getitem_nth {A} (l : list A) (i : nat) (a : A) :
  nth_error l i = Some a -> getitem l (Z.of_nat i) = ok a.
Proof.
  intros H. unfold getitem.
  assert (Hi : (i < length l)%nat) by (apply nth_error_Some; congruence).
  destruct (Z.ltb_spec (Z.of_nat i) 0); [lia|].
  destruct (Z.leb_spec 0 (Z.of_nat i)); [|lia].
  destruct (Z.ltb_spec (Z.of_nat i) (Z.of_nat (length l))); [|lia].
  simpl. rewrite Nat2Z.id, H. reflexivity.
Qed.

Ltac invert_matches :=
  repeat match goal with
         | H : matches (Cat _ _) _ _ |- _ => inversion H; subst; clear H
         | H : matches (Grp _) _ _ |- _ => inversion H; subst; clear H
         | H : matches (Chr _) _ _ |- _ => inversion H; subst; clear H
         | H : matches (Rep _ _ _) _ _ |- _ => inversion H; subst; clear H
         | H : matches Eps _ _ |- _ => inversion H; subst; clear H
         end.

(** The shape of a string matched by [stamp]. *)
Lemma stamp_shape (s : str) (gs : list str) :
  matches stamp s gs ->
  gs = [] /\
  exists h m sec sep f,
    s = h ++ chr ":" :: m ++ chr ":" :: sec ++ sep :: f
    /\ forallb is_decimal h = true /\ (1 <= length h <= 2)%nat
    /\ forallb is_decimal m = true /\ length m = 2%nat
    /\ forallb is_decimal sec = true /\ length sec = 2%nat
    /\ (sep = chr "," \/ sep = chr ".")
    /\ forallb is_decimal f = true /\ length f = 3%nat.
Proof.
  unfold stamp, cat, between, times. intros H. invert_matches.
  split; [reflexivity|].
  repeat match goal with
         | H : ch _ ?c = true |- _ =>
             unfold ch in H; apply N.eqb_eq in H; subst c
         | H : within _ _ |- _ => simpl in H
         end.
  match goal with
  | H : one_of _ _ ?c = true |- _ =>
      unfold one_of in H; apply orb_true_iff in H;
      rewrite !N.eqb_eq in H; rename c into sep
  end.
  match goal with
  | |- exists h m sec sep f,
         (?a ++ [_] ++ ?b ++ [_] ++ ?c ++ [?x] ++ ?d) = _ /\ _ =>
      exists a, b, c, x, d
  end.
  simpl. repeat split; try assumption; try lia.
Qed.

Lemma replace_app (a b : char) (s t : str) :
  replace a b (s ++ t) = replace a b s ++ replace a b t.
Proof. apply map_app. Qed.

Lemma replace_decimal (s : str) :
  forallb is_decimal s = true -> replace (chr ",") (chr ".") s = s.
Proof.
  induction s as [|c s IH]; intros H; [reflexivity|].
  simpl in H. apply andb_true_iff in H. destruct H as [Hc Hs].
  change (replace (chr ",") (chr ".") (c :: s))
    with ((if (c =? chr ",")%N then chr "." else c)
          :: replace (chr ",") (chr ".") s).
  rewrite (decimal_not_ascii "," c) by (reflexivity || assumption).
  rewrite (IH Hs). reflexivity.
Qed.

(** [timestamp_to_ms] raises on no timestamp the line pattern captured. *)
Lemma timestamp_to_ms_stamp (s : str) (gs : list str) :
  matches stamp s gs -> exists z, timestamp_to_ms s = ok z.
Proof.
  intros M. apply stamp_shape in M.
  destruct M as (_ & h & m & sec & sep & f & -> & Hh & Lh & Hm & Lm
                 & Hsec & Lsec & Hsep & Hf & Lf).
  unfold timestamp_to_ms.
  assert (R : replace (chr ",") (chr ".")
                (h ++ chr ":" :: m ++ chr ":" :: sec ++ sep :: f)
              = (h ++ chr ":" :: m ++ chr ":" :: sec ++ chr "." :: f) ++ []).
  { rewrite app_nil_r.
    change (chr ":" :: m ++ chr ":" :: sec ++ sep :: f)
      with ([chr ":"] ++ m ++ [chr ":"] ++ sec ++ [sep] ++ f).
    rewrite !replace_app.
    rewrite (replace_decimal h), (replace_decimal m), (replace_decimal sec),
      (replace_decimal f) by assumption.
    destruct Hsep as [-> | ->]; reflexivity. }
  rewrite R. clear R.
  assert (M : matches timestamp_re
                (h ++ chr ":" :: m ++ chr ":" :: sec ++ chr "." :: f)
                [h; m; sec; f]).
  { unfold timestamp_re, cat, between, times.
    change (h ++ chr ":" :: m ++ chr ":" :: sec ++ chr "." :: f)
      with (h ++ [chr ":"] ++ m ++ [chr ":"] ++ sec ++ [chr "."] ++ f).
    change [h; m; sec; f]
      with (([] ++ [h]) ++ [] ++ ([] ++ [m]) ++ [] ++ ([] ++ [sec]) ++ []
            ++ ([] ++ [f])).
    repeat first
      [ apply matches_cat | apply matches_grp | apply matches_chr
      | apply matches_rep ];
      simpl; try assumption; try reflexivity; try lia. }
  destruct (re_match timestamp_re
              ((h ++ chr ":" :: m ++ chr ":" :: sec ++ chr "." :: f) ++ []))
    as [groups|] eqn:E;
    [|exfalso; revert E; eapply re_match_complete; exact M].
  clear M. apply re_match_sound in E.
  destruct E as (pre & rest & gs' & _ & M & ->).
  unfold timestamp_re, cat, between, times in M. invert_matches.
  simpl.
  repeat match goal with
         | H : forallb is_decimal ?g = true, L : (_ <= length ?g)%nat |- _ =>
             let z := fresh "z" in
             let Hz := fresh "Hz" in
             destruct (int_decimal g H) as [z Hz];
             [ intros ->; simpl in L; lia | rewrite Hz; clear H ]
         end.
  simpl. eexists. reflexivity.
Qed.

Lemma getitem_0 {A} (a : A) (l : list A) : getitem (a :: l) 0 = ok a.
Proof. exact (getitem_nth (a :: l) 0 a eq_refl). Qed.

Lemma getitem_1 {A} (a b : A) (l : list A) : getitem (a :: b :: l) 1 = ok b.
Proof. exact (getitem_nth (a :: b :: l) 1 b eq_refl). Qed.

Lemma getitem_2 {A} (a b c : A) (l : list A) :
  getitem (a :: b :: c :: l) 2 = ok c.
Proof. exact (getitem_nth (a :: b :: c :: l) 2 c eq_refl). Qed.

(** The groups of a match of the timestamp line. *)
Lemma timestamp_line_groups (line : str) (m : list str) :
  re_match timestamp_line_re line = Some m ->
  exists g0 g1 g2, m = [g0; g1; g2]
    /\ matches stamp g1 [] /\ matches stamp g2 [].
Proof.
  intros H. apply re_match_sound in H.
  destruct H as (pre & rest & gs & _ & M & ->).
  unfold timestamp_line_re, cat, star in M.
  repeat match goal with
         | H : matches (Cat _ _) _ _ |- _ => inversion H; subst; clear H
         | H : matches (Grp _) _ _ |- _ => inversion H; subst; clear H
         | H : matches (Chr _) _ _ |- _ => inversion H; subst; clear H
         | H : matches (Rep _ _ _) _ _ |- _ => inversion H; subst; clear H
         end.
  repeat match goal with
         | H : matches stamp _ ?g |- _ =>
             pose proof (proj1 (stamp_shape _ _ H)); subst g
         end.
  simpl. eexists _, _, _. repeat split; assumption.
Qed.

Lemma block_body_lines (l0 l1 : str) (rest : list str) :
  block_body (l0 :: l1 :: rest)
  = (index <- int (strip l0) ;;
     match re_match timestamp_line_re (strip l1) with
     | None => ok None
     | Some timestamp_match =>
         start_time <- getitem timestamp_match 1 ;;
         end_time <- getitem timestamp_match 2 ;;
         start <- timestamp_to_ms start_time ;;
         end_ <- timestamp_to_ms end_time ;;
         ok (Some (mkSubtitle index start end_
                     (re_sub tag_re (strip (join LF rest)))))
     end).
Proof.
  unfold block_body.
  rewrite getitem_0, getitem_1.
  reflexivity.
Qed.

(** A block that is not well formed is skipped. *)
Lemma parse_block_malformed (block : str) :
  well_formed block = false -> parse_block block = None.
Proof.
  unfold well_formed, parse_block. intros H.
  destruct (strip block) as [|c s] eqn:Es; [reflexivity|].
  destruct (split LF (c :: s)) as [|l0 [|l1 [|l2 rest]]] eqn:El;
    try reflexivity.
  change (length (l0 :: l1 :: l2 :: rest) <? 3)%nat with false.
  cbv beta iota. rewrite block_body_lines.
  change (3 <=? length (l0 :: l1 :: l2 :: rest))%nat with true in H.
  change (nth 0 (l0 :: l1 :: l2 :: rest) []) with l0 in H.
  change (nth 1 (l0 :: l1 :: l2 :: rest) []) with l1 in H.
  destruct (int (strip l0)) as [e|idx]; [reflexivity|].
  destruct (re_match timestamp_line_re (strip l1)); [discriminate|].
  reflexivity.
Qed.

(** A well-formed block yields a cue: its index, the two timestamps in
    milliseconds, and the remaining lines without their tags. *)
Lemma parse_block_well_formed (block : str) :
  well_formed block = true ->
  exists idx g0 g1 g2 s e,
    int (strip (nth 0 (split LF (strip block)) [])) = ok idx
    /\ re_match timestamp_line_re (strip (nth 1 (split LF (strip block)) []))
       = Some [g0; g1; g2]
    /\ timestamp_to_ms g1 = ok s /\ timestamp_to_ms g2 = ok e
    /\ parse_block block
       = Some (mkSubtitle idx s e
                 (re_sub tag_re
                    (strip (join LF (skipn 2 (split LF (strip block))))))).
Proof.
  unfold well_formed, parse_block. intros H.
  destruct (split LF (strip block)) as [|l0 [|l1 [|l2 rest]]] eqn:El;
    try discriminate.
  destruct (strip block) as [|c s] eqn:Es; [discriminate|].
  change (length (l0 :: l1 :: l2 :: rest) <? 3)%nat with false.
  cbv beta iota. rewrite block_body_lines.
  change (3 <=? length (l0 :: l1 :: l2 :: rest))%nat with true in H.
  change (nth 0 (l0 :: l1 :: l2 :: rest) []) with l0 in *.
  change (nth 1 (l0 :: l1 :: l2 :: rest) []) with l1 in *.
  change (skipn 2 (l0 :: l1 :: l2 :: rest)) with (l2 :: rest).
  destruct (int (strip l0)) as [e|idx]; [discriminate|].
  destruct (re_match timestamp_line_re (strip l1)) as [m|] eqn:Em;
    [|discriminate].
  destruct (timestamp_line_groups _ _ Em) as (g0 & g1 & g2 & -> & M1 & M2).
  destruct (timestamp_to_ms_stamp _ _ M1) as [s1 H1].
  destruct (timestamp_to_ms_stamp _ _ M2) as [s2 H2].
  exists idx, g0, g1, g2, s1, s2.
  repeat split; try assumption.
  unfold bind at 1.
  rewrite getitem_1, getitem_2.
  unfold bind, ok. rewrite H1, H2. reflexivity.
Qed.

Lemma parse_block_iff (block : str) :
  parse_block block = None <-> well_formed block = false.
Proof.
  split; [|apply parse_block_malformed].
  destruct (well_formed block) eqn:E; [|reflexivity].
  destruct (parse_block_well_formed block E)
    as (? & ? & ? & ? & ? & ? & _ & _ & _ & _ & ->).
  discriminate.
Qed.

(** The loop appends the cue of each block that has one, in order. *)
Lemma collect_flat_map (blocks : list str) :
  collect blocks
  = flat_map (fun b => match parse_block b with
                       | Some cue => [cue]
                       | None => []
                       end) blocks.
Proof.
  unfold collect.
  assert (G : forall acc,
             fold_left
               (fun subtitles block =>
                  match parse_block block with
                  | Some subtitle => subtitles ++ [subtitle]
                  | None => subtitles
                  end) blocks acc
             = acc ++ flat_map (fun b => match parse_block b with
                                         | Some cue => [cue]
                                         | None => []
                                         end) blocks).
  { induction blocks as [|b bs IH]; intros acc; simpl.
    - symmetry. apply app_nil_r.
    - rewrite IH. destruct (parse_block b); simpl.
      + rewrite <- app_assoc. reflexivity.
      + reflexivity. }
  apply (G []).
Qed.

Lemma collect_in (blocks : list str) (cue : Subtitle) :
  In cue (collect blocks)
  <-> exists b, In b blocks /\ well_formed b = true
                /\ parse_block b = Some cue.
Proof.
  rewrite collect_flat_map, in_flat_map. split.
  - intros (b & Hb & Hc). exists b.
    destruct (parse_block b) as [c|] eqn:E; [|contradiction].
    destruct Hc as [->|[]]. repeat split; try assumption.
    destruct (well_formed b) eqn:W; [reflexivity|].
    rewrite parse_block_malformed in E by assumption. discriminate.
  - intros (b & Hb & _ & Hc). exists b. rewrite Hc.
    split; [assumption | left; reflexivity].
Qed.

Lemma collect_length (blocks : list str) :
  length (collect blocks) = length (filter well_formed blocks).
Proof.
  rewrite collect_flat_map.
  induction blocks as [|b bs IH]; simpl; [reflexivity|].
  rewrite length_app, IH.
  destruct (well_formed b) eqn:W.
  - destruct (parse_block_well_formed b W)
      as (? & ? & ? & ? & ? & ? & _ & _ & _ & _ & ->).
    reflexivity.
  - rewrite parse_block_malformed by assumption. reflexivity.
Qed.

End ParserFacts.

Module TagFacts.
Import Py Re SrtParser ReSpec ReFacts TagSpec.

Lemma match_len_sound (r : regex) (s : str) (n : nat) :
  match_len r s = Some n ->
  exists pre rest gs, s = pre ++ rest /\ matches r pre gs /\ n = length pre.
Proof.
  unfold match_len. intros H. apply run_sound in H.
  destruct H as (pre & rest & gs & -> & M & H).
  inversion H. exists pre, rest, gs. repeat split; [exact M|].
  rewrite length_app. lia.
Qed.

Lemma match_len_complete (r : regex) (pre rest : str) (gs : list str) :
  matches r pre gs -> match_len r (pre ++ rest) <> None.
Proof.
  intros M. unfold match_len. eapply run_complete; [exact M | discriminate].
Qed.

Lemma matches_tag (name : str) :
  tag_name name -> matches tag_re (tag name) [].
Proof.
  intros [Hne Hall]. unfold tag_re, cat, plus, tag.
  change (chr "<" :: name ++ [chr ">"]) with ([chr "<"] ++ name ++ [chr ">"]).
  change (@nil str) with (@nil str ++ [] ++ []).
  repeat first [apply matches_cat | apply matches_chr | apply matches_rep];
    try reflexivity; try assumption; simpl.
  all: try exact I.
  destruct name; [contradiction | simpl; lia].
Qed.

Lemma matches_tag_inv (s : str) (gs : list str) :
  matches tag_re s gs -> exists name, tag_name name /\ s = tag name.
Proof.
  unfold tag_re, cat, plus. intros M.
  repeat match goal with
         | H : matches (Cat _ _) _ _ |- _ => inversion H; subst; clear H
         | H : matches (Chr _) _ _ |- _ => inversion H; subst; clear H
         | H : matches (Rep _ _ _) _ _ |- _ => inversion H; subst; clear H
         end.
  repeat match goal with
         | H : ch _ ?c = true |- _ =>
             unfold ch in H; apply N.eqb_eq in H; subst c
         end.
  match goal with
  | H : forallb (not_ch ">") ?n = true |- _ => exists n
  end.
  split; [|reflexivity]. split; [|assumption].
  intros ->. simpl in *. lia.
Qed.

(** Two tags at the start of the same string are the same tag. *)
Lemma tag_prefix_unique (n1 n2 r1 r2 : str) :
  forallb (not_ch ">") n1 = true -> forallb (not_ch ">") n2 = true ->
  n1 ++ chr ">" :: r1 = n2 ++ chr ">" :: r2 -> n1 = n2 /\ r1 = r2.
Proof.
  revert n2. induction n1 as [|c n1 IH]; intros [|d n2] H1 H2 E; simpl in *.
  - injection E as ->. split; reflexivity.
  - injection E as <- _. discriminate.
  - injection E as -> _. discriminate.
  - injection E as -> E.
    apply andb_true_iff in H1, H2.
    destruct (IH n2 (proj2 H1) (proj2 H2) E) as [-> ->].
    split; reflexivity.
Qed.

(** At a tag, the pattern matches exactly the tag. *)
Lemma match_len_tag (name rest : str) :
  tag_name name ->
  match_len tag_re (tag name ++ rest) = Some (S (length name + 1)).
Proof.
  intros Hn.
  destruct (match_len tag_re (tag name ++ rest)) as [n|] eqn:E.
  - apply match_len_sound in E.
    destruct E as (pre & rest' & gs & E & M & ->).
    apply matches_tag_inv in M. destruct M as (name' & Hn' & ->).
    unfold tag in E. simpl in E. inversion E as [E'].
    rewrite <- !app_assoc in E'. simpl in E'.
    destruct (tag_prefix_unique _ _ _ _ (proj2 Hn) (proj2 Hn') E') as [<- _].
    unfold tag. simpl. rewrite length_app. reflexivity.
  - exfalso. revert E. eapply match_len_complete. apply matches_tag, Hn.
Qed.

(** Elsewhere it matches nothing. *)
Lemma match_len_no_tag (s : str) (n : nat) :
  match_len tag_re s = Some n ->
  exists name rest, tag_name name /\ s = tag name ++ rest
                    /\ n = S (length name + 1).
Proof.
  intros E. apply match_len_sound in E.
  destruct E as (pre & rest & gs & -> & M & ->).
  apply matches_tag_inv in M. destruct M as (name & Hn & ->).
  exists name, rest. repeat split; try apply Hn.
  unfold tag. simpl. rewrite length_app. reflexivity.
Qed.

Lemma match_len_other (c : char) (s : str) :
  c <> chr "<" -> match_len tag_re (c :: s) = None.
Proof.
  intros Hc. destruct (match_len tag_re (c :: s)) as [n|] eqn:E;
    [|reflexivity].
  apply match_len_no_tag in E. destruct E as (name & rest & _ & E & _).
  inversion E. contradiction.
Qed.

Lemma sub_go_skip (r : regex) (pre rest : str) :
  sub_go r (length pre) (pre ++ rest) = sub_go r O rest.
Proof. induction pre as [|c pre IH]; simpl; [reflexivity | exact IH]. Qed.

(** A tag at the start of the text is removed. *)
Lemma re_sub_tag (name rest : str) :
  tag_name name ->
  re_sub tag_re (tag name ++ rest) = re_sub tag_re rest.
Proof.
  intros Hn. unfold re_sub.
  pose proof (match_len_tag name rest Hn) as E.
  unfold tag in *. simpl app in *.
  cbn [sub_go]. rewrite E.
  rewrite <- app_assoc.
  replace (length name + 1)%nat with (length (name ++ [chr ">"]))
    by (rewrite length_app; reflexivity).
  rewrite app_assoc. apply sub_go_skip.
Qed.

(** A character other than ["<"] is kept. *)
Lemma re_sub_other (c : char) (s : str) :
  c <> chr "<" -> re_sub tag_re (c :: s) = c :: re_sub tag_re s.
Proof.
  intros Hc. unfold re_sub. cbn [sub_go].
  rewrite (match_len_other c s Hc). reflexivity.
Qed.

Lemma re_sub_plain (body rest : str) :
  ~ In (chr "<") body ->
  re_sub tag_re (body ++ rest) = body ++ re_sub tag_re rest.
Proof.
  induction body as [|c body IH]; intros H; [reflexivity|].
  simpl app. rewrite re_sub_other.
  - rewrite IH; [reflexivity|]. intros Hin. apply H. right. exact Hin.
  - intros ->. apply H. left. reflexivity.
Qed.

Lemma sub_go_in (r : regex) (s : str) :
  forall skip x, In x (sub_go r skip s) -> In x s.
Proof.
  induction s as [|c s IH]; intros skip x H; simpl in H; [exact H|].
  destruct skip as [|n].
  - destruct (match_len r (c :: s)) as [[|n]|].
    + destruct H as [<-|H]; [left; reflexivity | right; eauto].
    + right; eauto.
    + destruct H as [<-|H]; [left; reflexivity | right; eauto].
  - right; eauto.
Qed.

(** A string with a [">"] splits at the first one. *)
Lemma first_gt (s : str) :
  In (chr ">") s ->
  exists name rest, s = name ++ chr ">" :: rest
                    /\ forallb (not_ch ">") name = true.
Proof.
  induction s as [|c s IH]; intros H; [contradiction|].
  destruct (N.eqb_spec c (chr ">")) as [->|Hc].
  - exists [], s. split; reflexivity.
  - destruct H as [H|H]; [congruence|].
    destruct (IH H) as (name & rest & -> & Hall).
    exists (c :: name), rest. split; [reflexivity|].
    simpl. rewrite Hall. unfold not_ch.
    destruct (N.eqb_spec c (chr ">")); [contradiction | reflexivity].
Qed.

Lemma tag_app (name rest : str) :
  tag name ++ rest = chr "<" :: name ++ chr ">" :: rest.
Proof. unfold tag. cbn [app]. rewrite <- app_assoc. reflexivity. Qed.

(** No tag is left in the result. *)
Lemma sub_go_no_tag (s : str) :
  forall skip, ~ has_tag (sub_go tag_re skip s).
Proof.
  induction s as [|c s IH]; intros skip.
  - cbn [sub_go]. intros (pre & name & post & _ & E).
    rewrite tag_app in E. destruct pre; discriminate.
  - cbn [sub_go]. destruct skip as [|n]; [|apply IH].
    destruct (match_len tag_re (c :: s)) as [[|n]|] eqn:E.
    + apply match_len_no_tag in E.
      destruct E as (? & ? & _ & _ & ?). discriminate.
    + apply IH.
    + intros (pre & name & post & Hn & Eo).
      rewrite tag_app in Eo.
      destruct pre as [|p pre]; cbn [app] in Eo; injection Eo as Ec Eo.
      * (* a tag would start at [c] *)
        subst c.
        assert (Hin : In (chr ">") s).
        { apply (sub_go_in tag_re s O). rewrite Eo.
          apply in_or_app. right. left. reflexivity. }
        destruct (first_gt s Hin) as (name' & rest' & -> & Hall').
        destruct name' as [|d name'].
        -- (* ["<>"]: the [">"] is kept, so no name follows the ["<"] *)
           cbn [app] in Eo.
           change (sub_go tag_re O (chr ">" :: rest'))
             with (re_sub tag_re (chr ">" :: rest')) in Eo.
           rewrite re_sub_other in Eo by discriminate.
           destruct Hn as [Hne Hall].
           destruct name as [|e name]; [contradiction|].
           cbn [app] in Eo. injection Eo as <- _.
           cbn [forallb] in Hall. discriminate.
        -- (* a tag of the input starts at [c]: it would have matched *)
           rewrite <- tag_app, match_len_tag in E; [discriminate|].
           split; [discriminate | exact Hall'].
      * (* the tag lies in the rest *)
        apply (IH O). exists pre, name, post.
        split; [assumption|]. rewrite tag_app. exact Eo.
Qed.

Lemma re_sub_no_tag (s : str) : ~ has_tag (re_sub tag_re s).
Proof. apply sub_go_no_tag. Qed.

(** [<name>body</name>] and [<name/>] lose their tags, whatever the
    name. *)
Lemma re_sub_element (name body : str) :
  tag_name name -> ~ In (chr "<") body ->
  re_sub tag_re (tag name ++ body ++ tag (chr "/" :: name)) = body.
Proof.
  intros Hn Hb.
  rewrite re_sub_tag by assumption.
  rewrite re_sub_plain by assumption.
  rewrite <- (app_nil_r (tag (chr "/" :: name))).
  rewrite re_sub_tag; [apply app_nil_r|].
  split; [discriminate|]. cbn [forallb]. rewrite (proj2 Hn). reflexivity.
Qed.

Lemma re_sub_empty_element (name : str) :
  forallb (not_ch ">") name = true ->
  re_sub tag_re (tag (name ++ [chr "/"])) = [].
Proof.
  intros Hn.
  rewrite <- (app_nil_r (tag _)).
  rewrite re_sub_tag; [reflexivity|].
  split; [destruct name; discriminate|].
  rewrite forallb_app, Hn. reflexivity.
Qed.

End TagFacts.

(* ===================================================================== *)
(** * Facts about binary64 arithmetic *)
(* ===================================================================== *)

Module FloatFacts.
Import Py Float FloatSpec.

Lemma fexp_eq (e : Z) : fexp 53 1024 e = Z.max (e - 53) (-1074).
Proof. reflexivity. Qed.

Lemma fexp_mono (a b : Z) : a <= b -> fexp 53 1024 a <= fexp 53 1024 b.
Proof. rewrite !fexp_eq. lia. Qed.

Lemma digits2_size (p : positive) : digits2_pos p = Pos.size p.
Proof. induction p; simpl; congruence. Qed.

Lemma Zdigits2_log2 (m : Z) : 0 < m -> Zdigits2 m = Z.log2 m + 1.
Proof.
  destruct m as [|p|p]; try lia. intros _. simpl Zdigits2.
  rewrite digits2_size.
  destruct p; simpl; rewrite ?Pos2Z.inj_succ; lia.
Qed.

Lemma Zdigits2_bounds (m : Z) :
  0 < m -> 2 ^ (Zdigits2 m - 1) <= m < 2 ^ Zdigits2 m.
Proof.
  intros H. rewrite Zdigits2_log2 by assumption.
  replace (Z.log2 m + 1 - 1) with (Z.log2 m) by lia.
  replace (Z.log2 m + 1) with (Z.succ (Z.log2 m)) by lia.
  apply Z.log2_spec. assumption.
Qed.

Lemma Zdigits2_nonneg (m : Z) : 0 <= Zdigits2 m.
Proof. destruct m; simpl; lia. Qed.

Lemma Zdigits2_le (m k : Z) : 0 <= m -> 0 <= k -> m < 2 ^ k -> Zdigits2 m <= k.
Proof.
  intros Hm Hk H. destruct (Z.eq_dec m 0) as [->|Hz]; [simpl; lia|].
  destruct (Zdigits2_bounds m) as [Hlo _]; [lia|].
  assert (2 ^ (Zdigits2 m - 1) < 2 ^ k) by lia.
  apply Z.pow_lt_mono_r_iff in H0; lia.
Qed.

Lemma Zdigits2_shift (m j : Z) :
  0 < m -> 0 <= j -> Zdigits2 (m * 2 ^ j) = Zdigits2 m + j.
Proof.
  intros Hm Hj.
  assert (0 < 2 ^ j) by (apply Z.pow_pos_nonneg; lia).
  rewrite !Zdigits2_log2 by nia.
  rewrite Z.log2_mul_pow2 by lia. lia.
Qed.

(** ** Shifting right *)

Lemma shr_1_m (r : shr_record) :
  0 <= shr_m r -> shr_m (shr_1 r) = shr_m r / 2.
Proof.
  destruct r as [m r s]. cbn [shr_m]. intros H.
  destruct m as [|[p|p|]|p]; cbn [shr_1 shr_m]; try lia.
  - reflexivity.
  - rewrite Pos2Z.inj_xI. apply Z.div_unique with 1; lia.
  - rewrite Pos2Z.inj_xO. apply Z.div_unique with 0; lia.
  - reflexivity.
Qed.

Lemma iter_pos_shr (p : positive) :
  forall r, 0 <= shr_m r ->
    shr_m (iter_pos shr_1 p r) = shr_m r / 2 ^ Zpos p.
Proof.
  assert (Hnn : forall r, 0 <= shr_m r -> 0 <= shr_m (shr_1 r)).
  { intros r H. rewrite shr_1_m by assumption.
    apply Z.div_pos; lia. }
  induction p as [p IH|p IH|]; intros r H; simpl iter_pos.
  - assert (H1 : 0 <= shr_m (iter_pos shr_1 p (shr_1 r))).
    { rewrite IH by auto. apply Z.div_pos; [auto|].
      apply Z.pow_pos_nonneg; lia. }
    rewrite IH by assumption. rewrite IH by auto.
    rewrite shr_1_m by assumption.
    assert (0 < 2 ^ Zpos p) by (apply Z.pow_pos_nonneg; lia).
    rewrite !Z.div_div by lia.
    f_equal. replace (Z.pos p~1) with (1 + Z.pos p + Z.pos p) by lia.
    rewrite !Z.pow_add_r by lia. rewrite Z.pow_1_r. ring.
  - assert (H1 : 0 <= shr_m (iter_pos shr_1 p r)).
    { rewrite IH by auto. apply Z.div_pos; [auto|].
      apply Z.pow_pos_nonneg; lia. }
    rewrite IH by assumption. rewrite IH by auto.
    assert (0 < 2 ^ Zpos p) by (apply Z.pow_pos_nonneg; lia).
    rewrite !Z.div_div by lia.
    f_equal. replace (Z.pos p~0) with (Z.pos p + Z.pos p) by lia.
    rewrite !Z.pow_add_r by lia. ring.
  - rewrite shr_1_m by assumption. reflexivity.
Qed.

Lemma shr_record_of_loc_m (m : Z) (l : location) :
  shr_m (shr_record_of_loc m l) = m.
Proof. destruct l as [|[]]; reflexivity. Qed.

Lemma loc_of_shr_record_of_loc (m : Z) (l : location) :
  loc_of_shr_record (shr_record_of_loc m l) = l.
Proof. destruct l as [|[]]; reflexivity. Qed.

(** [shr_fexp] brings the exponent up to the one of the format, dropping
    the low bits of the mantissa. *)
Lemma shr_fexp_spec (m e : Z) (l : location) :
  0 <= m ->
  let e' := Z.max e (fexp 53 1024 (Zdigits2 m + e)) in
  snd (shr_fexp 53 1024 m e l) = e'
  /\ shr_m (fst (shr_fexp 53 1024 m e l)) = m / 2 ^ (e' - e)
  /\ (fexp 53 1024 (Zdigits2 m + e) <= e ->
      loc_of_shr_record (fst (shr_fexp 53 1024 m e l)) = l).
Proof.
  intros Hm e'. unfold shr_fexp, shr.
  destruct (fexp 53 1024 (Zdigits2 m + e) - e) as [|p|p] eqn:En;
    cbn [fst snd].
  - replace e' with e by lia. rewrite Z.sub_diag, Z.pow_0_r, Z.div_1_r.
    split; [reflexivity|]. split; [apply shr_record_of_loc_m|].
    intros _. apply loc_of_shr_record_of_loc.
  - replace e' with (e + Z.pos p) by lia.
    split; [reflexivity|]. split; [|lia].
    rewrite iter_pos_shr by (rewrite shr_record_of_loc_m; exact Hm).
    rewrite shr_record_of_loc_m. f_equal. f_equal. lia.
  - replace e' with e by lia. rewrite Z.sub_diag, Z.pow_0_r, Z.div_1_r.
    split; [reflexivity|]. split; [apply shr_record_of_loc_m|].
    intros _. apply loc_of_shr_record_of_loc.
Qed.

Lemma round_nearest_even_cases (m : Z) (l : location) :
  (round_nearest_even m l = m \/ round_nearest_even m l = m + 1)
  /\ (l = loc_Exact -> round_nearest_even m l = m).
Proof.
  destruct l as [|[]]; simpl; try (destruct (Z.even m));
    (split; [auto | try discriminate; auto]).
Qed.

Lemma pow2_pos (n : Z) : 0 <= n -> 0 < 2 ^ n.
Proof. intros H. apply Z.pow_pos_nonneg; lia. Qed.

Lemma pow2_split (a b : Z) : 0 <= a -> 0 <= b -> 2 ^ (a + b) = 2 ^ a * 2 ^ b.
Proof. intros. apply Z.pow_add_r; assumption. Qed.

(** The rounding at the heart of every operation.  The mantissa [mx]
    and exponent [ex] come with a location [lx] of the exact value in the
    interval from [mx] to [mx + 1]; the result is a float whose
    magnitude is at most one unit in the last place away from [mx] at
    exponent [ex], and is that number when nothing has to be rounded. *)
Lemma binary_round_aux_spec (s : bool) (mx ex : Z) (lx : location) (N : Z) :
  0 <= mx -> - N <= ex -> 1074 <= N ->
  let e1 := Z.max ex (fexp 53 1024 (Zdigits2 mx + ex)) in
  e1 <= 970 ->
  let r := binary_round_aux 53 1024 s mx ex lx in
  fin r /\ signed s r
  /\ mx * 2 ^ (ex + N) - 2 ^ (e1 + N) < mag N r
     <= mx * 2 ^ (ex + N) + 2 ^ (e1 + N)
  /\ (lx = loc_Exact -> fexp 53 1024 (Zdigits2 mx + ex) <= ex ->
      mag N r = mx * 2 ^ (ex + N)).
Proof.
  intros Hmx HN HN' e1 He1 r.
  assert (He1min : -1074 <= e1) by (unfold e1; rewrite fexp_eq; lia).
  unfold r, binary_round_aux.
  destruct (shr_fexp_spec mx ex lx Hmx) as (Hs1 & Hm1 & Hl1).
  fold e1 in Hs1, Hm1.
  destruct (shr_fexp 53 1024 mx ex lx) as [mrs' e'] eqn:E1.
  cbn [fst snd] in Hs1, Hm1, Hl1. subst e'.
  set (m1 := shr_m mrs') in *.
  set (k := e1 - ex) in *.
  assert (Hk : 0 <= k) by (unfold k, e1; lia).
  assert (HW : 0 < 2 ^ k) by (apply pow2_pos; exact Hk).
  assert (Hm1nn : 0 <= m1) by (rewrite Hm1; apply Z.div_pos; lia).
  (* the mantissa after the shift has at most 53 bits *)
  assert (Hm1lt : m1 < 2 ^ 53).
  { rewrite Hm1. destruct (Z.eq_dec mx 0) as [->|Hz].
    - rewrite Z.div_0_l by lia. reflexivity.
    - apply Z.div_lt_upper_bound; [exact HW|].
      destruct (Zdigits2_bounds mx) as [_ Hhi]; [lia|].
      eapply Z.lt_le_trans; [exact Hhi|].
      rewrite <- pow2_split by lia.
      apply Z.pow_le_mono_r; [lia|].
      unfold k, e1. rewrite fexp_eq. lia. }
  destruct (round_nearest_even_cases m1 (loc_of_shr_record mrs'))
    as [Hm2 Hm2ex].
  set (m2 := round_nearest_even m1 (loc_of_shr_record mrs')) in *.
  assert (Hm2nn : 0 <= m2) by lia.
  destruct (shr_fexp_spec m2 e1 loc_Exact Hm2nn) as (Hs2 & Hm3 & _).
  destruct (shr_fexp 53 1024 m2 e1 loc_Exact) as [mrs'' e''] eqn:E2.
  cbn [fst snd] in Hs2, Hm3. subst e''.
  set (e3 := Z.max e1 (fexp 53 1024 (Zdigits2 m2 + e1))) in *.
  set (m3 := shr_m mrs'') in *.
  (* the second shift loses nothing *)
  assert (H3 : e1 <= e3 <= e1 + 1 /\ m3 * 2 ^ (e3 - e1) = m2).
  { destruct (Z.eq_dec m2 (2 ^ 53)) as [E|NE].
    - assert (Ed : Zdigits2 m2 = 54) by (rewrite E; reflexivity).
      assert (Ee : e3 = e1 + 1)
        by (unfold e3; rewrite Ed, fexp_eq; lia).
      split; [lia|]. rewrite Hm3, Ee, E.
      replace (e1 + 1 - e1) with 1 by lia. reflexivity.
    - assert (Hd : Zdigits2 m2 <= 53)
        by (apply Zdigits2_le; lia).
      assert (Ee : e3 = e1) by (unfold e3; rewrite fexp_eq; lia).
      split; [lia|]. rewrite Hm3, Ee, Z.sub_diag, Z.pow_0_r, Z.div_1_r.
      lia. }
  destruct H3 as (He3 & Em3).
  assert (Hm3nn : 0 <= m3).
  { rewrite Hm3. apply Z.div_pos; [lia|]. apply pow2_pos. lia. }
  (* the value before rounding, between two neighbours *)
  assert (HU : 0 < 2 ^ (ex + N)) by (apply pow2_pos; lia).
  assert (Hsplit : 2 ^ (e1 + N) = 2 ^ k * 2 ^ (ex + N)).
  { rewrite <- pow2_split by lia. f_equal. unfold k. lia. }
  assert (Hfloor : m1 * 2 ^ k <= mx < (m1 + 1) * 2 ^ k).
  { rewrite Hm1.
    pose proof (Z.mul_div_le mx (2 ^ k) HW).
    pose proof (Z.mul_succ_div_gt mx (2 ^ k) HW). lia. }
  assert (Hmag : forall m, Z.pos m = m3 ->
             mag N (S754_finite s m e3) = m2 * 2 ^ (e1 + N)).
  { intros m Em. cbn [mag]. rewrite Em, <- Em3.
    replace (e3 + N) with ((e3 - e1) + (e1 + N)) by lia.
    rewrite pow2_split by lia. ring. }
  assert (Hbound : mx * 2 ^ (ex + N) - 2 ^ (e1 + N) < m2 * 2 ^ (e1 + N)
                   <= mx * 2 ^ (ex + N) + 2 ^ (e1 + N)).
  { rewrite Hsplit. nia. }
  assert (Hexact : lx = loc_Exact ->
                   fexp 53 1024 (Zdigits2 mx + ex) <= ex ->
                   m2 * 2 ^ (e1 + N) = mx * 2 ^ (ex + N)).
  { intros El Hf. rewrite (Hl1 Hf) in Hm2ex. rewrite (Hm2ex El).
    assert (Ek : k = 0) by (unfold k, e1; lia).
    rewrite Hsplit, Ek, Z.pow_0_r.
    rewrite Ek, Z.pow_0_r, Z.div_1_r in Hm1. rewrite Hm1. ring. }
  destruct m3 as [|m|m] eqn:Em; [| |lia].
  - (* the result is a zero *)
    cbn [fin signed mag]. split; [exact I|]. split; [exact I|].
    assert (m2 = 0) by lia.
    split; [|intros El Hf; rewrite <- (Hexact El Hf)]; nia.
  - assert (Hle : (e3 <=? 1024 - 53) = true) by (apply Z.leb_le; lia).
    rewrite Hle. rewrite (Hmag m eq_refl).
    cbn [fin signed]. split; [lia|]. split; [reflexivity|].
    split; [exact Hbound | exact Hexact].
Qed.

Lemma iter_xO (d : positive) (m : positive) :
  Z.pos (Pos.iter xO m d) = Z.pos m * 2 ^ Z.pos d.
Proof.
  induction d as [|d IHd] using Pos.peano_ind.
  - simpl. lia.
  - rewrite Pos.iter_succ, Pos2Z.inj_xO, IHd, Pos2Z.inj_succ.
    rewrite Z.pow_succ_r by lia. ring.
Qed.

Lemma shl_align_spec (mx : positive) (ex ex' : Z) :
  snd (shl_align mx ex ex') = Z.min ex ex'
  /\ Z.pos (fst (shl_align mx ex ex'))
     = Z.pos mx * 2 ^ (ex - Z.min ex ex').
Proof.
  unfold shl_align. destruct (ex' - ex) as [|d|d] eqn:E; cbn [fst snd].
  - replace (Z.min ex ex') with ex by lia.
    rewrite Z.sub_diag, Z.pow_0_r. lia.
  - replace (Z.min ex ex') with ex by lia.
    rewrite Z.sub_diag, Z.pow_0_r. lia.
  - replace (Z.min ex ex') with ex' by lia. split; [reflexivity|].
    rewrite iter_xO. f_equal. f_equal. lia.
Qed.

(** Rounding of [mx * 2 ^ ex]. *)
Lemma binary_round_spec (s : bool) (mx : positive) (ex N : Z) :
  - N <= ex -> 1074 <= N ->
  let E := fexp 53 1024 (Zdigits2 (Z.pos mx) + ex) in
  E <= 970 ->
  let r := binary_round 53 1024 s mx ex in
  fin r /\ signed s r
  /\ Z.pos mx * 2 ^ (ex + N) - 2 ^ (E + N) < mag N r
     <= Z.pos mx * 2 ^ (ex + N) + 2 ^ (E + N)
  /\ (E <= ex -> mag N r = Z.pos mx * 2 ^ (ex + N)).
Proof.
  intros HN HN' E HE r. unfold r, binary_round.
  change (Z.pos (digits2_pos mx)) with (Zdigits2 (Z.pos mx)). fold E.
  destruct (shl_align_spec mx ex E) as [He Hm].
  destruct (shl_align mx ex E) as [mz ez]. cbn [fst snd] in He, Hm.
  assert (HEmin : -1074 <= E) by (unfold E; rewrite fexp_eq; lia).
  assert (Hd : Zdigits2 (Z.pos mz) + ez = Zdigits2 (Z.pos mx) + ex).
  { rewrite Hm, Zdigits2_shift by lia. lia. }
  assert (Hv : Z.pos mz * 2 ^ (ez + N) = Z.pos mx * 2 ^ (ex + N)).
  { rewrite Hm. rewrite <- Z.mul_assoc, <- pow2_split by lia.
    f_equal. f_equal. lia. }
  pose proof (binary_round_aux_spec s (Z.pos mz) ez loc_Exact N) as H.
  cbv zeta in H. rewrite Hd in H. fold E in H.
  replace (Z.max ez E) with E in H by lia. rewrite Hv in H.
  destruct H as (Hf & Hs & Hb & Hx); try lia.
  split; [exact Hf|]. split; [exact Hs|]. split; [exact Hb|].
  intros Hle. apply Hx; [reflexivity | lia].
Qed.

Lemma sc_mag (N : Z) (x : spec_float) (s : bool) :
  signed s x -> sc N x = cond_Zopp s (mag N x).
Proof.
  destruct x as [s'|s'| |s' m e]; cbn [signed sc mag]; try contradiction;
    intros H; subst; destruct s; reflexivity.
Qed.

Lemma mag_nonneg (N : Z) (x : spec_float) : 0 <= mag N x.
Proof.
  destruct x; cbn [mag]; lia.
Qed.

(** Rounding of the integer [m] at exponent [e]. *)
Lemma binary_normalize_spec (m e : Z) (k N : Z) :
  - N <= e -> 1074 <= N -> k <= 1023 ->
  Z.abs m * 2 ^ (e + N) < 2 ^ (k + N) ->
  let r := binary_normalize 53 1024 m e false in
  fin r
  /\ Z.abs (sc N r - m * 2 ^ (e + N)) <= 2 ^ (fexp 53 1024 k + N)
  /\ (fexp 53 1024 (Zdigits2 m + e) <= e -> sc N r = m * 2 ^ (e + N)).
Proof.
  intros HN HN' Hk Hlt r.
  assert (HU : 0 < 2 ^ (e + N)) by (apply pow2_pos; lia).
  destruct m as [|p|p].
  - simpl. split; [exact I|]. split; [|reflexivity].
    assert (0 < 2 ^ (fexp 53 1024 k + N))
      by (apply pow2_pos; rewrite fexp_eq; lia).
    lia.
  - assert (Hd : Zdigits2 (Z.pos p) + e <= k).
    { assert (Z.pos p < 2 ^ (k - e)).
      { destruct (Z.le_gt_cases (k - e) 0) as [Hneg|Hpos].
        - exfalso. assert (2 ^ (k + N) <= 2 ^ (e + N))
            by (apply Z.pow_le_mono_r; lia).
          simpl Z.abs in Hlt. nia.
        - replace (k + N) with ((k - e) + (e + N)) in Hlt by lia.
          rewrite (pow2_split (k - e) (e + N)) in Hlt by lia.
          simpl Z.abs in Hlt. nia. }
      assert (0 <= k - e).
      { destruct (Z.le_gt_cases 0 (k - e)); [assumption|].
        rewrite Z.pow_neg_r in H by lia. lia. }
      pose proof (Zdigits2_le (Z.pos p) (k - e)). lia. }
    pose proof (fexp_mono _ _ Hd) as HE.
    destruct (binary_round_spec false p e N) as (Hf & Hs & Hb & Hx);
      try lia.
    { rewrite fexp_eq in *. lia. }
    unfold r. cbn [binary_normalize].
    rewrite (sc_mag N _ false Hs). cbn [cond_Zopp].
    assert (2 ^ (fexp 53 1024 (Zdigits2 (Z.pos p) + e) + N)
            <= 2 ^ (fexp 53 1024 k + N))
      by (apply Z.pow_le_mono_r; lia).
    split; [exact Hf|]. split; [lia | exact Hx].
  - assert (Hd : Zdigits2 (Z.pos p) + e <= k).
    { assert (Z.pos p < 2 ^ (k - e)).
      { destruct (Z.le_gt_cases (k - e) 0) as [Hneg|Hpos].
        - exfalso. assert (2 ^ (k + N) <= 2 ^ (e + N))
            by (apply Z.pow_le_mono_r; lia).
          simpl Z.abs in Hlt. nia.
        - replace (k + N) with ((k - e) + (e + N)) in Hlt by lia.
          rewrite (pow2_split (k - e) (e + N)) in Hlt by lia.
          simpl Z.abs in Hlt. nia. }
      assert (0 <= k - e).
      { destruct (Z.le_gt_cases 0 (k - e)); [assumption|].
        rewrite Z.pow_neg_r in H by lia. lia. }
      pose proof (Zdigits2_le (Z.pos p) (k - e)). lia. }
    pose proof (fexp_mono _ _ Hd) as HE.
    destruct (binary_round_spec true p e N) as (Hf & Hs & Hb & Hx);
      try lia.
    { rewrite fexp_eq in *. lia. }
    unfold r. cbn [binary_normalize].
    rewrite (sc_mag N _ true Hs). cbn [cond_Zopp].
    assert (2 ^ (fexp 53 1024 (Zdigits2 (Z.pos p) + e) + N)
            <= 2 ^ (fexp 53 1024 k + N))
      by (apply Z.pow_le_mono_r; lia).
    change (Zdigits2 (Z.neg p)) with (Zdigits2 (Z.pos p)).
    split; [exact Hf|]. split; [lia|].
    intros Hle. rewrite (Hx Hle). lia.
Qed.

Lemma cond_Zopp_mul (s : bool) (a b : Z) :
  cond_Zopp s a * b = cond_Zopp s (a * b).
Proof. destruct s; simpl; ring. Qed.

Lemma aligned (s : bool) (mx : positive) (ex ez N : Z) :
  ez <= ex -> - N <= ez ->
  cond_Zopp s (Z.pos (fst (shl_align mx ex ez))) * 2 ^ (ez + N)
  = cond_Zopp s (Z.pos mx * 2 ^ (ex + N)).
Proof.
  intros H HN. destruct (shl_align_spec mx ex ez) as [_ Hm].
  rewrite Hm, cond_Zopp_mul. f_equal.
  replace (Z.min ex ez) with ez by lia.
  rewrite <- Z.mul_assoc, <- pow2_split by lia. f_equal. f_equal. lia.
Qed.

(** Subtraction: the exact difference, rounded. *)
Lemma SFsub_spec (x y : spec_float) (k : Z) :
  fin x -> fin y -> k <= 1023 ->
  Z.abs (sc 1074 x - sc 1074 y) < 2 ^ (k + 1074) ->
  fin (SFsub 53 1024 x y)
  /\ Z.abs (sc 1074 (SFsub 53 1024 x y) - (sc 1074 x - sc 1074 y))
     <= 2 ^ (fexp 53 1024 k + 1074).
Proof.
  intros Hx Hy Hk Hlt.
  assert (HP : 0 < 2 ^ (fexp 53 1024 k + 1074))
    by (apply pow2_pos; rewrite fexp_eq; lia).
  destruct x as [sx|sx| |sx mx ex], y as [sy|sy| |sy my ey];
    cbn [fin] in Hx, Hy; try contradiction.
  - cbn [SFsub]. split.
    + destruct sx, sy; exact I.
    + destruct sx, sy; cbn [sc]; lia.
  - cbn [SFsub fin]. split; [exact Hy|]. cbn [sc].
    destruct sy; cbn [negb cond_Zopp]; lia.
  - cbn [SFsub fin]. split; [exact Hx|]. cbn [sc]. lia.
  - cbn [SFsub].
    set (ez := Z.min ex ey).
    set (D := cond_Zopp sx (Z.pos (fst (shl_align mx ex ez)))
              - cond_Zopp sy (Z.pos (fst (shl_align my ey ez)))).
    assert (HD : D * 2 ^ (ez + 1074) = sc 1074 (S754_finite sx mx ex)
                                      - sc 1074 (S754_finite sy my ey)).
    { unfold D. rewrite Z.mul_sub_distr_r.
      rewrite !aligned by (unfold ez; lia). reflexivity. }
    destruct (binary_normalize_spec D ez k 1074) as (Hf & Hb & _);
      try (unfold ez; lia).
    { assert (0 <= 2 ^ (ez + 1074)) by (apply Z.pow_nonneg; lia).
      rewrite <- (Z.abs_eq (2 ^ (ez + 1074))) at 1 by assumption.
      rewrite <- Z.abs_mul, HD. exact Hlt. }
    split; [exact Hf|]. rewrite <- HD. exact Hb.
Qed.

(** A number below [2 ^ k] has its last bit below [k]. *)
Lemma digits_bound (m e k N : Z) :
  0 < m -> - N <= e -> m * 2 ^ (e + N) < 2 ^ (k + N) ->
  Zdigits2 m + e <= k.
Proof.
  intros Hm HN Hlt.
  assert (HU : 0 < 2 ^ (e + N)) by (apply pow2_pos; lia).
  assert (Hke : 0 < k - e).
  { destruct (Z.le_gt_cases (k - e) 0) as [Hneg|Hpos]; [|exact Hpos].
    exfalso. assert (2 ^ (k + N) <= 2 ^ (e + N))
      by (apply Z.pow_le_mono_r; lia).
    nia. }
  assert (m < 2 ^ (k - e)).
  { replace (k + N) with ((k - e) + (e + N)) in Hlt by lia.
    rewrite (pow2_split (k - e) (e + N)) in Hlt by lia. nia. }
  pose proof (Zdigits2_le m (k - e)). lia.
Qed.

Lemma mag_rescale (N j : Z) (x : spec_float) :
  fin x -> 1074 <= N -> 0 <= j -> mag (N + j) x = 2 ^ j * mag N x.
Proof.
  destruct x as [s|s| |s m e]; cbn [fin mag]; try lia.
  intros He HN Hj. replace (e + (N + j)) with (j + (e + N)) by lia.
  rewrite pow2_split by lia. ring.
Qed.

(** Multiplication: the exact product, rounded. *)
Lemma SFmul_spec (x y : spec_float) (k : Z) :
  fin x -> fin y -> k <= 971 ->
  mag 1074 x * mag 1074 y < 2 ^ (k + 2148) ->
  fin (SFmul 53 1024 x y)
  /\ Z.abs (2 ^ 1074 * sc 1074 (SFmul 53 1024 x y) - sc 1074 x * sc 1074 y)
     <= 2 ^ (fexp 53 1024 k + 2148).
Proof.
  intros Hx Hy Hk Hlt.
  assert (HP : 0 < 2 ^ (fexp 53 1024 k + 2148))
    by (apply pow2_pos; rewrite fexp_eq; lia).
  destruct x as [sx|sx| |sx mx ex], y as [sy|sy| |sy my ey];
    cbn [fin] in Hx, Hy; try contradiction;
    try (cbn [SFmul fin sc]; split; [exact I | lia]).
  cbn [SFmul]. cbn [mag] in Hlt.
  assert (HUx : 0 < 2 ^ (ex + 1074)) by (apply pow2_pos; lia).
  assert (HUy : 0 < 2 ^ (ey + 1074)) by (apply pow2_pos; lia).
  assert (HX : Z.pos (mx * my) * 2 ^ (ex + ey + 2148)
               = Z.pos mx * 2 ^ (ex + 1074) * (Z.pos my * 2 ^ (ey + 1074))).
  { rewrite Pos2Z.inj_mul.
    replace (ex + ey + 2148) with ((ex + 1074) + (ey + 1074)) by lia.
    rewrite pow2_split by lia. ring. }
  assert (Hd : Zdigits2 (Z.pos (mx * my)) + (ex + ey) <= k).
  { apply (digits_bound _ _ _ 2148); [lia | lia |]. rewrite HX. exact Hlt. }
  pose proof (fexp_mono _ _ Hd) as HE.
  assert (Hee : ex + ey < k).
  { destruct (Zdigits2_bounds (Z.pos (mx * my))); [lia|].
    assert (0 < Zdigits2 (Z.pos (mx * my))) by (simpl; lia). lia. }
  pose proof (binary_round_aux_spec (xorb sx sy) (Z.pos (mx * my)) (ex + ey)
                loc_Exact 2148) as H.
  cbv zeta in H.
  destruct H as (Hf & Hs & Hb & Hex); try lia.
  { rewrite fexp_eq in *. lia. }
  split; [exact Hf|].
  rewrite (sc_mag 1074 _ _ Hs).
  replace 2148 with (1074 + 1074) in Hb, Hex by lia.
  rewrite (mag_rescale 1074 1074 _ Hf) in Hb, Hex by lia.
  replace (1074 + 1074) with 2148 in Hb, Hex by lia.
  rewrite HX in Hb, Hex.
  assert (Hsign : sc 1074 (S754_finite sx mx ex)
                  * sc 1074 (S754_finite sy my ey)
                  = cond_Zopp (xorb sx sy)
                      (Z.pos mx * 2 ^ (ex + 1074)
                       * (Z.pos my * 2 ^ (ey + 1074)))).
  { cbn [sc]. destruct sx, sy; cbn [xorb cond_Zopp]; ring. }
  rewrite Hsign.
  set (V := mag 1074 _) in *.
  set (X := Z.pos mx * 2 ^ (ex + 1074) * (Z.pos my * 2 ^ (ey + 1074))) in *.
  assert (Hgoal : Z.abs (2 ^ 1074 * V - X) <= 2 ^ (fexp 53 1024 k + 2148)).
  { destruct (Z.le_gt_cases
                (fexp 53 1024 (Zdigits2 (Z.pos (mx * my)) + (ex + ey)))
                (ex + ey)) as [Hns|Hsh].
    - rewrite (Hex eq_refl Hns). lia.
    - replace (Z.max (ex + ey)
                 (fexp 53 1024 (Zdigits2 (Z.pos (mx * my)) + (ex + ey))))
        with (fexp 53 1024 (Zdigits2 (Z.pos (mx * my)) + (ex + ey)))
        in Hb by lia.
      assert (2 ^ (fexp 53 1024 (Zdigits2 (Z.pos (mx * my)) + (ex + ey))
                   + 2148)
              <= 2 ^ (fexp 53 1024 k + 2148))
        by (apply Z.pow_le_mono_r; lia).
      lia. }
  destruct (xorb sx sy); cbn [cond_Zopp]; lia.
Qed.

(** The quotient and the exponent that [SFdiv] hands to the rounding. *)
Lemma SFdiv_core_binary_spec (m1 e1 m2 e2 : Z) :
  0 < m1 -> 0 < m2 ->
  let e' := Z.min (fexp 53 1024 (Zdigits2 m1 + e1 - (Zdigits2 m2 + e2)))
              (e1 - e2) in
  exists l,
    SFdiv_core_binary 53 1024 m1 e1 m2 e2
    = (m1 * 2 ^ (e1 - e2 - e') / m2, e', l).
Proof.
  intros H1 H2 e'. unfold SFdiv_core_binary. fold e'.
  assert (Hs : 0 <= e1 - e2 - e') by (unfold e'; lia).
  assert (Em : match e1 - e2 - e' with
               | 0 => m1
               | Z.pos _ => Z.shiftl m1 (e1 - e2 - e')
               | Z.neg _ => 0
               end = m1 * 2 ^ (e1 - e2 - e')).
  { destruct (e1 - e2 - e') as [|p|p] eqn:E.
    - rewrite Z.pow_0_r. lia.
    - apply Z.shiftl_mul_pow2. lia.
    - lia. }
  rewrite Em. unfold Z.div.
  destruct (Z.div_eucl (m1 * 2 ^ (e1 - e2 - e')) m2) as [q r].
  eexists. reflexivity.
Qed.

(** Division: the exact quotient, rounded. *)
Lemma SFdiv_spec (sx : bool) (mx : positive) (ex : Z) (sy : bool)
    (my : positive) (ey : Z) (kx ky : Z) :
  -1074 <= ex -> -1074 <= ey -> -1074 <= ex - ey ->
  Z.pos mx * 2 ^ (ex + 1074) < 2 ^ (kx + 1074) ->
  2 ^ (ky + 1074) <= Z.pos my * 2 ^ (ey + 1074) ->
  kx - ky <= 971 ->
  let r := SFdiv 53 1024 (S754_finite sx mx ex) (S754_finite sy my ey) in
  fin r /\ signed (xorb sx sy) r
  /\ Z.abs (mag 1074 r * (Z.pos my * 2 ^ (ey + 1074))
            - 2 ^ 1074 * (Z.pos mx * 2 ^ (ex + 1074)))
     <= 2 * 2 ^ (fexp 53 1024 (kx - ky) + 1074)
        * (Z.pos my * 2 ^ (ey + 1074)).
Proof.
  intros Hex Hey Hexy Hkx Hky Hk r. unfold r. cbn [SFdiv].
  set (d1 := Zdigits2 (Z.pos mx)). set (d2 := Zdigits2 (Z.pos my)).
  destruct (SFdiv_core_binary_spec (Z.pos mx) ex (Z.pos my) ey)
    as [l ->]; [lia | lia |].
  fold d1 d2.
  set (G := d1 + ex - (d2 + ey)).
  set (e' := Z.min (fexp 53 1024 G) (ex - ey)).
  set (s := ex - ey - e').
  set (q := Z.pos mx * 2 ^ s / Z.pos my).
  assert (Hs : 0 <= s) by (unfold s, e'; lia).
  assert (He' : -1074 <= e') by (unfold e'; rewrite fexp_eq; lia).
  assert (HW : 0 < 2 ^ s) by (apply pow2_pos; exact Hs).
  assert (Hq : 0 <= q) by (apply Z.div_pos; lia).
  (* the magnitudes in bits *)
  assert (Hd1 : d1 + ex <= kx)
    by (apply (digits_bound _ _ _ 1074); [lia | lia | exact Hkx]).
  destruct (Zdigits2_bounds (Z.pos mx)) as [Hx1 Hx2]; [lia|].
  fold d1 in Hx1, Hx2.
  destruct (Zdigits2_bounds (Z.pos my)) as [Hy1 Hy2]; [lia|].
  fold d2 in Hy1, Hy2.
  assert (Hd1p : 0 < d1) by (unfold d1; simpl; lia).
  assert (Hd2p : 0 < d2) by (unfold d2; simpl; lia).
  assert (Hd2 : ky < d2 + ey).
  { assert (HUy : 0 < 2 ^ (ey + 1074)) by (apply pow2_pos; lia).
    assert (2 ^ (ky + 1074) < 2 ^ d2 * 2 ^ (ey + 1074)) by nia.
    rewrite <- pow2_split in H by lia.
    apply Z.pow_lt_mono_r_iff in H; lia. }
  assert (HG : G + 1 <= kx - ky) by (unfold G; lia).
  (* the quotient in bits *)
  assert (Hdq : Zdigits2 q + e' <= Z.max e' (G + 1)).
  { destruct (Z.le_gt_cases 0 (d1 + s - d2 + 1)) as [Hnn|Hng].
    - assert (q < 2 ^ (d1 + s - d2 + 1)).
      { unfold q. apply Z.div_lt_upper_bound; [lia|].
        assert (Z.pos mx * 2 ^ s < 2 ^ d1 * 2 ^ s) by nia.
        assert (2 ^ d1 * 2 ^ s = 2 ^ (d2 - 1) * 2 ^ (d1 + s - d2 + 1)).
        { rewrite <- !pow2_split by lia. f_equal. lia. }
        assert (0 < 2 ^ (d1 + s - d2 + 1)) by (apply pow2_pos; lia).
        nia. }
      pose proof (Zdigits2_le q (d1 + s - d2 + 1)).
      unfold G, s in *. lia.
    - assert (q = 0).
      { unfold q. apply Z.div_small. split; [lia|].
        assert (Z.pos mx * 2 ^ s < 2 ^ d1 * 2 ^ s) by nia.
        rewrite <- pow2_split in H by lia.
        assert (2 ^ (d1 + s) <= 2 ^ (d2 - 1))
          by (apply Z.pow_le_mono_r; lia).
        lia. }
      rewrite H. simpl Zdigits2. lia. }
  assert (HE1 : Z.max e' (fexp 53 1024 (Zdigits2 q + e'))
                <= fexp 53 1024 (kx - ky)).
  { pose proof (fexp_mono _ _ Hdq).
    assert (fexp 53 1024 G <= fexp 53 1024 (kx - ky))
      by (apply fexp_mono; lia).
    assert (fexp 53 1024 (G + 1) <= fexp 53 1024 (kx - ky))
      by (apply fexp_mono; lia).
    unfold e' in *. rewrite !fexp_eq in *. lia. }
  pose proof (binary_round_aux_spec (xorb sx sy) q e' l 1074) as H.
  cbv zeta in H.
  destruct H as (Hf & Hsg & Hb & _); try lia.
  { pose proof (fexp_eq (kx - ky)). lia. }
  split; [exact Hf|]. split; [exact Hsg|].
  set (V := mag 1074 _) in *.
  set (E1 := Z.max e' (fexp 53 1024 (Zdigits2 q + e'))) in *.
  assert (HU1 : 2 ^ (E1 + 1074) <= 2 ^ (fexp 53 1024 (kx - ky) + 1074))
    by (apply Z.pow_le_mono_r; lia).
  assert (HU' : 2 ^ (e' + 1074) <= 2 ^ (E1 + 1074))
    by (apply Z.pow_le_mono_r; unfold E1; lia).
  assert (HUp : 0 < 2 ^ (e' + 1074)) by (apply pow2_pos; lia).
  (* the quotient is the floor *)
  assert (Hfl : q * Z.pos my <= Z.pos mx * 2 ^ s < (q + 1) * Z.pos my).
  { unfold q.
    pose proof (Z.mul_div_le (Z.pos mx * 2 ^ s) (Z.pos my)).
    pose proof (Z.mul_succ_div_gt (Z.pos mx * 2 ^ s) (Z.pos my)). lia. }
  assert (HX : 2 ^ 1074 * (Z.pos mx * 2 ^ (ex + 1074))
               = Z.pos mx * 2 ^ s * 2 ^ (e' + 1074) * 2 ^ (ey + 1074)).
  { assert (2 ^ 1074 * 2 ^ (ex + 1074)
            = 2 ^ s * 2 ^ (e' + 1074) * 2 ^ (ey + 1074)).
    { rewrite <- (pow2_split s (e' + 1074)) by lia.
      rewrite <- (pow2_split (s + (e' + 1074)) (ey + 1074)) by lia.
      rewrite <- (pow2_split 1074 (ex + 1074)) by lia.
      f_equal. unfold s. lia. }
    rewrite Z.mul_assoc, (Z.mul_comm (2 ^ 1074)), <- Z.mul_assoc, H.
    ring. }
  rewrite HX.
  assert (HUy : 0 < 2 ^ (ey + 1074)) by (apply pow2_pos; lia).
  set (Uy := 2 ^ (ey + 1074)) in *.
  set (U' := 2 ^ (e' + 1074)) in *.
  set (U1 := 2 ^ (E1 + 1074)) in *.
  set (UK := 2 ^ (fexp 53 1024 (kx - ky) + 1074)) in *.
  set (P := Z.pos mx * 2 ^ s) in *.
  assert (Hmain : Z.abs (V * Z.pos my - P * U') <= 2 * UK * Z.pos my).
  { assert (q * Z.pos my * U' <= P * U')
      by (apply Z.mul_le_mono_nonneg_r; lia).
    assert (P * U' < (q + 1) * Z.pos my * U')
      by (apply Z.mul_lt_mono_pos_r; lia).
    assert (V * Z.pos my <= (q * U' + U1) * Z.pos my)
      by (apply Z.mul_le_mono_nonneg_r; lia).
    assert ((q * U' - U1) * Z.pos my < V * Z.pos my)
      by (apply Z.mul_lt_mono_pos_r; lia).
    assert (U1 * Z.pos my <= UK * Z.pos my)
      by (apply Z.mul_le_mono_nonneg_r; lia).
    assert (U' * Z.pos my <= U1 * Z.pos my)
      by (apply Z.mul_le_mono_nonneg_r; lia).
    apply Z.abs_le. lia. }
  replace (V * (Z.pos my * Uy) - P * U' * Uy)
    with ((V * Z.pos my - P * U') * Uy) by ring.
  replace (2 * UK * (Z.pos my * Uy)) with (2 * UK * Z.pos my * Uy) by ring.
  rewrite Z.abs_mul, (Z.abs_eq Uy) by lia.
  apply Z.mul_le_mono_nonneg_r; lia.
Qed.

Lemma mag_thousand : mag 1074 thousand = 1000 * 2 ^ 1074.
Proof.
  cbn [mag thousand]. change (-43 + 1074) with 1031.
  replace 1074 with (43 + 1031) by lia. rewrite (pow2_split 43 1031) by lia.
  change (2 ^ 43) with 8796093022208. lia.
Qed.

Lemma sc_nonneg (x : spec_float) :
  signed false x -> sc 1074 x = mag 1074 x.
Proof. intros H. rewrite (sc_mag _ _ false H). reflexivity. Qed.

(** Division by [1000.0]. *)
Lemma div_thousand (x : float) (k : Z) :
  fin x -> k <= 980 -> mag 1074 x < 2 ^ (k + 1074) ->
  fin (div x thousand)
  /\ (forall s, signed s x -> signed s (div x thousand))
  /\ Z.abs (1000 * sc 1074 (div x thousand) - sc 1074 x)
     <= 2000 * 2 ^ (fexp 53 1024 (k - 9) + 1074).
Proof.
  intros Hx Hk Hlt.
  assert (HP : 0 < 2 ^ (fexp 53 1024 (k - 9) + 1074))
    by (apply pow2_pos; rewrite fexp_eq; lia).
  destruct x as [sx|sx| |sx mx ex]; cbn [fin] in Hx; try contradiction.
  - unfold div, thousand. cbn [SFdiv fin signed sc].
    split; [exact I|]. split; [intros; exact I | lia].
  - pose proof (SFdiv_spec sx mx ex false 8796093022208000 (-43) k 9) as H.
    cbv zeta in H.
    change (S754_finite false 8796093022208000 (-43)) with thousand in H.
    change (Z.pos 8796093022208000 * 2 ^ (-43 + 1074))
      with (mag 1074 thousand) in H.
    rewrite mag_thousand in H.
    destruct H as (Hf & Hs & Hb); try lia.
    { cbn [mag] in Hlt. exact Hlt. }
    rewrite xorb_false_r in Hs.
    split; [exact Hf|]. split.
    { intros s Hsx. cbn [signed] in Hsx. subst s. exact Hs. }
    unfold div. rewrite (sc_mag _ _ _ Hs). cbn [sc].
    change (Z.pos mx * 2 ^ (ex + 1074)) with (mag 1074 (S754_finite sx mx ex))
      in *.
    set (V := mag 1074 (SFdiv 53 1024 (S754_finite sx mx ex) thousand)) in *.
    set (X := mag 1074 (S754_finite sx mx ex)) in *.
    set (U := 2 ^ (fexp 53 1024 (k - 9) + 1074)) in *.
    assert (HK : 0 < 2 ^ 1074) by (apply pow2_pos; lia).
    set (K := 2 ^ 1074) in *.
    assert (Hab : Z.abs (1000 * V - X) <= 2000 * U).
    { replace (V * (1000 * K) - K * X) with ((1000 * V - X) * K) in Hb
        by ring.
      replace (2 * U * (1000 * K)) with (2000 * U * K) in Hb by ring.
      rewrite Z.abs_mul, (Z.abs_eq K) in Hb by lia.
      apply Z.mul_le_mono_pos_r in Hb; lia. }
    destruct sx; cbn [cond_Zopp]; lia.
Qed.

(** Multiplication by [1000.0]. *)
Lemma mul_thousand (x : float) (k : Z) :
  fin x -> k <= 971 -> 1000 * mag 1074 x < 2 ^ (k + 1074) ->
  fin (mul x thousand)
  /\ Z.abs (sc 1074 (mul x thousand) - 1000 * sc 1074 x)
     <= 2 ^ (fexp 53 1024 k + 1074).
Proof.
  intros Hx Hk Hlt.
  assert (HK : 0 < 2 ^ 1074) by (apply pow2_pos; lia).
  assert (Hk0 : 0 <= k + 1074).
  { destruct (Z.le_gt_cases 0 (k + 1074)); [assumption|].
    rewrite Z.pow_neg_r in Hlt by lia.
    pose proof (mag_nonneg 1074 x). lia. }
  destruct (SFmul_spec x thousand k) as (Hf & Hb); try assumption.
  { exact (ltac:(cbn; lia) : fin thousand). }
  { rewrite mag_thousand.
    replace (k + 2148) with ((k + 1074) + 1074) by lia.
    rewrite (pow2_split (k + 1074) 1074) by lia. nia. }
  split; [exact Hf|]. unfold mul.
  assert (Est : sc 1074 thousand = 1000 * 2 ^ 1074)
    by (rewrite <- mag_thousand; reflexivity).
  rewrite Est in Hb.
  replace (fexp 53 1024 k + 2148) with ((fexp 53 1024 k + 1074) + 1074) in Hb
    by lia.
  rewrite (pow2_split (fexp 53 1024 k + 1074) 1074) in Hb
    by (try rewrite fexp_eq; lia).
  set (V := sc 1074 (SFmul 53 1024 x thousand)) in *.
  set (K := 2 ^ 1074) in *.
  replace (K * V - sc 1074 x * (1000 * K))
    with ((V - 1000 * sc 1074 x) * K) in Hb by ring.
  rewrite Z.abs_mul, (Z.abs_eq K) in Hb by lia.
  apply Z.mul_le_mono_pos_r in Hb; lia.
Qed.

(** An [int] below [2 ^ 53] converts to a float without rounding. *)
Lemma of_int_exact (z : Z) :
  Z.abs z < 2 ^ 53 ->
  exists x, of_int z = ok x /\ fin x /\ sc 1074 x = z * 2 ^ 1074
            /\ (0 <= z -> signed false x).
Proof.
  intros Hz. unfold of_int.
  assert (HK : 0 < 2 ^ 1074) by (apply pow2_pos; lia).
  destruct (binary_normalize_spec z 0 53 1074) as (Hf & _ & Hx);
    try lia.
  change (0 + 1074) with 1074 in Hx.
  assert (Hd : fexp 53 1024 (Zdigits2 z + 0) <= 0).
  { rewrite fexp_eq.
    assert (Zdigits2 z <= 53).
    { destruct z as [|p|p]; [simpl; lia| |].
      - apply Zdigits2_le; lia.
      - change (Zdigits2 (Z.neg p)) with (Zdigits2 (Z.pos p)).
        apply Zdigits2_le; lia. }
    lia. }
  specialize (Hx Hd).
  assert (Hsg : 0 <= z -> signed false (binary_normalize 53 1024 z 0 false)).
  { intros Hnn. destruct z as [|p|p]; [exact I| |lia].
    cbn [binary_normalize].
    destruct (binary_round_spec false p 0 1074) as (_ & Hs & _); try lia.
    exact Hs. }
  destruct (binary_normalize 53 1024 z 0 false) as [s|s| |s m e] eqn:E;
    cbn [fin] in Hf; try contradiction.
  - eexists. split; [reflexivity|]. split; [exact I|]. split; assumption.
  - eexists. split; [reflexivity|]. split; [exact Hf|]. split; assumption.
Qed.

Lemma shiftl_scaled (m e N : Z) :
  0 <= m -> - N <= e -> 0 <= N -> Z.shiftl m e = m * 2 ^ (e + N) / 2 ^ N.
Proof.
  intros Hm He HN.
  destruct (Z.le_gt_cases 0 e) as [Hpos|Hneg].
  - rewrite Z.shiftl_mul_pow2 by lia. rewrite pow2_split by lia.
    rewrite Z.mul_assoc, Z.div_mul; [reflexivity|].
    apply Z.pow_nonzero; lia.
  - rewrite Z.shiftl_div_pow2 by lia.
    replace N with ((e + N) + - e) at 2 by lia.
    rewrite (pow2_split (e + N) (- e)) by lia.
    rewrite (Z.mul_comm m).
    rewrite Z.div_mul_cancel_l; [reflexivity | |];
      apply Z.pow_nonzero; lia.
Qed.

(** [int(x)] of a finite float: the whole units of its magnitude, with
    its sign. *)
Lemma to_int_spec (x : float) :
  fin x ->
  exists z, to_int x = ok z
    /\ (0 <= sc 1074 x ->
        z * 2 ^ 1074 <= sc 1074 x < (z + 1) * 2 ^ 1074)
    /\ (sc 1074 x <= 0 ->
        (z - 1) * 2 ^ 1074 < sc 1074 x <= z * 2 ^ 1074).
Proof.
  assert (HK : 0 < 2 ^ 1074) by (apply pow2_pos; lia).
  destruct x as [s|s| |s m e]; cbn [fin]; try contradiction; intros He.
  - exists 0. cbn [to_int sc]. split; [reflexivity|]. lia.
  - eexists. cbn [to_int sc]. split; [reflexivity|].
    rewrite (shiftl_scaled (Z.pos m) e 1074) by lia.
    set (X := Z.pos m * 2 ^ (e + 1074)).
    assert (HX : 0 < X) by (unfold X; assert (0 < 2 ^ (e + 1074))
                              by (apply pow2_pos; lia); nia).
    pose proof (Z.mul_div_le X (2 ^ 1074) HK).
    pose proof (Z.mul_succ_div_gt X (2 ^ 1074) HK).
    destruct s; cbn [cond_Zopp]; split; intros; lia.
Qed.

Lemma clock_reading_spec (x : float) :
  clock_reading x = true ->
  fin x /\ signed false x /\ 0 <= sc 1074 x < 2 ^ (32 + 1074).
Proof.
  destruct x as [s|s| |[|] m e]; cbn [clock_reading]; try discriminate.
  - intros _. cbn. split; [exact I|]. split; [exact I|].
    assert (0 < 2 ^ (32 + 1074)) by (apply pow2_pos; lia). lia.
  - intros H. apply andb_true_iff in H. destruct H as [Hb Hd].
    apply Z.leb_le in Hd.
    unfold bounded, canonical_mantissa in Hb.
    apply andb_true_iff in Hb. destruct Hb as [Hc _].
    apply Z.eqb_eq in Hc. rewrite fexp_eq in Hc.
    assert (He : -1074 <= e) by lia.
    cbn [fin signed sc cond_Zopp]. split; [exact He|].
    split; [reflexivity|].
    assert (HU : 0 < 2 ^ (e + 1074)) by (apply pow2_pos; lia).
    split; [lia|].
    destruct (Zdigits2_bounds (Z.pos m)) as [_ Hhi]; [lia|].
    assert (0 < Zdigits2 (Z.pos m)) by (simpl; lia).
    assert (Z.pos m * 2 ^ (e + 1074)
            < 2 ^ Zdigits2 (Z.pos m) * 2 ^ (e + 1074)) by nia.
    rewrite <- pow2_split in H0 by lia.
    assert (2 ^ (Zdigits2 (Z.pos m) + (e + 1074)) <= 2 ^ (32 + 1074))
      by (apply Z.pow_le_mono_r; lia).
    lia.
Qed.

Lemma fexp_33 : fexp 53 1024 33 = -20. Proof. reflexivity. Qed.
Lemma fexp_34 : fexp 53 1024 34 = -19. Proof. reflexivity. Qed.
Lemma fexp_45 : fexp 53 1024 45 = -8. Proof. reflexivity. Qed.

Lemma unit_split :
  2 ^ 1074 = 1048576 * 2 ^ 1054
  /\ 2 ^ (-20 + 1074) = 2 ^ 1054
  /\ 2 ^ (-19 + 1074) = 2 * 2 ^ 1054
  /\ 2 ^ (-8 + 1074) = 4096 * 2 ^ 1054
  /\ 2 ^ (32 + 1074) = 4294967296 * 2 ^ 1074
  /\ 2 ^ (33 + 1074) = 8589934592 * 2 ^ 1074
  /\ 2 ^ (34 + 1074) = 17179869184 * 2 ^ 1074
  /\ 2 ^ (42 + 1074) = 4398046511104 * 2 ^ 1074
  /\ 2 ^ (45 + 1074) = 35184372088832 * 2 ^ 1074
  /\ 0 < 2 ^ 1054.
Proof.
  repeat split; try (apply pow2_pos; lia);
    match goal with
    | |- 2 ^ ?a = ?c * 2 ^ ?b =>
        replace a with ((a - b) + b) by lia;
        rewrite (pow2_split (a - b) b) by lia; reflexivity
    | |- _ => reflexivity
    end.
Qed.

End FloatFacts.

(* ===================================================================== *)
(** * Facts about the sync engine *)
(* ===================================================================== *)

Module SyncEngineFacts.
Import Py Float SrtParser SyncEngine FloatSpec EngineSpec FloatFacts.

Lemma abs_sc (N : Z) (x : float) : Z.abs (sc N x) = mag N x.
Proof.
  destruct x as [s|s| |s m e]; cbn [sc mag]; try reflexivity.
  assert (0 <= Z.pos m * 2 ^ (e + N)) by lia.
  destruct s; cbn [cond_Zopp]; lia.
Qed.

(** [ms / 1000.0] for a position below [2 ^ 42] ms: no exception, and a
    float within two units in the last place of the quotient. *)
Lemma seconds_spec (p : Z) :
  0 <= p < 2 ^ 42 ->
  exists s, seconds p = ok s /\ fin s /\ signed false s
    /\ Z.abs (1000 * sc 1074 s - p * 2 ^ 1074) <= 2000 * 2 ^ 1054.
Proof.
  intros Hp.
  destruct unit_split as (EK & E20 & _ & _ & _ & _ & _ & E42 & _ & Hk0).
  destruct (of_int_exact p) as (x & Ex & Hf & Hsc & Hsg); [lia|].
  specialize (Hsg (proj1 Hp)).
  unfold seconds. rewrite Ex. cbn [bind ok].
  destruct (div_thousand x 42) as (Hf' & Hs' & Hb); [exact Hf | lia | |].
  { rewrite <- (sc_nonneg x Hsg), Hsc, E42. nia. }
  eexists. split; [reflexivity|]. split; [exact Hf'|].
  split; [exact (Hs' false Hsg)|].
  change (42 - 9) with 33 in Hb. rewrite fexp_33, E20, Hsc in Hb. exact Hb.
Qed.

(** The anchor [now - ms / 1000.0]. *)
Lemma anchor_spec (r s : float) (p : Z) :
  clock_reading r = true -> fin s -> signed false s ->
  0 <= p < 2 ^ 42 ->
  Z.abs (1000 * sc 1074 s - p * 2 ^ 1074) <= 2000 * 2 ^ 1054 ->
  fin (sub r s)
  /\ Z.abs (sc 1074 (sub r s)) <= 8589934592 * 2 ^ 1074
  /\ Z.abs (1000 * sc 1074 (sub r s) - (1000 * sc 1074 r - p * 2 ^ 1074))
     <= 3000 * 2 ^ 1054.
Proof.
  intros Hr Hfs Hss Hp Hs.
  destruct unit_split as (EK & E20 & _ & _ & E32 & E33 & _ & E42 & _ & Hk0).
  destruct (clock_reading_spec r Hr) as (Hfr & _ & Hr0).
  rewrite E32 in Hr0.
  pose proof (mag_nonneg 1074 s) as Hs0.
  rewrite <- (sc_nonneg s Hss) in Hs0.
  set (K := 2 ^ 1074) in *. set (k0 := 2 ^ 1054) in *.
  set (R := sc 1074 r) in *. set (S := sc 1074 s) in *.
  assert (HS : S < 8589934592 * K) by lia.
  destruct (SFsub_spec r s 33) as (Hf & Hb); [exact Hfr | exact Hfs | lia | |].
  { fold R S. rewrite E33. fold K. lia. }
  rewrite fexp_33, E20 in Hb. fold R S k0 in Hb.
  split; [exact Hf|]. unfold sub. set (A := sc 1074 _) in *.
  split; lia.
Qed.

(** The reading [int((now - anchor) * 1000)]. *)
Lemma reading_spec (a t : float) :
  fin a -> Z.abs (sc 1074 a) <= 8589934592 * 2 ^ 1074 ->
  clock_reading t = true ->
  exists z W,
    to_int (mul (sub t a) thousand) = ok z
    /\ Z.abs (W - 1000 * (sc 1074 t - sc 1074 a)) <= 6096 * 2 ^ 1054
    /\ (0 <= W -> z * 2 ^ 1074 <= W < (z + 1) * 2 ^ 1074)
    /\ (W <= 0 -> (z - 1) * 2 ^ 1074 < W <= z * 2 ^ 1074).
Proof.
  intros Hfa Ha Ht.
  destruct unit_split
    as (EK & _ & E19 & E8 & E32 & _ & E34 & _ & E45 & Hk0).
  destruct (clock_reading_spec t Ht) as (Hft & _ & Ht0).
  rewrite E32 in Ht0.
  set (K := 2 ^ 1074) in *. set (k0 := 2 ^ 1054) in *.
  set (T := sc 1074 t) in *. set (A := sc 1074 a) in *.
  destruct (SFsub_spec t a 34) as (Hfy & Hy); [exact Hft | exact Hfa | lia | |].
  { fold T A. rewrite E34. fold K. lia. }
  rewrite fexp_34, E19 in Hy. fold T A k0 in Hy.
  destruct (mul_thousand (SFsub 53 1024 t a) 45) as (Hfz & Hz);
    [exact Hfy | lia | |].
  { rewrite <- abs_sc, E45. fold K. lia. }
  rewrite fexp_45, E8 in Hz. fold k0 in Hz.
  destruct (to_int_spec _ Hfz) as (z & Ez & Hpos & Hneg).
  exists z, (sc 1074 (mul (SFsub 53 1024 t a) thousand)).
  split; [exact Ez|]. split; [|split; assumption].
  set (Y := sc 1074 (SFsub 53 1024 t a)) in *.
  set (W := sc 1074 _) in *. lia.
Qed.

(** The elapsed time read at [t] from an anchor set at [r] for the
    position [p], in units of [2 ^ -1074] ms: within [1/64] ms above
    and [1 + 1/64] ms below the exact value. *)
Lemma anchored_reading (r t : float) (p : Z) :
  clock_reading r = true -> clock_reading t = true ->
  sc 1074 r <= sc 1074 t -> 0 <= p < 2 ^ 42 ->
  exists s z,
    seconds p = ok s
    /\ to_int (mul (sub t (sub r s)) thousand) = ok z
    /\ 64 * (z * 2 ^ 1074
             - (p * 2 ^ 1074 + 1000 * (sc 1074 t - sc 1074 r)))
       <= 2 ^ 1074
    /\ 64 * (p * 2 ^ 1074 + 1000 * (sc 1074 t - sc 1074 r)
             - z * 2 ^ 1074)
       < 65 * 2 ^ 1074.
Proof.
  intros Hr Ht Hle Hp.
  destruct unit_split as (EK & _ & _ & _ & _ & _ & _ & _ & _ & Hk0).
  destruct (seconds_spec p Hp) as (s & Es & Hfs & Hss & Hs).
  destruct (anchor_spec r s p Hr Hfs Hss Hp Hs) as (Hfa & Ha & Hb).
  destruct (reading_spec (sub r s) t Hfa Ha Ht)
    as (z & W & Ez & HW & Hpos & Hneg).
  exists s, z. split; [exact Es|]. split; [exact Ez|].
  set (K := 2 ^ 1074) in *. set (k0 := 2 ^ 1054) in *.
  set (T := sc 1074 t) in *. set (R := sc 1074 r) in *.
  set (A := sc 1074 (sub r s)) in *.
  destruct (Z.le_gt_cases 0 W) as [HW0|HW0].
  - specialize (Hpos HW0). lia.
  - assert (HW1 : W <= 0) by lia. specialize (Hneg HW1). lia.
Qed.

(** The same after a fresh start, whose anchor is the clock reading. *)
Lemma fresh_reading (r t : float) :
  clock_reading r = true -> clock_reading t = true ->
  sc 1074 r <= sc 1074 t ->
  exists z,
    to_int (mul (sub t r) thousand) = ok z
    /\ 64 * (z * 2 ^ 1074 - 1000 * (sc 1074 t - sc 1074 r)) <= 2 ^ 1074
    /\ 64 * (1000 * (sc 1074 t - sc 1074 r) - z * 2 ^ 1074)
       < 65 * 2 ^ 1074.
Proof.
  intros Hr Ht Hle.
  destruct unit_split as (EK & _ & _ & _ & E32 & _ & _ & _ & _ & Hk0).
  destruct (clock_reading_spec r Hr) as (Hfr & _ & Hr0).
  rewrite E32 in Hr0.
  destruct (reading_spec r t Hfr) as (z & W & Ez & HW & Hpos & Hneg);
    [lia | exact Ht |].
  exists z. split; [exact Ez|].
  set (K := 2 ^ 1074) in *. set (k0 := 2 ^ 1054) in *.
  set (T := sc 1074 t) in *. set (R := sc 1074 r) in *.
  destruct (Z.le_gt_cases 0 W) as [HW0|HW0].
  - specialize (Hpos HW0). lia.
  - assert (HW1 : W <= 0) by lia. specialize (Hneg HW1). lia.
Qed.

Lemma to_Q_units (x : float) :
  fin x -> (to_Q x * inject_Z (2 ^ 1074) == inject_Z (sc 1074 x))%Q.
Proof.
  destruct x as [s|s| |s m e]; cbn [fin to_Q sc]; try contradiction;
    intros He.
  - ring.
  - rewrite <- cond_Zopp_mul, inject_Z_mult.
    rewrite (Zpower_Qpower 2 (e + 1074)) by lia.
    rewrite (Zpower_Qpower 2 1074) by lia.
    change (inject_Z 2) with (2 # 1)%Q.
    rewrite Qpower_plus by discriminate. ring.
Qed.

Lemma units_pos : (0 < inject_Z (2 ^ 1074))%Q.
Proof.
  change 0%Q with (inject_Z 0). rewrite <- Zlt_Qlt.
  apply pow2_pos. lia.
Qed.

Lemma clock_order (r t : float) :
  fin r -> fin t -> (to_Q r <= to_Q t)%Q -> sc 1074 r <= sc 1074 t.
Proof.
  intros Hr Ht H. rewrite Zle_Qle.
  rewrite <- (to_Q_units r Hr), <- (to_Q_units t Ht).
  apply Qmult_le_r; [exact units_pos | exact H].
Qed.

(** From units of [2 ^ -1074] ms back to milliseconds. *)
Lemma units_bounds (r t : float) (p z : Z) :
  fin r -> fin t ->
  64 * (z * 2 ^ 1074 - (p * 2 ^ 1074 + 1000 * (sc 1074 t - sc 1074 r)))
  <= 2 ^ 1074 ->
  64 * (p * 2 ^ 1074 + 1000 * (sc 1074 t - sc 1074 r) - z * 2 ^ 1074)
  < 65 * 2 ^ 1074 ->
  (inject_Z z <= inject_Z p + (to_Q t - to_Q r) * 1000 + (1 # 64))%Q
  /\ (inject_Z p + (to_Q t - to_Q r) * 1000 - 1 - (1 # 64) < inject_Z z)%Q.
Proof.
  intros Hr Ht Hup Hlo.
  pose proof units_pos as HK.
  pose proof (to_Q_units r Hr) as ER. pose proof (to_Q_units t Ht) as ET.
  assert (H64 : (0 < 64 * inject_Z (2 ^ 1074))%Q)
    by (apply Qmult_lt_0_compat; [reflexivity | exact HK]).
  rewrite Zle_Qle in Hup. rewrite Zlt_Qlt in Hlo.
  assert (Eup : (inject_Z
                   (64 * (z * 2 ^ 1074
                          - (p * 2 ^ 1074
                             + 1000 * (sc 1074 t - sc 1074 r))))
                 == 64 * (inject_Z z * inject_Z (2 ^ 1074)
                          - (inject_Z p * inject_Z (2 ^ 1074)
                             + 1000 * (inject_Z (sc 1074 t)
                                       - inject_Z (sc 1074 r)))))%Q).
  { unfold Z.sub.
    repeat (rewrite inject_Z_mult || rewrite inject_Z_plus
            || rewrite inject_Z_opp).
    simpl (inject_Z 64). simpl (inject_Z 1000). ring. }
  assert (Elo : (inject_Z
                   (64 * (p * 2 ^ 1074 + 1000 * (sc 1074 t - sc 1074 r)
                          - z * 2 ^ 1074))
                 == 64 * (inject_Z p * inject_Z (2 ^ 1074)
                          + 1000 * (inject_Z (sc 1074 t)
                                    - inject_Z (sc 1074 r))
                          - inject_Z z * inject_Z (2 ^ 1074)))%Q).
  { unfold Z.sub.
    repeat (rewrite inject_Z_mult || rewrite inject_Z_plus
            || rewrite inject_Z_opp).
    simpl (inject_Z 64). simpl (inject_Z 1000). ring. }
  assert (E65 : (inject_Z (65 * 2 ^ 1074) == 65 * inject_Z (2 ^ 1074))%Q)
    by (rewrite inject_Z_mult; reflexivity).
  rewrite Eup in Hup. rewrite Elo, E65 in Hlo.
  rewrite <- ER, <- ET in Hup, Hlo.
  set (K := inject_Z (2 ^ 1074)) in *.
  set (T := to_Q t) in *. set (R := to_Q r) in *.
  set (Z' := inject_Z z) in *. set (P := inject_Z p) in *.
  split.
  - apply (Qmult_le_r _ _ (64 * K)); [exact H64|].
    assert (E1 : (Z' * (64 * K)
                  == 64 * (Z' * K - (P * K + 1000 * (T * K - R * K)))
                     + 64 * (P * K + 1000 * (T * K - R * K)))%Q) by ring.
    assert (E2 : ((P + (T - R) * 1000 + (1 # 64)) * (64 * K)
                  == K + 64 * (P * K + 1000 * (T * K - R * K)))%Q) by ring.
    rewrite E1, E2. apply Qplus_le_l. exact Hup.
  - apply (Qmult_lt_r _ _ (64 * K)); [exact H64|].
    assert (E1 : ((P + (T - R) * 1000 - 1 - (1 # 64)) * (64 * K)
                  == 64 * (P * K + 1000 * (T * K - R * K) - Z' * K)
                     + (64 * (Z' * K) - 65 * K))%Q) by ring.
    assert (E2 : (Z' * (64 * K) == 65 * K + (64 * (Z' * K) - 65 * K))%Q)
      by ring.
    rewrite E1, E2. apply Qplus_lt_l. exact Hlo.
Qed.

(** The elapsed time read at [t] from the anchor [r - p / 1000.0]. *)
Lemma anchored_elapsed (r t : float) (p : Z) :
  clock_reading r = true -> clock_reading t = true ->
  (to_Q r <= to_Q t)%Q -> 0 <= p < 2 ^ 42 ->
  exists s elapsed,
    seconds p = ok s
    /\ to_int (mul (sub t (sub r s)) thousand) = ok elapsed
    /\ continues_from p r t elapsed
    /\ p - 1 <= elapsed.
Proof.
  intros Hr Ht Hle Hp.
  destruct (clock_reading_spec r Hr) as (Hfr & _ & _).
  destruct (clock_reading_spec t Ht) as (Hft & _ & _).
  pose proof (clock_order r t Hfr Hft Hle) as Hsc.
  destruct (anchored_reading r t p Hr Ht Hsc Hp)
    as (s & z & Es & Ez & Hup & Hlo).
  exists s, z. split; [exact Es|]. split; [exact Ez|].
  split; [exact (units_bounds r t p z Hfr Hft Hup Hlo)|].
  assert (HK : 0 < 2 ^ 1074) by (apply pow2_pos; lia).
  set (K := 2 ^ 1074) in *. nia.
Qed.

(** The elapsed time read at [t] after a fresh start at [r]. *)
Lemma fresh_elapsed (r t : float) :
  clock_reading r = true -> clock_reading t = true ->
  (to_Q r <= to_Q t)%Q ->
  exists elapsed,
    to_int (mul (sub t r) thousand) = ok elapsed
    /\ continues_from 0 r t elapsed
    /\ -1 <= elapsed.
Proof.
  intros Hr Ht Hle.
  destruct (clock_reading_spec r Hr) as (Hfr & _ & _).
  destruct (clock_reading_spec t Ht) as (Hft & _ & _).
  pose proof (clock_order r t Hfr Hft Hle) as Hsc.
  destruct (fresh_reading r t Hr Ht Hsc) as (z & Ez & Hup & Hlo).
  exists z. split; [exact Ez|].
  split; [apply (units_bounds r t 0 z Hfr Hft); lia|].
  assert (HK : 0 < 2 ^ 1074) by (apply pow2_pos; lia).
  set (K := 2 ^ 1074) in *. nia.
Qed.

Lemma perform_subtitles (self : SubtitleSync) (c : call) :
  subtitles (perform self c) = subtitles self.
Proof.
  destruct c; cbn [perform];
    unfold toggle, start, pause, set_playback_time, seek_to, returns, raises;
    cbn [_is_running set_pause_elapsed];
    repeat match goal with
           | |- context [if ?b then _ else _] => destruct b
           | |- context [match ?o with Some _ => _ | None => _ end] =>
               destruct o
           | |- context [match ?o with inl _ => _ | inr _ => _ end] =>
               destruct o
           end; reflexivity.
Qed.

Lemma perform_all_subtitles (cs : list call) (self : SubtitleSync) :
  subtitles (perform_all self cs) = subtitles self.
Proof.
  unfold perform_all. revert self.
  induction cs as [|c cs IH]; intros self; simpl; [reflexivity|].
  rewrite IH. apply perform_subtitles.
Qed.

End SyncEngineFacts.

(* ===================================================================== *)
(** * Properties of the cue store *)
(* ===================================================================== *)

Module CueStore.
Import Py Re Codecs SrtParser SyncEngine.
Import CueSpec ReSpec ParseSpec TagSpec Scenarios.
Import SortFacts LookupFacts ParserFacts TagFacts SyncEngineFacts.

Lemma parse_srt_file_content (data : bytes) (encoding : codec)
    (cues : list Subtitle) :
  parse_srt_file data encoding = ok cues ->
  exists content,
    first_decoding (encodings_to_try encoding) data = Some content
    /\ cues = sort (collect (blocks_of content)).
Proof.
  unfold parse_srt_file.
  destruct (first_decoding (encodings_to_try encoding) data) as [content|];
    [|discriminate].
  intros H. injection H as <-. exists content. split; reflexivity.
Qed.

(** C1. Lookup on a parsed cue set whose ranges are proper and pairwise
    disjoint is boundary-inclusive and gap-aware: a query at the start
    and at the end of a cue returns that cue, a query strictly between
    two consecutive cues returns no cue, a cue is returned exactly when
    it is in the set and active, and one probe of the binary search
    matches the cue at the probed index exactly when that cue is
    active. *)
Theorem parse_then_lookup (data : bytes) (encoding : codec)
    (cues : list Subtitle) :
  parse_srt_file data encoding = ok cues ->
  Forall proper_range cues ->
  ForallOrdPairs disjoint cues ->
  (forall cue, In cue cues ->
     get_subtitle_at_time cues (start_ms cue) = Returned (Some cue)
     /\ get_subtitle_at_time cues (end_ms cue) = Returned (Some cue))
  /\ (forall i a b t,
        nth_error cues i = Some a -> nth_error cues (S i) = Some b ->
        end_ms a < t < start_ms b ->
        get_subtitle_at_time cues t = Returned None)
  /\ (forall t cue,
        get_subtitle_at_time cues t = Returned (Some cue)
        <-> In cue cues /\ active cue t)
  /\ (forall t left right sub,
        0 <= left -> right < Z.of_nat (length cues) ->
        (search_step cues t left right = Exit (Returned (Some sub))
         <-> left <= right
             /\ nth_error cues (Z.to_nat ((left + right) / 2)) = Some sub
             /\ active sub t)).
Proof.
  intros Hparse Hproper Hdisj.
  destruct (parse_srt_file_content _ _ _ Hparse) as (content & _ & Hc).
  assert (Hsorted : sorted_by_start cues) by (subst cues; apply sort_sorted).
  pose proof (sorted_disjoint_spaced cues Hsorted Hproper Hdisj) as Hsp.
  rewrite Forall_forall in Hproper.
  split; [|split; [|split]].
  - intros cue Hin. specialize (Hproper cue Hin). unfold proper_range in *.
    split; apply lookup_finds; try assumption; unfold active; lia.
  - intros i a b t Ha Hb Ht.
    destruct (lookup_total cues t) as [H|(sub & Hin & Hact & _)];
      [exact H|].
    exfalso. apply In_nth_error in Hin. destruct Hin as [k Hk].
    pose proof (Hproper a (nth_error_In _ _ Ha)) as Hpa.
    unfold active, proper_range in *.
    destruct (Nat.lt_trichotomy k i) as [Hlt|[->|Hgt]].
    + destruct (Hsp _ _ _ _ Hlt Hk Ha). lia.
    + rewrite Ha in Hk. injection Hk as <-. lia.
    + destruct (Nat.eq_dec k (S i)) as [->|Hne].
      * rewrite Hb in Hk. injection Hk as <-. lia.
      * assert (Hlt : (S i < k)%nat) by lia.
        destruct (Hsp _ _ _ _ Hlt Hb Hk). lia.
  - intros t cue. split.
    + intros H.
      destruct (lookup_total cues t) as [H'|(sub & Hin & Hact & H')];
        rewrite H' in H; [discriminate|].
      injection H as <-. split; assumption.
    + intros [Hin Hact]. apply lookup_finds; assumption.
  - intros t left right sub Hl Hr.
    destruct (search_step_cases cues t left right Hl Hr)
      as [[Hlt ->]|(Hle & probe & Hnth
                    & [(Hact & ->)|[(Hlt & ->)|(Hs & He & ->)]])];
      unfold active in *; split;
      try discriminate;
      try (intros (Hle' & Hnth' & Hact'); try lia;
           rewrite Hnth in Hnth'; injection Hnth' as <-; try lia).
    + intros H. injection H as <-. repeat split; assumption || lia.
    + reflexivity.
Qed.

(** C1, on the cues of scenario A. *)
Lemma parse_then_lookup_witness :
  parse_srt_file scenario_A utf_8 = ok scenario_A_cues
  /\ Forall proper_range scenario_A_cues
  /\ ForallOrdPairs disjoint scenario_A_cues
  /\ get_subtitle_at_time scenario_A_cues 5500 = Returned (Some cue_second)
  /\ get_subtitle_at_time scenario_A_cues 8200 = Returned (Some cue_second)
  /\ get_subtitle_at_time scenario_A_cues 4500 = Returned None.
Proof.
  assert (H1 : parse_srt_file scenario_A utf_8 = ok scenario_A_cues)
    by (vm_compute; reflexivity).
  assert (H2 : Forall proper_range scenario_A_cues)
    by (repeat constructor; unfold proper_range; simpl; lia).
  assert (H3 : ForallOrdPairs disjoint scenario_A_cues)
    by (repeat constructor; unfold disjoint; simpl; lia).
  pose proof (parse_then_lookup scenario_A utf_8 scenario_A_cues H1 H2 H3)
    as (Hb & Hgap & _).
  assert (Hin : In cue_second scenario_A_cues) by (right; left; reflexivity).
  assert (Ht : end_ms cue_hello < 4500 < start_ms cue_second)
    by (simpl; lia).
  exact (conj H1 (conj H2 (conj H3
           (conj (proj1 (Hb cue_second Hin))
              (conj (proj2 (Hb cue_second Hin))
                 (Hgap O cue_hello cue_second 4500 eq_refl eq_refl Ht)))))).
Defined.

(** C6. The cues [parse_srt_file] returns are in ascending order of
    start time whatever the order of the blocks: the sort is applied to
    whatever was collected, and yields a sorted permutation of it.  No
    call on the engine that holds the list changes it, so the order
    holds for its lifetime. *)
Theorem parse_sorted_for_life (data : bytes) (encoding : codec)
    (cues : list Subtitle) :
  parse_srt_file data encoding = ok cues ->
  sorted_by_start cues
  /\ (forall i j a b, (i <= j)%nat ->
        nth_error cues i = Some a -> nth_error cues j = Some b ->
        start_ms a <= start_ms b)
  /\ (exists content,
        first_decoding (encodings_to_try encoding) data = Some content
        /\ cues = sort (collect (blocks_of content))
        /\ Permutation cues (collect (blocks_of content)))
  /\ (forall collected : list Subtitle,
        sorted_by_start (sort collected)
        /\ Permutation (sort collected) collected)
  /\ (forall calls : list call,
        subtitles (perform_all (init cues) calls) = cues
        /\ sorted_by_start (subtitles (perform_all (init cues) calls))).
Proof.
  intros Hparse.
  destruct (parse_srt_file_content _ _ _ Hparse) as (content & Hd & Hc).
  assert (Hsorted : sorted_by_start cues) by (subst cues; apply sort_sorted).
  split; [exact Hsorted|]. split; [|split; [|split]].
  - clear Hparse Hd Hc. unfold sorted_by_start in Hsorted.
    induction Hsorted as [|x l Hl IH Hx]; intros i j a b Hij Hi Hj.
    + destruct i; discriminate.
    + destruct i as [|i], j as [|j]; simpl in *.
      * injection Hi as <-. injection Hj as <-. lia.
      * injection Hi as <-. rewrite Forall_forall in Hx.
        apply Hx. eapply nth_error_In. exact Hj.
      * lia.
      * apply (IH i j); [lia | assumption | assumption].
  - exists content. repeat split; try assumption.
    subst cues. apply sort_perm.
  - intros collected. split; [apply sort_sorted | apply sort_perm].
  - intros calls. rewrite perform_all_subtitles. simpl.
    split; [reflexivity | exact Hsorted].
Qed.

(** C6, on a file whose blocks are out of order. *)
Lemma parse_sorted_for_life_witness :
  parse_srt_file
    (file "2
00:00:05,500 --> 00:00:08,200
Second
line

1
00:00:01,000 --> 00:00:04,000
Hello
") utf_8 = ok [cue_hello; cue_second]
  /\ sorted_by_start [cue_hello; cue_second].
Proof.
  assert (H : parse_srt_file
                (file "2
00:00:05,500 --> 00:00:08,200
Second
line

1
00:00:01,000 --> 00:00:04,000
Hello
") utf_8 = ok [cue_hello; cue_second]) by (vm_compute; reflexivity).
  split; [exact H|].
  exact (proj1 (parse_sorted_for_life _ _ _ H)).
Defined.

Lemma first_decoding_none (encodings : list codec) (data : bytes) :
  first_decoding encodings data = None
  <-> forall enc, In enc encodings -> read_text enc data = None.
Proof.
  induction encodings as [|enc rest IH]; simpl.
  - split; [intros _ enc [] | reflexivity].
  - destruct (read_text enc data) as [content|] eqn:E.
    + split; [discriminate|]. intros H.
      specialize (H enc (or_introl eq_refl)). congruence.
    + rewrite IH. split.
      * intros H enc' [<-|Hin]; [exact E | apply H, Hin].
      * intros H enc' Hin. apply H. right. exact Hin.
Qed.

(** C7. [parse_srt_file] raises exactly when no candidate encoding
    decodes the file.  Otherwise it returns the cues of the well-formed
    blocks, and only those, each once: a block is skipped exactly when
    it is not well formed, which covers a block of fewer than three
    lines, an index line [int] rejects, and a timestamp line the pattern
    does not match.  A source all of whose blocks are malformed, and the
    empty source, give the empty list; scenario E gives its two
    well-formed cues in order. *)
Theorem malformed_blocks_skipped (data : bytes) (encoding : codec) :
  (parse_srt_file data encoding = raise ValueError
   <-> forall enc, In enc (encodings_to_try encoding) ->
         read_text enc data = None)
  /\ (forall content,
        first_decoding (encodings_to_try encoding) data = Some content ->
        exists cues,
          parse_srt_file data encoding = ok cues
          /\ Permutation cues (collect (blocks_of content))
          /\ length cues = length (filter well_formed (blocks_of content))
          /\ (forall cue,
                In cue cues
                <-> exists block, In block (blocks_of content)
                      /\ well_formed block = true
                      /\ parse_block block = Some cue)
          /\ ((forall block, In block (blocks_of content) ->
                 well_formed block = false) -> cues = []))
  /\ (forall block, parse_block block = None <-> well_formed block = false)
  /\ (forall block,
        (length (split LF (strip block)) < 3)%nat ->
        parse_block block = None)
  /\ (forall block e,
        int (strip (nth 0 (split LF (strip block)) [])) = raise e ->
        parse_block block = None)
  /\ (forall block,
        re_match timestamp_line_re (strip (nth 1 (split LF (strip block)) []))
        = None ->
        parse_block block = None)
  /\ parse_srt_file [] encoding = ok []
  /\ parse_srt_file scenario_E utf_8 = ok [cue_hello; cue_italic].
Proof.
  split; [|split; [|split; [|split; [|split; [|split; [|split]]]]]].
  - rewrite <- first_decoding_none. unfold parse_srt_file.
    destruct (first_decoding (encodings_to_try encoding) data);
      split; intros H; discriminate || reflexivity.
  - intros content Hd.
    exists (sort (collect (blocks_of content))).
    unfold parse_srt_file. rewrite Hd.
    split; [reflexivity|]. split; [apply sort_perm|]. split; [|split].
    + rewrite (Permutation_length (sort_perm _)). apply collect_length.
    + intros cue. rewrite <- collect_in. split; intros H.
      * apply (Permutation_in _ (sort_perm _)). exact H.
      * apply (Permutation_in _ (Permutation_sym (sort_perm _))). exact H.
    + intros Hall.
      assert (E : collect (blocks_of content) = []).
      { apply length_zero_iff_nil. rewrite collect_length.
        induction (blocks_of content) as [|b bs IH]; [reflexivity|].
        simpl. rewrite (Hall b (or_introl eq_refl)).
        apply IH. intros b' Hb'. apply Hall. right. exact Hb'. }
      rewrite E. reflexivity.
  - apply parse_block_iff.
  - intros block Hlen. apply parse_block_malformed. unfold well_formed.
    destruct (Nat.leb_spec 3 (length (split LF (strip block))));
      [lia | reflexivity].
  - intros block e He. apply parse_block_malformed. unfold well_formed.
    rewrite He. unfold raise. rewrite andb_false_r. reflexivity.
  - intros block Hm. apply parse_block_malformed. unfold well_formed.
    rewrite Hm. apply andb_false_r.
  - destruct encoding; reflexivity.
  - vm_compute. reflexivity.
Qed.

(** C8. The text of every cue is what [re.sub] leaves of the block's
    text lines, and contains no tag.  Whatever the tag name, an element
    [<name>body</name>] becomes its body, an empty element [<name/>]
    disappears, and a tag at the start of a text is dropped; in
    scenario A the text of the third cue is "italic stripped". *)
Theorem markup_tags_stripped :
  (forall block cue,
     parse_block block = Some cue ->
     text cue
     = re_sub tag_re (strip (join LF (skipn 2 (split LF (strip block)))))
     /\ ~ has_tag (text cue))
  /\ (forall name body,
        tag_name name -> ~ In (chr "<") body ->
        re_sub tag_re (tag name ++ body ++ tag (chr "/" :: name)) = body)
  /\ (forall name,
        forallb (not_ch ">") name = true ->
        re_sub tag_re (tag (name ++ [chr "/"])) = [])
  /\ (forall name rest,
        tag_name name ->
        re_sub tag_re (tag name ++ rest) = re_sub tag_re rest)
  /\ (forall s, ~ has_tag (re_sub tag_re s))
  /\ parse_block (lit "3
00:00:10,000 --> 00:00:12,500
<i>italic stripped</i>") = Some cue_italic
  /\ parse_srt_file scenario_A utf_8 = ok scenario_A_cues
  /\ text cue_italic = lit "italic stripped".
Proof.
  split; [|split; [|split; [|split; [|split; [|split; [|split]]]]]].
  - intros block cue H.
    destruct (well_formed block) eqn:W.
    + destruct (parse_block_well_formed block W)
        as (idx & g0 & g1 & g2 & s & e & _ & _ & _ & _ & E).
      rewrite E in H. injection H as <-. simpl text.
      split; [reflexivity | apply re_sub_no_tag].
    + rewrite parse_block_malformed in H by assumption. discriminate.
  - apply re_sub_element.
  - apply re_sub_empty_element.
  - apply re_sub_tag.
  - apply re_sub_no_tag.
  - vm_compute. reflexivity.
  - vm_compute. reflexivity.
  - reflexivity.
Qed.

(** C9. The lookup is total: on every list and every time it returns,
    within the iterations it is given and with any larger number of
    them, either no cue or a cue of the list.  An iteration that
    continues strictly shrinks the window and keeps it inside the
    previous one, and a window inside the list is never indexed out of
    bounds. *)
Theorem lookup_terminates (subtitles : list Subtitle) (current_ms : Z) :
  (get_subtitle_at_time subtitles current_ms = Returned None
   \/ exists sub, In sub subtitles
        /\ get_subtitle_at_time subtitles current_ms = Returned (Some sub))
  /\ (forall left right left' right',
        search_step subtitles current_ms left right = Next left' right' ->
        left <= right /\ left <= left' /\ right' <= right
        /\ left' <= right' + 1 /\ right' - left' < right - left)
  /\ (forall left right e,
        0 <= left -> right < Z.of_nat (length subtitles) ->
        search_step subtitles current_ms left right <> Exit (Raised e))
  /\ (forall fuel,
        (length subtitles < fuel)%nat ->
        search_loop fuel subtitles current_ms
          0 (Z.of_nat (length subtitles) - 1)
        = get_subtitle_at_time subtitles current_ms).
Proof.
  split; [|split; [|split]].
  - destruct (lookup_total subtitles current_ms)
      as [H|(sub & Hin & _ & H)]; [left; exact H|].
    right. exists sub. split; assumption.
  - intros left right left' right'. unfold search_step.
    destruct (Z.leb_spec left right) as [Hle|]; [|discriminate].
    pose proof (mid_between left right Hle) as Hmid.
    destruct (getitem subtitles ((left + right) / 2)) as [e|sub];
      [discriminate|].
    destruct ((start_ms sub <=? current_ms) && (current_ms <=? end_ms sub));
      [discriminate|].
    destruct (current_ms <? start_ms sub); intros H; injection H as <- <-;
      lia.
  - intros left right e Hl Hr.
    destruct (search_step_cases subtitles current_ms left right Hl Hr)
      as [[_ ->]|(_ & sub & _ & [(_ & ->)|[(_ & ->)|(_ & _ & ->)]])];
      discriminate.
  - intros fuel Hfuel. unfold get_subtitle_at_time.
    destruct subtitles as [|x l].
    + destruct fuel; [simpl in Hfuel; lia | reflexivity].
    + apply search_loop_fuel; simpl length in *; lia.
Qed.

End CueStore.

(* ===================================================================== *)
(** * Properties of the sync engine *)
(* ===================================================================== *)

Module Engine.
Import Py Float SrtParser SyncEngine CueSpec FloatSpec EngineSpec Scenarios.
Import LookupFacts FloatFacts SyncEngineFacts.

(** C2, amended.  Resume continuity.  For an engine paused with frozen
    elapsed time [_pause_elapsed self], the elapsed time read before the
    resume is that value.  After [start] at the clock reading
    [resumeWallTime], a reading at a later clock reading [t] gives the
    frozen value plus the milliseconds from [resumeWallTime] to [t], cut
    to whole milliseconds, up to the rounding of the float arithmetic:
    never more than 1/64 ms ahead of the wall time that has passed, less
    than 1 + 1/64 ms behind it, and so at most one millisecond below the
    frozen value.  Clock readings are floats from 0 to [2 ^ 32] seconds
    and the frozen value lies from 0 to [2 ^ 42] ms. *)
Theorem resume_continuity (self : SubtitleSync) (resumeWallTime t : float) :
  _is_running self = false -> _start_time self <> None ->
  get_elapsed_ms self resumeWallTime = ok (_pause_elapsed self)
  /\ (clock_reading resumeWallTime = true -> clock_reading t = true ->
      (to_Q resumeWallTime <= to_Q t)%Q ->
      0 <= _pause_elapsed self < 2 ^ 42 ->
      exists resumed elapsed,
        start self resumeWallTime = returns resumed
        /\ _is_running resumed = true
        /\ get_elapsed_ms resumed t = ok elapsed
        /\ continues_from (_pause_elapsed self) resumeWallTime t elapsed
        /\ _pause_elapsed self - 1 <= elapsed).
Proof.
  intros Hrun Hst.
  destruct self as [subs st off run pe cur]; cbn in Hrun, Hst; subst run.
  destruct st as [anchor|]; [clear Hst | contradiction].
  split; [reflexivity|].
  cbn [_pause_elapsed]. intros Hr Ht Hle Hp.
  destruct (anchored_elapsed resumeWallTime t pe Hr Ht Hle Hp)
    as (s & elapsed & Es & Ez & Hc & Hlow).
  unfold start. cbn [_is_running _start_time _pause_elapsed].
  rewrite Es. eexists _, elapsed.
  split; [reflexivity|]. split; [reflexivity|].
  split; [exact Ez|]. split; [exact Hc | exact Hlow].
Qed.

(** C2, on an engine paused at 9000 ms and resumed when the clock reads
    20 s, read half a second later. *)
Lemma resume_continuity_witness :
  _is_running
    (fst (pause (fst (start (init []) (clock_at 0))) (clock_at 9000)))
  = false
  /\ _pause_elapsed
       (fst (pause (fst (start (init []) (clock_at 0))) (clock_at 9000)))
     = 9000
  /\ exists resumed elapsed,
       start (fst (pause (fst (start (init []) (clock_at 0)))
                     (clock_at 9000)))
         (clock_at 20000) = returns resumed
       /\ _is_running resumed = true
       /\ get_elapsed_ms resumed (clock_at 20500) = ok elapsed
       /\ continues_from 9000 (clock_at 20000) (clock_at 20500) elapsed
       /\ 9000 - 1 <= elapsed.
Proof.
  assert (H1 : _is_running
                 (fst (pause (fst (start (init []) (clock_at 0)))
                         (clock_at 9000))) = false)
    by (vm_compute; reflexivity).
  assert (H2 : _start_time
                 (fst (pause (fst (start (init []) (clock_at 0)))
                         (clock_at 9000))) <> None)
    by (vm_compute; discriminate).
  assert (H3 : clock_reading (clock_at 20000) = true)
    by (vm_compute; reflexivity).
  assert (H4 : clock_reading (clock_at 20500) = true)
    by (vm_compute; reflexivity).
  assert (H5 : (to_Q (clock_at 20000) <= to_Q (clock_at 20500))%Q)
    by (vm_compute; discriminate).
  assert (H6 : 0 <= 9000 < 2 ^ 42) by lia.
  exact (conj H1 (conj eq_refl
           (proj2 (resume_continuity _ (clock_at 20000) (clock_at 20500)
                     H1 H2) H3 H4 H5 H6))).
Defined.

(** C2 as stated fails: an engine paused at 9001 ms and resumed when
    the clock reads 1700000000 s reports 9000 ms at that very reading,
    one millisecond back. *)
Lemma resume_jumps_back_counterexample :
  _is_running paused_at_9001 = false
  /\ get_elapsed_ms paused_at_9001 (clock_at 1700000000000) = ok 9001
  /\ snd (start paused_at_9001 (clock_at 1700000000000)) = None
  /\ get_elapsed_ms (fst (start paused_at_9001 (clock_at 1700000000000)))
       (clock_at 1700000000000)
     = ok 9000.
Proof. vm_compute. repeat split. Qed.

(** C3, amended.  In every run state [set_playback_time] sets
    [_pause_elapsed] to [t] and changes neither the run state, the offset
    nor the cue list.  Paused (started before, not running): the reported
    elapsed time is [t], and after a later [start] it continues from [t].
    Running: the anchor becomes [wallNow - t / 1000.0], so the elapsed
    time continues from [t].  Continuing is up to the truncation to whole
    milliseconds and the rounding of the float arithmetic, for clock
    readings from 0 to [2 ^ 32] seconds and [t] from 0 to [2 ^ 42] ms.
    Stopped (never started, or reset): the reported elapsed time stays 0
    and a later [start] counts from zero. *)
Theorem set_playback_time_reconciles (self : SubtitleSync) (t : Z)
    (wallNow : float) :
  let self' := fst (set_playback_time self t wallNow) in
  _pause_elapsed self' = t
  /\ _is_running self' = _is_running self
  /\ _offset_ms self' = _offset_ms self
  /\ subtitles self' = subtitles self
  /\ (_is_running self = false -> _start_time self <> None ->
        set_playback_time self t wallNow = returns self'
        /\ (forall now, get_elapsed_ms self' now = ok t)
        /\ (forall resume now,
              clock_reading resume = true -> clock_reading now = true ->
              (to_Q resume <= to_Q now)%Q -> 0 <= t < 2 ^ 42 ->
              exists resumed elapsed,
                start self' resume = returns resumed
                /\ get_elapsed_ms resumed now = ok elapsed
                /\ continues_from t resume now elapsed))
  /\ (_is_running self = true -> 0 <= t < 2 ^ 42 ->
        exists s,
          seconds t = ok s
          /\ set_playback_time self t wallNow = returns self'
          /\ _start_time self' = Some (sub wallNow s)
          /\ (forall now,
                clock_reading wallNow = true -> clock_reading now = true ->
                (to_Q wallNow <= to_Q now)%Q ->
                exists elapsed,
                  get_elapsed_ms self' now = ok elapsed
                  /\ continues_from t wallNow now elapsed))
  /\ (_is_running self = false -> _start_time self = None ->
        set_playback_time self t wallNow = returns self'
        /\ (forall now, get_elapsed_ms self' now = ok 0)
        /\ (forall resume now,
              clock_reading resume = true -> clock_reading now = true ->
              (to_Q resume <= to_Q now)%Q ->
              exists resumed elapsed,
                start self' resume = returns resumed
                /\ get_elapsed_ms resumed now = ok elapsed
                /\ continues_from 0 resume now elapsed)).
Proof.
  destruct self as [subs st off run pe cur].
  unfold set_playback_time. cbn [_is_running set_pause_elapsed].
  destruct run.
  - (* running *)
    assert (Hcommon : forall o : ended,
               _pause_elapsed (fst o) = t ->
               _is_running (fst o) = true ->
               _offset_ms (fst o) = off ->
               subtitles (fst o) = subs ->
               _pause_elapsed (fst o) = t
               /\ _is_running (fst o) = true
               /\ _offset_ms (fst o) = off
               /\ subtitles (fst o) = subs) by (intros; auto).
    destruct (seconds t) as [e|s] eqn:Es; cbn zeta;
      cbn [fst returns raises _pause_elapsed _is_running _offset_ms
             subtitles set_start_time set_pause_elapsed];
      repeat (split; [reflexivity|]);
      (split; [discriminate|]); (split; [|discriminate]);
      intros _ Hp.
    + destruct (seconds_spec t Hp) as (s & Es' & _).
      unfold ok in Es'. congruence.
    + exists s. split; [reflexivity|]. split; [reflexivity|].
      split; [reflexivity|].
      intros now Hw Hn Hle.
      destruct (anchored_elapsed wallNow now t Hw Hn Hle Hp)
        as (s' & elapsed & Es' & Ez & Hc & _).
      assert (s' = s) by (unfold ok in Es'; congruence). subst s'.
      exists elapsed. split; [exact Ez | exact Hc].
  - (* not running *)
    cbn zeta.
    cbn [fst returns _pause_elapsed _is_running _offset_ms subtitles
           set_pause_elapsed _start_time].
    repeat (split; [reflexivity|]).
    split; [|split; [discriminate|]]; intros _ Hst.
    + destruct st as [anchor|]; [clear Hst | contradiction].
      split; [reflexivity|]. split; [intros now; reflexivity|].
      intros resume now Hr Hn Hle Hp.
      destruct (anchored_elapsed resume now t Hr Hn Hle Hp)
        as (s & elapsed & Es & Ez & Hc & _).
      unfold start, set_pause_elapsed.
      cbn [_is_running _start_time _pause_elapsed].
      rewrite Es. eexists _, elapsed.
      split; [reflexivity|]. split; [exact Ez | exact Hc].
    + subst st. split; [reflexivity|]. split; [intros now; reflexivity|].
      intros resume now Hr Hn Hle.
      destruct (fresh_elapsed resume now Hr Hn Hle)
        as (elapsed & Ez & Hc & _).
      unfold start, set_pause_elapsed.
      cbn [_is_running _start_time _pause_elapsed].
      eexists _, elapsed.
      split; [reflexivity|]. split; [exact Ez | exact Hc].
Qed.

(** C3 as stated fails on a stopped engine: after
    [set_playback_time 9000] the reported elapsed time is 0, not 9000,
    and half a second after a subsequent [start] it is 500, not 9500. *)
Lemma set_playback_time_stopped_counterexample :
  _is_running (fst (set_playback_time (init []) 9000 (clock_at 0))) = false
  /\ _pause_elapsed (fst (set_playback_time (init []) 9000 (clock_at 0)))
     = 9000
  /\ get_elapsed_ms (fst (set_playback_time (init []) 9000 (clock_at 0)))
       (clock_at 0) = ok 0
  /\ get_elapsed_ms (fst (set_playback_time (init []) 9000 (clock_at 0)))
       (clock_at 0) <> ok 9000
  /\ get_elapsed_ms
       (fst (start (fst (set_playback_time (init []) 9000 (clock_at 0)))
               (clock_at 0))) (clock_at 500)
     = ok 500
  /\ get_elapsed_ms
       (fst (start (fst (set_playback_time (init []) 9000 (clock_at 0)))
               (clock_at 0))) (clock_at 500)
     <> ok 9500.
Proof.
  vm_compute. repeat split; discriminate.
Qed.

Lemma adjusted_time_offset (self : SubtitleSync) (delta_ms : Z)
    (now : float) :
  get_adjusted_time_ms (adjust_offset self delta_ms) now
  = (adjusted <- get_adjusted_time_ms self now ;; ok (adjusted + delta_ms)).
Proof.
  unfold get_adjusted_time_ms, adjust_offset.
  destruct self as [subs st off run pe cur].
  unfold get_elapsed_ms. cbn [_start_time _is_running _pause_elapsed
                               _offset_ms set_offset_ms].
  destruct st as [anchor|]; [destruct run|]; cbn [negb bind ok];
    try (f_equal; lia).
  destruct (to_int _); cbn [bind ok]; [reflexivity | f_equal; lia].
Qed.

(** C4, what the code does.  The adjusted time is the elapsed time plus
    the offset and is the time every lookup uses.  A cue of a spaced set
    is therefore shown exactly while the elapsed time lies between its
    start minus the offset and its end minus the offset: a positive
    offset shows every cue earlier, not later.  With an offset of +2000
    the second cue of scenario A, which starts at 5500 ms, is shown from
    3500 ms of elapsed time on; with no offset, from 5500 ms on. *)
Theorem positive_offset_shows_cue_earlier :
  (forall self now,
     get_adjusted_time_ms self now
     = (elapsed <- get_elapsed_ms self now ;; ok (elapsed + _offset_ms self)))
  /\ (forall self now,
        subtitles self <> [] ->
        get_current_subtitle self now
        = match get_adjusted_time_ms self now with
          | inr current_time =>
              get_subtitle_at_time (subtitles self) current_time
          | inl e => Raised e
          end)
  /\ (forall self delta_ms now,
        get_adjusted_time_ms (adjust_offset self delta_ms) now
        = (adjusted <- get_adjusted_time_ms self now ;;
           ok (adjusted + delta_ms)))
  /\ (forall self now cue elapsed,
        spaced (subtitles self) -> In cue (subtitles self) ->
        get_elapsed_ms self now = ok elapsed ->
        (get_current_subtitle self now = Returned (Some cue)
         <-> start_ms cue - _offset_ms self <= elapsed
             <= end_ms cue - _offset_ms self))
  /\ (forall self now e,
        subtitles self <> [] -> get_elapsed_ms self now = raise e ->
        get_current_subtitle self now = Raised e)
  /\ get_current_subtitle
       (adjust_offset (fst (start (init scenario_A_cues) (clock_at 0))) 2000)
       (clock_at 3499)
     = Returned None
  /\ get_current_subtitle
       (adjust_offset (fst (start (init scenario_A_cues) (clock_at 0))) 2000)
       (clock_at 3500)
     = Returned (Some cue_second)
  /\ get_current_subtitle (fst (start (init scenario_A_cues) (clock_at 0)))
       (clock_at 5499)
     = Returned None
  /\ get_current_subtitle (fst (start (init scenario_A_cues) (clock_at 0)))
       (clock_at 5500)
     = Returned (Some cue_second).
Proof.
  assert (Hcur : forall self now,
             subtitles self <> [] ->
             get_current_subtitle self now
             = match get_adjusted_time_ms self now with
               | inr current_time =>
                   get_subtitle_at_time (subtitles self) current_time
               | inl e => Raised e
               end).
  { intros self now H. unfold get_current_subtitle.
    destruct (subtitles self); [contradiction | reflexivity]. }
  split; [reflexivity|]. split; [exact Hcur|].
  split; [apply adjusted_time_offset|]. split.
  - intros self now cue elapsed Hsp Hin He.
    rewrite Hcur by (intros E; rewrite E in Hin; contradiction).
    unfold get_adjusted_time_ms. rewrite He. cbn [bind ok]. split.
    + intros H.
      destruct (lookup_total (subtitles self) (elapsed + _offset_ms self))
        as [H'|(sub & _ & Hact & H')]; rewrite H' in H; [discriminate|].
      injection H as <-. unfold active in Hact. lia.
    + intros H. apply lookup_finds; try assumption. unfold active. lia.
  - split.
    + intros self now e Hne He. rewrite Hcur by assumption.
      unfold get_adjusted_time_ms. rewrite He. reflexivity.
    + repeat split; vm_compute; reflexivity.
Qed.

(** C5. [reset] clears the wall-clock anchor, sets the frozen and the
    reported elapsed time to zero and the run state to not running,
    clears the cached cue, and leaves the offset and the cue list as they
    were. *)
Theorem reset_zeroes_clock_keeps_offset (self : SubtitleSync) :
  _start_time (reset self) = None
  /\ _pause_elapsed (reset self) = 0
  /\ (forall now, get_elapsed_ms (reset self) now = ok 0)
  /\ _is_running (reset self) = false
  /\ _current_subtitle (reset self) = None
  /\ _offset_ms (reset self) = _offset_ms self
  /\ subtitles (reset self) = subtitles self.
Proof. repeat split. Qed.

(** C10. [start] on a running engine and [pause] on an engine that is
    not running return and leave the engine unchanged; so a second
    [start] after a [start], and a second [pause] after a [pause], change
    nothing, whatever the clock reads.  A [start] or [pause] that raises
    leaves the engine unchanged as well. *)
Theorem start_pause_guards (self : SubtitleSync) (now now' : float) :
  (_is_running self = true -> start self now = returns self)
  /\ (_is_running self = false -> pause self now = returns self)
  /\ start (fst (start self now)) now' = start self now
  /\ (forall paused,
        pause self now = returns paused -> pause paused now' = returns paused)
  /\ (forall e engine, start self now = raises engine e -> engine = self)
  /\ (forall e engine, pause self now = raises engine e -> engine = self).
Proof.
  unfold start, pause, returns, raises.
  split; [intros ->; reflexivity|].
  split; [intros ->; reflexivity|].
  split; [|split; [|split]].
  - destruct (_is_running self) eqn:E; cbn [fst]; [rewrite E; reflexivity|].
    destruct (_start_time self) as [anchor|] eqn:Es; cbn [fst].
    + destruct (seconds (_pause_elapsed self)) as [e|s] eqn:Ep; cbn [fst].
      * rewrite E, Es, Ep. reflexivity.
      * reflexivity.
    + reflexivity.
  - intros paused. destruct (_is_running self) eqn:E; cbn [negb].
    + destruct (get_elapsed_ms self now); [discriminate|].
      intros H. injection H as <-. reflexivity.
    + intros H. injection H as <-. rewrite E. reflexivity.
  - intros e engine. destruct (_is_running self); [discriminate|].
    destruct (_start_time self); [|discriminate].
    destruct (seconds (_pause_elapsed self)); [|discriminate].
    intros H. injection H as <- _. reflexivity.
  - intros e engine. destruct (_is_running self); cbn [negb];
      [|discriminate].
    destruct (get_elapsed_ms self now); [|discriminate].
    intros H. injection H as <- _. reflexivity.
Qed.

End Engine.

(* ===================================================================== *)
(** * Facts about formatting *)
(* ===================================================================== *)

Module FormatFacts.
Import Py PyFormat FormatSpec PyFacts.

(** A property checked on every number below a bound holds below it. *)
Lemma forall_below (P : Z -> bool) (bound : nat) :
  forallb P (map Z.of_nat (seq 0 bound)) = true ->
  forall n, 0 <= n < Z.of_nat bound -> P n = true.
Proof.
  intros H n Hn. rewrite forallb_forall in H. apply H.
  rewrite <- (Z2Nat.id n) by lia. apply in_map. apply in_seq. lia.
Qed.

Lemma ascii_digit_decimal (c : char) : ascii_digit c -> is_decimal c = true.
Proof.
  unfold ascii_digit. intros H.
  assert (E : c = (48 + (c - 48))%N) by lia. rewrite E.
  assert (Hk : (c - 48 < 10)%N) by lia.
  revert Hk. generalize (c - 48)%N. intros k Hk.
  assert (In k ten) by (unfold ten; simpl; lia).
  unfold ten in H0. simpl in H0.
  repeat (destruct H0 as [<-|H0]; [reflexivity|]). contradiction.
Qed.

Lemma digits_aux_length (fuel : nat) :
  forall n acc, (S (length acc) <= length (digits_aux (S fuel) n acc))%nat.
Proof.
  induction fuel as [|fuel IH]; intros n acc; cbn [digits_aux].
  - destruct (n <? 10); simpl; lia.
  - destruct (n <? 10); [simpl; lia|].
    etransitivity; [|apply IH]. simpl. lia.
Qed.

Lemma digits_aux_ascii (fuel : nat) :
  forall n acc, 0 <= n -> Forall ascii_digit acc ->
    Forall ascii_digit (digits_aux fuel n acc).
Proof.
  induction fuel as [|fuel IH]; intros n acc Hn Hacc; cbn [digits_aux];
    [exact Hacc|].
  assert (Hd : ascii_digit (chr "0" + Z.to_N (n mod 10))%N).
  { unfold ascii_digit. change (chr "0") with 48%N.
    pose proof (Z.mod_pos_bound n 10). lia. }
  destruct (n <? 10); [constructor; assumption|].
  apply IH; [apply Z.div_pos; lia | constructor; assumption].
Qed.

(** A number of three digits or more is written with three digits or
    more. *)
Lemma digits_long (n : Z) :
  100 <= n ->
  exists d1 d2 d3 rest, digits n = d1 :: d2 :: d3 :: rest
    /\ Forall ascii_digit (digits n).
Proof.
  intros Hn.
  assert (Hall : Forall ascii_digit (digits n))
    by (apply digits_aux_ascii; [lia | constructor]).
  assert (Hlen : (3 <= length (digits n))%nat).
  { unfold digits.
    assert (Hlog : 6 <= Z.log2 n).
    { change 6 with (Z.log2 64). apply Z.log2_le_mono. lia. }
    destruct (Z.to_nat (Z.log2 n)) as [|[|f]] eqn:Ef; try lia.
    cbn [digits_aux].
    destruct (Z.ltb_spec n 10); [lia|].
    destruct (Z.ltb_spec (n / 10) 10) as [H10|_].
    { assert (10 <= n / 10) by (apply Z.div_le_lower_bound; lia). lia. }
    etransitivity; [|apply digits_aux_length]. simpl. lia. }
  destruct (digits n) as [|d1 [|d2 [|d3 rest]]]; simpl in Hlen; try lia.
  exists d1, d2, d3, rest. split; [reflexivity | exact Hall].
Qed.

(** Numbers below one hundred, in two digits, and below one thousand, in
    three: decimal digits that [int] reads back. *)
Lemma format_02d (n : Z) :
  0 <= n < 100 ->
  forallb is_decimal (format_d false 2 n) = true
  /\ length (format_d false 2 n) = 2%nat
  /\ int (format_d false 2 n) = ok n.
Proof.
  intros Hn.
  assert (H : reads_back 2 n = true).
  { apply (forall_below (reads_back 2) 100); [vm_compute; reflexivity | lia]. }
  unfold reads_back in H. apply andb_true_iff in H. destruct H as [H H3].
  apply andb_true_iff in H. destruct H as [H1 H2].
  apply Nat.eqb_eq in H2.
  destruct (int (format_d false 2 n)) as [e|z]; [discriminate|].
  apply Z.eqb_eq in H3. subst z. repeat split; assumption.
Qed.

Lemma format_03d (n : Z) :
  0 <= n < 1000 ->
  forallb is_decimal (format_d false 3 n) = true
  /\ length (format_d false 3 n) = 3%nat
  /\ int (format_d false 3 n) = ok n.
Proof.
  intros Hn.
  assert (H : reads_back 3 n = true).
  { apply (forall_below (reads_back 3) 1000); [vm_compute; reflexivity | lia]. }
  unfold reads_back in H. apply andb_true_iff in H. destruct H as [H H3].
  apply andb_true_iff in H. destruct H as [H1 H2].
  apply Nat.eqb_eq in H2.
  destruct (int (format_d false 3 n)) as [e|z]; [discriminate|].
  apply Z.eqb_eq in H3. subst z. repeat split; assumption.
Qed.

End FormatFacts.

Module TimestampFacts.
Import Py Re PyFormat SrtParser SrtTimestamps.
Import ReSpec PyFacts ReFacts ParserFacts FormatFacts.

(** A run of characters of a class, followed by a character outside it,
    is determined by the whole string. *)
Lemma span_unique (p : char -> bool) (a b : str) (c d : char) (r s : str) :
  forallb p a = true -> forallb p b = true -> p c = false -> p d = false ->
  a ++ c :: r = b ++ d :: s -> a = b /\ c = d /\ r = s.
Proof.
  revert b. induction a as [|x a IH]; intros [|y b] Ha Hb Hc Hd E;
    simpl in *.
  - injection E as -> ->. repeat split.
  - injection E as -> _. apply andb_true_iff in Hb. destruct Hb. congruence.
  - injection E as -> _. apply andb_true_iff in Ha. destruct Ha. congruence.
  - injection E as -> E. apply andb_true_iff in Ha, Hb.
    destruct (IH b (proj2 Ha) (proj2 Hb) Hc Hd E) as (-> & -> & ->).
    repeat split.
Qed.

Lemma decimal_value_range (c : char) (d : Z) :
  decimal_value c = Some d -> 0 <= d <= 9.
Proof.
  unfold decimal_value.
  destruct (find (fun z => (z <=? c) && (c <? z + 10))%N decimal_zeros)
    as [z|] eqn:E; [|discriminate].
  intros H. injection H as <-. apply find_some in E. destruct E as [_ E].
  apply andb_true_iff in E. destruct E as [E1 E2].
  apply N.leb_le in E1. apply N.ltb_lt in E2. lia.
Qed.

Lemma int_digits_bound (s : str) :
  forallb is_decimal s = true ->
  forall acc z, 0 <= acc -> int_digits acc false s = Some z ->
    acc * 10 ^ Z.of_nat (length s) <= z
    < (acc + 1) * 10 ^ Z.of_nat (length s).
Proof.
  induction s as [|c s IH]; intros Hall acc z Hacc H.
  - simpl in H. injection H as <-. simpl. lia.
  - cbn [int_digits] in H. simpl in Hall.
    apply andb_true_iff in Hall. destruct Hall as [Hc Hall].
    unfold is_decimal in Hc.
    destruct (decimal_value c) as [d|] eqn:Ed; [|discriminate].
    pose proof (decimal_value_range c d Ed) as Hd.
    apply (IH Hall) in H; [|lia].
    rewrite length_cons, Nat2Z.inj_succ, Z.pow_succ_r by lia.
    assert (0 < 10 ^ Z.of_nat (length s)) by (apply Z.pow_pos_nonneg; lia).
    nia.
Qed.

(** [int] of a non-empty string of [n] decimal digits is a number below
    [10 ^ n]. *)
Lemma int_decimal_bound (s : str) (z : Z) :
  forallb is_decimal s = true -> int s = ok z ->
  0 <= z < 10 ^ Z.of_nat (length s).
Proof.
  intros Hall. unfold int.
  rewrite strip_ends.
  2:{ intros c Hc. rewrite forallb_forall in Hall.
      unfold int_space. rewrite decimal_not_space; [reflexivity|].
      apply Hall. exact Hc. }
  destruct s as [|c s]; [discriminate|].
  pose proof Hall as Hall'.
  simpl in Hall. apply andb_true_iff in Hall. destruct Hall as [Hc _].
  rewrite (decimal_not_ascii "-" c) by (reflexivity || assumption).
  rewrite (decimal_not_ascii "+" c) by (reflexivity || assumption).
  destruct (int_digits 0 true (c :: s)) as [v|] eqn:E; [|discriminate].
  intros H. injection H as <-.
  assert (E' : int_digits 0 false (c :: s) = Some v).
  { cbn [int_digits] in *. unfold is_decimal in Hc.
    destruct (decimal_value c); [exact E | discriminate]. }
  pose proof (int_digits_bound _ Hall' 0 v ltac:(lia) E'). lia.
Qed.

(** What [timestamp_to_ms] read when it returns: four runs of decimal
    digits around two colons and a period, at the start of the text in
    which commas were replaced, and the number they make. *)
Lemma timestamp_to_ms_inv (s : str) (z : Z) :
  timestamp_to_ms s = ok z ->
  exists h m sec f rest zh zm zs zf,
    replace (chr ",") (chr ".") s
    = (h ++ chr ":" :: m ++ chr ":" :: sec ++ chr "." :: f) ++ rest
    /\ forallb is_decimal h = true /\ (1 <= length h <= 2)%nat
    /\ forallb is_decimal m = true /\ length m = 2%nat
    /\ forallb is_decimal sec = true /\ length sec = 2%nat
    /\ forallb is_decimal f = true /\ length f = 3%nat
    /\ int h = ok zh /\ int m = ok zm /\ int sec = ok zs /\ int f = ok zf
    /\ z = zh * 3600000 + zm * 60000 + zs * 1000 + zf.
Proof.
  unfold timestamp_to_ms.
  destruct (re_match timestamp_re (replace (chr ",") (chr ".") s))
    as [groups|] eqn:E; [|discriminate].
  apply re_match_sound in E. destruct E as (pre & rest & gs & E & M & ->).
  unfold timestamp_re, cat, between, times in M.
  repeat match goal with
         | H : matches (Cat _ _) _ _ |- _ => inversion H; subst; clear H
         | H : matches (Grp _) _ _ |- _ => inversion H; subst; clear H
         | H : matches (Chr _) _ _ |- _ => inversion H; subst; clear H
         | H : matches (Rep _ _ _) _ _ |- _ => inversion H; subst; clear H
         end.
  repeat match goal with
         | H : ch _ ?c = true |- _ =>
             unfold ch in H; apply N.eqb_eq in H; subst c
         | H : within _ _ |- _ => simpl in H
         end.
  cbn [skipn app].
  match goal with
  | E : _ = (?a ++ [_] ++ ?b ++ [_] ++ ?c ++ [_] ++ ?d) ++ _ |- _ =>
      rename a into h; rename b into m; rename c into sec; rename d into f
  end.
  destruct (int h) as [e|zh] eqn:Eh; [discriminate|].
  destruct (int m) as [e|zm] eqn:Em; [discriminate|].
  destruct (int sec) as [e|zs] eqn:Es; [discriminate|].
  destruct (int f) as [e|zf] eqn:Ef; [discriminate|].
  cbn [bind]. intros H. injection H as <-.
  exists h, m, sec, f, rest, zh, zm, zs, zf.
  split; [exact E|]. repeat split; try assumption; lia.
Qed.

(** The value of a timestamp written with its four fields. *)
Lemma timestamp_to_ms_fields (h m sec f : str) (sep : char)
    (zh zm zs zf : Z) :
  forallb is_decimal h = true -> (1 <= length h <= 2)%nat ->
  forallb is_decimal m = true -> length m = 2%nat ->
  forallb is_decimal sec = true -> length sec = 2%nat ->
  forallb is_decimal f = true -> length f = 3%nat ->
  sep = chr "," \/ sep = chr "." ->
  int h = ok zh -> int m = ok zm -> int sec = ok zs -> int f = ok zf ->
  timestamp_to_ms (h ++ chr ":" :: m ++ chr ":" :: sec ++ sep :: f)
  = ok (zh * 3600000 + zm * 60000 + zs * 1000 + zf).
Proof.
  intros Hh Lh Hm Lm Hs Ls Hf Lf Hsep Ih Im Is If.
  assert (M : matches stamp (h ++ chr ":" :: m ++ chr ":" :: sec ++ sep :: f)
                []).
  { unfold stamp, cat, between, times.
    change (h ++ chr ":" :: m ++ chr ":" :: sec ++ sep :: f)
      with (h ++ [chr ":"] ++ m ++ [chr ":"] ++ sec ++ [sep] ++ f).
    change (@nil str) with (@nil str ++ [] ++ [] ++ [] ++ [] ++ [] ++ []).
    repeat first
      [ apply matches_cat | apply matches_chr | apply matches_rep ];
      simpl; try assumption; try reflexivity; try lia.
    unfold one_of. destruct Hsep as [-> | ->]; reflexivity. }
  destruct (timestamp_to_ms_stamp _ _ M) as [z Hz]. rewrite Hz.
  apply timestamp_to_ms_inv in Hz.
  destruct Hz as (h' & m' & sec' & f' & rest & zh' & zm' & zs' & zf' & E
                  & Hh' & Lh' & Hm' & Lm' & Hs' & Ls' & Hf' & Lf'
                  & Ih' & Im' & Is' & If' & ->).
  assert (R : replace (chr ",") (chr ".")
                (h ++ chr ":" :: m ++ chr ":" :: sec ++ sep :: f)
              = h ++ chr ":" :: m ++ chr ":" :: sec ++ chr "." :: f).
  { change (chr ":" :: m ++ chr ":" :: sec ++ sep :: f)
      with ([chr ":"] ++ m ++ [chr ":"] ++ sec ++ [sep] ++ f).
    rewrite !replace_app.
    rewrite (replace_decimal h), (replace_decimal m), (replace_decimal sec),
      (replace_decimal f) by assumption.
    destruct Hsep as [-> | ->]; reflexivity. }
  rewrite R in E. clear R. rewrite <- app_assoc in E. cbn [app] in E.
  rewrite <- !app_assoc in E. cbn [app] in E.
  rewrite <- !app_assoc in E. cbn [app] in E.
  destruct (span_unique is_decimal h h' (chr ":") (chr ":") _ _
              Hh Hh' eq_refl eq_refl E) as (<- & _ & E1).
  destruct (span_unique is_decimal m m' (chr ":") (chr ":") _ _
              Hm Hm' eq_refl eq_refl E1) as (<- & _ & E2).
  destruct (span_unique is_decimal sec sec' (chr ".") (chr ".") _ _
              Hs Hs' eq_refl eq_refl E2) as (<- & _ & E3).
  assert (f = f').
  { apply (f_equal (firstn 3)) in E3.
    rewrite <- Lf' in E3 at 2. rewrite firstn_app, Nat.sub_diag in E3.
    rewrite firstn_all, firstn_O, app_nil_r in E3.
    rewrite <- Lf, firstn_all in E3. exact E3. }
  subst f'. unfold ok in *.
  rewrite Ih in Ih'. rewrite Im in Im'. rewrite Is in Is'. rewrite If in If'.
  injection Ih' as <-. injection Im' as <-. injection Is' as <-.
  injection If' as <-. reflexivity.
Qed.

End TimestampFacts.

Module CueStoreMore.
Import Py Re Codecs PyFormat SrtParser SrtTimestamps.
Import CueSpec ReSpec ParseSpec TagSpec Scenarios MoreScenarios.
Import PyFacts ReFacts SortFacts LookupFacts ParserFacts TagFacts.
Import FormatFacts TimestampFacts.

Lemma timestamp_to_ms_raises (s : str) (e : exn) :
  timestamp_to_ms s = inl e -> e = ValueError.
Proof.
  assert (I : forall u e', int u = inl e' -> e' = ValueError).
  { intros u e'. unfold int. cbv zeta.
    match goal with
    | |- match ?x with Some _ => _ | None => _ end = _ -> _ => destruct x
    end; intros H; [discriminate H | injection H as <-; reflexivity]. }
  unfold timestamp_to_ms.
  destruct (re_match timestamp_re (replace (chr ",") (chr ".") s))
    as [m|]; [|intros H; injection H as <-; reflexivity].
  destruct (skipn 1 m) as [|g1 [|g2 [|g3 [|g4 [|g5 l]]]]];
    try (intros H; injection H as <-; reflexivity).
  destruct (int g1) as [e1|?] eqn:E1; [intros H; injection H as <-; eauto|].
  destruct (int g2) as [e2|?] eqn:E2; [intros H; injection H as <-; eauto|].
  destruct (int g3) as [e3|?] eqn:E3; [intros H; injection H as <-; eauto|].
  destruct (int g4) as [e4|?] eqn:E4; [intros H; injection H as <-; eauto|].
  discriminate.
Qed.

(** A text that does not start with one or two decimal digits and a
    colon is no timestamp. *)
Lemma timestamp_to_ms_rejects (s : str) :
  (forall h rest, forallb is_decimal h = true -> (1 <= length h <= 2)%nat ->
     replace (chr ",") (chr ".") s <> h ++ chr ":" :: rest) ->
  timestamp_to_ms s = raise ValueError.
Proof.
  intros H. destruct (timestamp_to_ms s) as [e|z] eqn:E.
  - apply timestamp_to_ms_raises in E. subst e. reflexivity.
  - exfalso. apply timestamp_to_ms_inv in E.
    destruct E as (h & m & sec & f & rest & _ & _ & _ & _ & E & Hh & Lh & _).
    apply (H h (m ++ chr ":" :: sec ++ chr "." :: f ++ rest) Hh Lh).
    rewrite E. rewrite <- app_assoc. cbn [app].
    rewrite <- !app_assoc. cbn [app]. rewrite <- !app_assoc. reflexivity.
Qed.

Lemma replace_cons (c : char) (s : str) :
  replace (chr ",") (chr ".") (c :: s)
  = (if (c =? chr ",")%N then chr "." else c)
    :: replace (chr ",") (chr ".") s.
Proof. reflexivity. Qed.

Lemma ms_fields (ms : Z) :
  0 <= ms mod 3600000 / 60000 < 60
  /\ 0 <= ms mod 3600000 mod 60000 / 1000 < 60
  /\ 0 <= ms mod 3600000 mod 60000 mod 1000 < 1000
  /\ ms = ms / 3600000 * 3600000 + ms mod 3600000 / 60000 * 60000
          + ms mod 3600000 mod 60000 / 1000 * 1000
          + ms mod 3600000 mod 60000 mod 1000.
Proof.
  pose proof (Z.div_mod ms 3600000 ltac:(lia)).
  pose proof (Z.mod_pos_bound ms 3600000 ltac:(lia)).
  pose proof (Z.div_mod (ms mod 3600000) 60000 ltac:(lia)).
  pose proof (Z.mod_pos_bound (ms mod 3600000) 60000 ltac:(lia)).
  pose proof (Z.div_mod (ms mod 3600000 mod 60000) 1000 ltac:(lia)).
  pose proof (Z.mod_pos_bound (ms mod 3600000 mod 60000) 1000 ltac:(lia)).
  assert (0 <= ms mod 3600000 / 60000 < 60).
  { split; [apply Z.div_pos; lia | apply Z.div_lt_upper_bound; lia]. }
  assert (0 <= ms mod 3600000 mod 60000 / 1000 < 60).
  { split; [apply Z.div_pos; lia | apply Z.div_lt_upper_bound; lia]. }
  repeat split; lia.
Qed.

(** X1. Writing a number of milliseconds as a timestamp and reading it
    back gives the number again exactly when it is at least zero and
    below one hundred hours; outside that range the text written is
    rejected. *)
Theorem timestamp_round_trip (ms : Z) :
  timestamp_to_ms (ms_to_timestamp ms)
  = if (0 <=? ms) && (ms <? 360000000) then ok ms else raise ValueError.
Proof.
  destruct (ms_fields ms) as (Hm & Hs & Hf & Esum).
  unfold ms_to_timestamp.
  destruct (Z.leb_spec 0 ms) as [Hlo|Hlo]; cbn [andb].
  - destruct (Z.ltb_spec ms 360000000) as [Hhi|Hhi].
    + (* in range: four fields that read back *)
      assert (Hh : 0 <= ms / 3600000 < 100).
      { split; [apply Z.div_pos; lia | apply Z.div_lt_upper_bound; lia]. }
      destruct (format_02d _ Hh) as (D1 & L1 & I1).
      destruct (format_02d (ms mod 3600000 / 60000) ltac:(lia))
        as (D2 & L2 & I2).
      destruct (format_02d (ms mod 3600000 mod 60000 / 1000) ltac:(lia))
        as (D3 & L3 & I3).
      destruct (format_03d _ Hf) as (D4 & L4 & I4).
      rewrite (timestamp_to_ms_fields _ _ _ _ (chr ",") _ _ _ _
                 D1 ltac:(lia) D2 L2 D3 L3 D4 L4 (or_introl eq_refl)
                 I1 I2 I3 I4).
      unfold ok. f_equal. lia.
    + (* a hundred hours or more: three digits or more before the colon *)
      apply timestamp_to_ms_rejects. intros h rest Hh Lh E.
      assert (H100 : 100 <= ms / 3600000)
        by (apply Z.div_le_lower_bound; lia).
      destruct (digits_long _ H100) as (d1 & d2 & d3 & tl & Ed & Hall).
      unfold format_d at 1 in E.
      destruct (Z.ltb_spec (ms / 3600000) 0); [lia|].
      rewrite Z.abs_eq in E by lia. rewrite Ed in E, Hall.
      cbn [length Nat.sub repeat app] in E.
      inversion Hall as [|? ? A1 Hall1]; subst.
      inversion Hall1 as [|? ? A2 Hall2]; subst.
      inversion Hall2 as [|? ? A3 _]; subst.
      apply ascii_digit_decimal in A1, A2, A3.
      rewrite !replace_cons in E.
      rewrite (decimal_not_ascii "," d1), (decimal_not_ascii "," d2),
        (decimal_not_ascii "," d3) in E by (reflexivity || assumption).
      destruct h as [|x [|y [|w h]]]; simpl in Lh; try lia;
        cbn [app] in E; injection E as E1 E2 E3.
      * subst d2. discriminate.
      * subst d3. discriminate.
  - (* negative: the text starts with a minus sign *)
    apply timestamp_to_ms_rejects. intros h rest Hh Lh E.
    assert (Hneg : ms / 3600000 < 0) by (apply Z.div_lt_upper_bound; lia).
    unfold format_d at 1 in E.
    destruct (Z.ltb_spec (ms / 3600000) 0); [|lia].
    cbn [app] in E. rewrite replace_cons in E.
    destruct h as [|x h]; [simpl in Lh; lia|].
    cbn [app] in E. injection E as E _. subst x.
    simpl in Hh. discriminate.
Qed.

Lemma pow10_le (n : nat) (z : Z) :
  (n <= 2)%nat -> z < 10 ^ Z.of_nat n -> z < 100.
Proof.
  intros Hn Hz. destruct n as [|[|[|n]]]; simpl in Hz; lia.
Qed.

Lemma timestamp_to_ms_range (s : str) (z : Z) :
  timestamp_to_ms s = ok z -> 0 <= z <= 362439999.
Proof.
  intros H. apply timestamp_to_ms_inv in H.
  destruct H as (h & m & sec & f & rest & zh & zm & zs & zf & _
                 & Hh & Lh & Hm & Lm & Hs & Ls & Hf & Lf
                 & Ih & Im & Is & If & ->).
  pose proof (int_decimal_bound _ _ Hh Ih) as Bh.
  pose proof (int_decimal_bound _ _ Hm Im) as Bm.
  pose proof (int_decimal_bound _ _ Hs Is) as Bs.
  pose proof (int_decimal_bound _ _ Hf If) as Bf.
  rewrite Lm in Bm. rewrite Ls in Bs. rewrite Lf in Bf.
  assert (zh < 100) by (apply (pow10_le (length h)); lia).
  simpl in Bm, Bs, Bf. lia.
Qed.

Lemma parse_block_times (block : str) (cue : Subtitle) :
  parse_block block = Some cue ->
  (0 <= start_ms cue <= 362439999) /\ (0 <= end_ms cue <= 362439999).
Proof.
  intros H. destruct (well_formed block) eqn:W.
  - destruct (parse_block_well_formed block W)
      as (idx & g0 & g1 & g2 & s & e & _ & _ & Hs & He & E).
    rewrite E in H. injection H as <-. simpl.
    split; eapply timestamp_to_ms_range; eassumption.
  - rewrite parse_block_malformed in H by assumption. discriminate.
Qed.

(** X2. The start and the end of every cue [parse_srt_file] returns lie
    between 0 and 362439999 ms, the value of 99:99:99,999. *)
Theorem parsed_times_in_range (data : bytes) (encoding : codec)
    (cues : list Subtitle) :
  parse_srt_file data encoding = ok cues ->
  Forall (fun cue => (0 <= start_ms cue <= 362439999)
                     /\ (0 <= end_ms cue <= 362439999)) cues.
Proof.
  intros H. destruct (CueStore.parse_srt_file_content _ _ _ H)
    as (content & _ & ->).
  apply Forall_forall. intros cue Hin.
  apply (Permutation_in _ (sort_perm _)) in Hin.
  apply collect_in in Hin. destruct Hin as (block & _ & _ & Hb).
  apply (parse_block_times block). exact Hb.
Qed.

Lemma parsed_times_in_range_witness :
  parse_srt_file scenario_A utf_8 = ok scenario_A_cues
  /\ Forall (fun cue => (0 <= start_ms cue <= 362439999)
                        /\ (0 <= end_ms cue <= 362439999)) scenario_A_cues.
Proof.
  assert (H : parse_srt_file scenario_A utf_8 = ok scenario_A_cues)
    by (vm_compute; reflexivity).
  exact (conj H (parsed_times_in_range _ _ _ H)).
Defined.

(** X3. The sort is stable: among the cues returned, those with the
    same start time are in the order of their blocks in the file. *)
Theorem parse_keeps_order_of_equal_starts (data : bytes) (encoding : codec)
    (cues : list Subtitle) :
  parse_srt_file data encoding = ok cues ->
  exists content,
    first_decoding (encodings_to_try encoding) data = Some content
    /\ forall start,
         filter (fun cue => start_ms cue =? start) cues
         = filter (fun cue => start_ms cue =? start)
             (collect (blocks_of content)).
Proof.
  intros H. destruct (CueStore.parse_srt_file_content _ _ _ H)
    as (content & Hd & ->).
  exists content. split; [exact Hd|]. intros start. apply sort_stable.
Qed.

Lemma parse_keeps_order_of_equal_starts_witness :
  parse_srt_file same_start utf_8 = ok same_start_cues
  /\ exists content,
       first_decoding (encodings_to_try utf_8) same_start = Some content
       /\ forall start,
            filter (fun cue => start_ms cue =? start) same_start_cues
            = filter (fun cue => start_ms cue =? start)
                (collect (blocks_of content)).
Proof.
  assert (H : parse_srt_file same_start utf_8 = ok same_start_cues)
    by (vm_compute; reflexivity).
  exact (conj H (parse_keeps_order_of_equal_starts _ _ _ H)).
Defined.

Lemma strip_in (s : str) (c : char) : In c (strip s) -> In c s.
Proof.
  assert (L : forall p u, In c (lstrip p u) -> In c u).
  { intros p u. induction u as [|x u IH]; simpl; [tauto|].
    destruct (p x); [right; auto | simpl; tauto]. }
  unfold strip, rstrip. intros H.
  apply in_rev in H. apply L in H. apply in_rev in H. apply L in H. exact H.
Qed.

(** X4. A cue whose text lines contain no ["<"] keeps them as they
    are, joined by newlines, without the white space at both ends. *)
Theorem text_without_markup_kept (block : str) (cue : Subtitle) :
  parse_block block = Some cue ->
  ~ In (chr "<") (join LF (skipn 2 (split LF (strip block)))) ->
  text cue = strip (join LF (skipn 2 (split LF (strip block)))).
Proof.
  intros H Hno. destruct (well_formed block) eqn:W.
  - destruct (parse_block_well_formed block W)
      as (idx & g0 & g1 & g2 & s & e & _ & _ & _ & _ & E).
    rewrite E in H. injection H as <-. simpl text.
    rewrite <- (app_nil_r (strip _)) at 1.
    rewrite re_sub_plain; [apply app_nil_r|].
    intros Hin. apply Hno. apply strip_in. exact Hin.
  - rewrite parse_block_malformed in H by assumption. discriminate.
Qed.

Lemma text_without_markup_kept_witness :
  parse_block plain_block = Some cue_hello
  /\ text cue_hello
     = strip (join LF (skipn 2 (split LF (strip plain_block)))).
Proof.
  assert (H : parse_block plain_block = Some cue_hello)
    by (vm_compute; reflexivity).
  assert (Hno : ~ In (chr "<")
                  (join LF (skipn 2 (split LF (strip plain_block))))).
  { vm_compute. intros Hin.
    repeat (destruct Hin as [Hin|Hin]; [discriminate Hin|]).
    exact Hin. }
  exact (conj H (text_without_markup_kept plain_block cue_hello H Hno)).
Defined.

(** X5. On every list, sorted or not, the lookup returns only a cue of
    the list that is active at the time asked for, and returns none when
    no cue of the list is active. *)
Theorem lookup_returns_only_active (subtitles : list Subtitle)
    (current_ms : Z) :
  (forall sub,
     get_subtitle_at_time subtitles current_ms = Returned (Some sub) ->
     In sub subtitles /\ active sub current_ms)
  /\ ((forall sub, In sub subtitles -> ~ active sub current_ms) ->
      get_subtitle_at_time subtitles current_ms = Returned None).
Proof.
  destruct (lookup_total subtitles current_ms)
    as [H|(found & Hin & Hact & H)]; rewrite H; split.
  - discriminate.
  - reflexivity.
  - intros sub E. injection E as <-. split; assumption.
  - intros Hnone. exfalso. exact (Hnone found Hin Hact).
Qed.

End CueStoreMore.

(* ===================================================================== *)
(** * Further properties of the sync engine *)
(* ===================================================================== *)

Module EngineMore.
Import Py Float SrtParser SyncEngine CueSpec FloatSpec EngineSpec CallSpec.
Import Scenarios LookupFacts FloatFacts SyncEngineFacts.

Ltac unfold_calls :=
  unfold toggle, start, pause, reset, set_playback_time, seek_to,
    adjust_offset, set_offset, returns, raises, get_elapsed_ms,
    set_pause_elapsed, set_start_time, set_is_running, set_offset_ms,
    set_current_subtitle;
  cbn [fst snd subtitles _start_time _offset_ms _is_running _pause_elapsed
         _current_subtitle negb].

Ltac split_calls :=
  repeat match goal with
         | |- context [match ?x with inl _ => _ | inr _ => _ end] =>
             destruct x
         | |- context [match ?x with Some _ => _ | None => _ end] =>
             destruct x
         | |- context [if ?b then _ else _] => destruct b
         end;
  cbn [fst snd subtitles _start_time _offset_ms _is_running _pause_elapsed
         _current_subtitle negb].

Lemma perform_invariant (self : SubtitleSync) (c : call) :
  (_is_running self = true -> _start_time self <> None)
  /\ _current_subtitle self = None ->
  (_is_running (perform self c) = true -> _start_time (perform self c) <> None)
  /\ _current_subtitle (perform self c) = None.
Proof.
  destruct self as [subs st off run pe cur].
  cbn [_is_running _start_time _current_subtitle]. intros [Hrun Hcur].
  destruct c; cbn [perform]; unfold_calls;
    destruct run; cbn [negb]; try (destruct st as [anchor|]);
    split_calls;
    (split; [|assumption || reflexivity]); intros H;
    try discriminate; auto.
Qed.

(** X6. In every state an engine can reach from a new one, a running
    engine has an anchor, so its elapsed time is read from the clock;
    and the cached cue of the engine is never written: it stays [None],
    whether the calls returned or raised. *)
Theorem reachable_invariant (self : SubtitleSync) :
  reachable self ->
  (_is_running self = true -> _start_time self <> None)
  /\ _current_subtitle self = None.
Proof.
  intros (subs & calls & ->). unfold perform_all.
  assert (G : forall e,
             (_is_running e = true -> _start_time e <> None)
             /\ _current_subtitle e = None ->
             (_is_running (fold_left perform calls e) = true ->
              _start_time (fold_left perform calls e) <> None)
             /\ _current_subtitle (fold_left perform calls e) = None).
  { induction calls as [|c calls IH]; intros e He; simpl; [exact He|].
    apply IH. apply perform_invariant. exact He. }
  apply G. simpl. split; [discriminate | reflexivity].
Qed.

Lemma reachable_invariant_witness :
  reachable (perform_all (init scenario_A_cues)
               [Start (clock_at 0); SetPlaybackTime 9000 (clock_at 1000);
                Pause (clock_at 2000); Reset; Toggle (clock_at 3000)])
  /\ _current_subtitle
       (perform_all (init scenario_A_cues)
          [Start (clock_at 0); SetPlaybackTime 9000 (clock_at 1000);
           Pause (clock_at 2000); Reset; Toggle (clock_at 3000)])
     = None.
Proof.
  assert (H : reachable
                (perform_all (init scenario_A_cues)
                   [Start (clock_at 0);
                    SetPlaybackTime 9000 (clock_at 1000);
                    Pause (clock_at 2000); Reset; Toggle (clock_at 3000)]))
    by (eexists _, _; reflexivity).
  exact (conj H (proj2 (reachable_invariant _ H))).
Defined.

(** X7. The offset is the work of the offset calls alone: after any
    calls, returning or raising, it is what [adjust_offset] and
    [set_offset] among them make it; two adjustments add up; and neither
    call changes the elapsed time that is read. *)
Theorem offset_independent_of_clock :
  (forall self calls,
     _offset_ms (perform_all self calls)
     = offset_after (_offset_ms self) calls)
  /\ (forall self a b,
        adjust_offset (adjust_offset self a) b = adjust_offset self (a + b))
  /\ (forall self v now,
        get_elapsed_ms (adjust_offset self v) now = get_elapsed_ms self now
        /\ get_elapsed_ms (set_offset self v) now = get_elapsed_ms self now).
Proof.
  split; [|split].
  - intros self calls. revert self. unfold perform_all, offset_after.
    induction calls as [|c calls IH]; intros self; simpl; [reflexivity|].
    rewrite IH. f_equal.
    destruct self as [subs st off run pe cur].
    destruct c; cbn [perform]; unfold_calls;
      destruct run; cbn [negb]; try (destruct st as [anchor|]);
      split_calls; reflexivity.
  - intros self a b. unfold adjust_offset, set_offset_ms; simpl.
    f_equal. lia.
  - intros self v now. split; reflexivity.
Qed.

(** X8. [reset] leaves a new engine with the old cue list and offset:
    whatever calls follow, the engine is the one they would make of
    that new engine; and after the next [start] the elapsed time counts
    from zero. *)
Theorem reset_is_new_engine (self : SubtitleSync) (calls : list call) :
  perform_all (reset self) calls
  = perform_all (set_offset (init (subtitles self)) (_offset_ms self)) calls
  /\ (forall r t,
        clock_reading r = true -> clock_reading t = true ->
        (to_Q r <= to_Q t)%Q ->
        exists started elapsed,
          start (reset self) r = returns started
          /\ get_elapsed_ms started t = ok elapsed
          /\ continues_from 0 r t elapsed).
Proof.
  split.
  - destruct self; reflexivity.
  - intros r t Hr Ht Hle.
    destruct (fresh_elapsed r t Hr Ht Hle) as (elapsed & Ez & Hc & _).
    unfold start, reset, returns.
    cbn [_is_running _start_time set_is_running set_pause_elapsed
           set_start_time set_current_subtitle].
    eexists _, elapsed. split; [reflexivity|].
    split; [exact Ez | exact Hc].
Qed.

(** X9. [toggle] on a running engine whose reading is [position]
    freezes it there: the engine stops, and every later reading gives
    [position] whatever the clock reads.  A second [toggle] resumes,
    and the elapsed time continues from [position]. *)
Theorem toggle_freezes_and_resumes (self : SubtitleSync) (t1 : float)
    (position : Z) :
  _is_running self = true -> _start_time self <> None ->
  get_elapsed_ms self t1 = ok position ->
  exists paused,
    toggle self t1 = returns paused
    /\ _is_running paused = false
    /\ (forall now, get_elapsed_ms paused now = ok position)
    /\ (forall t2 t,
          clock_reading t2 = true -> clock_reading t = true ->
          (to_Q t2 <= to_Q t)%Q -> 0 <= position < 2 ^ 42 ->
          exists resumed elapsed,
            toggle paused t2 = returns resumed
            /\ _is_running resumed = true
            /\ get_elapsed_ms resumed t = ok elapsed
            /\ continues_from position t2 t elapsed).
Proof.
  intros Hrun Hst He.
  destruct self as [subs st off run pe cur].
  cbn [_is_running _start_time] in Hrun, Hst. subst run.
  destruct st as [anchor|]; [clear Hst | contradiction].
  unfold toggle at 1. cbn [_is_running]. unfold pause. cbn [_is_running negb].
  rewrite He. eexists. split; [reflexivity|].
  split; [reflexivity|]. split; [intros now; reflexivity|].
  intros t2 t Ht2 Ht Hle Hp.
  destruct (anchored_elapsed t2 t position Ht2 Ht Hle Hp)
    as (s & elapsed & Es & Ez & Hc & _).
  unfold toggle, start. unfold_calls. rewrite Es.
  eexists _, elapsed. split; [reflexivity|]. split; [reflexivity|].
  split; [exact Ez | exact Hc].
Qed.

Lemma toggle_freezes_and_resumes_witness :
  _is_running (fst (start (init []) (clock_at 0))) = true
  /\ get_elapsed_ms (fst (start (init []) (clock_at 0))) (clock_at 9000)
     = ok 9000
  /\ exists paused,
       toggle (fst (start (init []) (clock_at 0))) (clock_at 9000)
       = returns paused
       /\ get_elapsed_ms paused (clock_at 86400000) = ok 9000.
Proof.
  assert (H1 : _is_running (fst (start (init []) (clock_at 0))) = true)
    by reflexivity.
  assert (H2 : _start_time (fst (start (init []) (clock_at 0))) <> None)
    by discriminate.
  assert (H3 : get_elapsed_ms (fst (start (init []) (clock_at 0)))
                 (clock_at 9000) = ok 9000)
    by (vm_compute; reflexivity).
  destruct (toggle_freezes_and_resumes _ (clock_at 9000) 9000 H1 H2 H3)
    as (paused & Hp & _ & Hfrozen & _).
  exact (conj H1 (conj H3
           (ex_intro _ paused (conj Hp (Hfrozen (clock_at 86400000)))))).
Defined.

End EngineMore.

(* ===================================================================== *)
(** * Properties of the progress report and the preview *)
(* ===================================================================== *)

Module SyncInfoFacts.
Import Py Float PyFormat SrtParser SyncEngine SyncInfo CueSpec Scenarios.
Import SortFacts LookupFacts SyncEngineFacts.

(** [l[-1]] of a non-empty list is its last element. *)
Lemma getitem_last {A} (l : list A) :
  l <> [] ->
  exists a, getitem l (-1) = ok a
            /\ nth_error l (length l - 1) = Some a.
Proof.
  intros Hne. unfold getitem.
  assert (Hlen : (0 < length l)%nat)
    by (destruct l; [contradiction | simpl; lia]).
  change (-1 <? 0) with true. cbv beta iota.
  destruct (Z.leb_spec 0 (-1 + Z.of_nat (length l))); [|lia].
  destruct (Z.ltb_spec (-1 + Z.of_nat (length l)) (Z.of_nat (length l)));
    [|lia].
  cbn [andb]. replace (Z.to_nat (-1 + Z.of_nat (length l)))
    with (length l - 1)%nat by lia.
  destruct (nth_error l (length l - 1)) as [a|] eqn:E.
  - exists a. split; reflexivity.
  - apply nth_error_None in E. lia.
Qed.

Lemma format_time_first_second (ms : Z) :
  ms < 1000 -> format_time ms = lit "00:00".
Proof.
  intros H. unfold format_time.
  assert (E : Z.max 0 (ms / 1000) = 0).
  { apply Z.max_l. assert (ms / 1000 < 1) by (apply Z.div_lt_upper_bound; lia).
    lia. }
  rewrite E. reflexivity.
Qed.

Lemma total_returns (subs : list Subtitle) :
  exists total,
    match subs with
    | [] => ok 0
    | _ :: _ => last_cue <- getitem subs (-1) ;; ok (end_ms last_cue)
    end = ok total
    /\ (subs = [] -> total = 0).
Proof.
  destruct subs as [|x l].
  - exists 0. split; reflexivity.
  - destruct (getitem_last (x :: l)) as (a & Ha & _); [discriminate|].
    rewrite Ha. exists (end_ms a). split; [reflexivity | discriminate].
Qed.

(** X10. [get_progress_info] reads the clock twice.  When it returns,
    the elapsed and adjusted times in the report are the two readings;
    on an engine that is not running it always returns, and the adjusted
    time is the elapsed time plus the offset; an elapsed time below one
    second, negative ones included, is shown as 00:00; and without cues
    the total is zero.  An exception of either reading is the exception
    of the call. *)
Theorem progress_info_consistent (self : SubtitleSync) (now now' : float) :
  (forall info,
     get_progress_info self now now' = ok info ->
     get_elapsed_ms self now = ok (info_elapsed_ms info)
     /\ get_adjusted_time_ms self now' = ok (info_adjusted_ms info)
     /\ info_offset info = _offset_ms self
     /\ info_is_running info = _is_running self
     /\ (_is_running self = false ->
         info_adjusted_ms info = info_elapsed_ms info + info_offset info)
     /\ (info_elapsed_ms info < 1000 -> info_elapsed info = lit "00:00")
     /\ (subtitles self = [] -> info_total_ms info = 0))
  /\ (_is_running self = false ->
      exists info, get_progress_info self now now' = ok info)
  /\ (forall e, get_elapsed_ms self now = raise e ->
        get_progress_info self now now' = raise e)
  /\ (forall elapsed e,
        get_elapsed_ms self now = ok elapsed ->
        get_adjusted_time_ms self now' = raise e ->
        get_progress_info self now now' = raise e).
Proof.
  destruct (total_returns (subtitles self)) as (total & Et & Hempty).
  split; [|split; [|split]].
  - intros info. unfold get_progress_info. rewrite Et.
    destruct (get_elapsed_ms self now) as [e|elapsed] eqn:E1;
      [discriminate|].
    destruct (get_adjusted_time_ms self now') as [e|adjusted] eqn:E2;
      [discriminate|].
    cbn [bind ok]. intros H. injection H as <-.
    cbn [info_elapsed_ms info_adjusted_ms info_offset info_is_running
           info_elapsed info_total_ms].
    repeat split.
    + intros Hrun. revert E1 E2.
      unfold get_adjusted_time_ms, get_elapsed_ms. rewrite Hrun.
      destruct (_start_time self); cbn [negb bind ok];
        intros E1 E2; injection E1 as <-; injection E2 as <-; reflexivity.
    + apply format_time_first_second.
    + exact Hempty.
  - intros Hrun. unfold get_progress_info, get_adjusted_time_ms,
      get_elapsed_ms. rewrite Hrun, Et.
    destruct (_start_time self); cbn [negb bind ok]; eexists; reflexivity.
  - intros e E. unfold get_progress_info. rewrite E. reflexivity.
  - intros elapsed e E1 E2. unfold get_progress_info. rewrite E1, E2.
    reflexivity.
Qed.

(** X11. For a cue list in start order whose ranges are proper and
    pairwise disjoint, as a parsed file without overlaps gives, the
    total duration reported is the end of the last cue and no cue ends
    later. *)
Theorem progress_total_is_latest_end (self : SubtitleSync)
    (now now' : float) (info : progress_info) :
  sorted_by_start (subtitles self) ->
  Forall proper_range (subtitles self) ->
  ForallOrdPairs disjoint (subtitles self) ->
  get_progress_info self now now' = ok info ->
  forall cue, In cue (subtitles self) -> end_ms cue <= info_total_ms info.
Proof.
  intros Hsorted Hproper Hdisj Hinfo cue Hin.
  pose proof (sorted_disjoint_spaced _ Hsorted Hproper Hdisj) as Hsp.
  unfold get_progress_info in Hinfo.
  destruct (get_elapsed_ms self now) as [e|elapsed]; [discriminate|].
  destruct (get_adjusted_time_ms self now') as [e|adjusted]; [discriminate|].
  destruct (subtitles self) as [|x l] eqn:E; [contradiction|].
  destruct (getitem_last (x :: l)) as (a & Ha & Hlast); [discriminate|].
  rewrite Ha in Hinfo. cbn [bind ok] in Hinfo.
  injection Hinfo as <-. cbn [info_total_ms].
  apply In_nth_error in Hin. destruct Hin as [k Hk].
  assert (Hlt : (k < length (x :: l))%nat)
    by (apply nth_error_Some; congruence).
  destruct (Nat.eq_dec k (length (x :: l) - 1)) as [->|Hne].
  - rewrite Hlast in Hk. injection Hk as <-. lia.
  - assert (Hkl : (k < length (x :: l) - 1)%nat) by lia.
    destruct (Hsp _ _ _ _ Hkl Hk Hlast) as [_ H].
    rewrite Forall_forall in Hproper.
    pose proof (Hproper a (nth_error_In _ _ Hlast)) as Hp.
    unfold proper_range in Hp. lia.
Qed.

Lemma progress_total_is_latest_end_witness :
  sorted_by_start scenario_A_cues
  /\ Forall proper_range scenario_A_cues
  /\ ForallOrdPairs disjoint scenario_A_cues
  /\ In cue_second scenario_A_cues
  /\ end_ms cue_second <= 12500.
Proof.
  assert (H1 : sorted_by_start (subtitles (init scenario_A_cues)))
    by (repeat constructor; simpl; lia).
  assert (H2 : Forall proper_range (subtitles (init scenario_A_cues)))
    by (repeat constructor; unfold proper_range; simpl; lia).
  assert (H3 : ForallOrdPairs disjoint (subtitles (init scenario_A_cues)))
    by (repeat constructor; unfold disjoint; simpl; lia).
  assert (H4 : In cue_second (subtitles (init scenario_A_cues)))
    by (right; left; reflexivity).
  exact (conj H1 (conj H2 (conj H3 (conj H4
           (progress_total_is_latest_end (init scenario_A_cues)
              (clock_at 0) (clock_at 0) _
              H1 H2 H3 eq_refl cue_second H4))))).
Defined.

Lemma enumerate_from_in {A} (l : list A) :
  forall a i (x : A),
    In (i, x) (combine (map Z.of_nat (seq a (length l))) l) ->
    exists k, i = Z.of_nat (a + k) /\ nth_error l k = Some x.
Proof.
  induction l as [|y l IH]; intros a i x H; simpl in H; [contradiction|].
  destruct H as [H|H].
  - injection H as <- <-. exists O. split; [f_equal; lia | reflexivity].
  - apply IH in H. destruct H as (k & -> & Hk).
    exists (S k). split; [f_equal; lia | exact Hk].
Qed.

Lemma enumerate_from_nth {A} (l : list A) :
  forall a k (x : A),
    nth_error l k = Some x ->
    In (Z.of_nat (a + k), x) (combine (map Z.of_nat (seq a (length l))) l).
Proof.
  induction l as [|y l IH]; intros a k x H; [destruct k; discriminate|].
  destruct k as [|k]; simpl in *.
  - injection H as <-. left. f_equal. f_equal. lia.
  - right. replace (a + S k)%nat with (S a + k)%nat by lia.
    apply IH. exact H.
Qed.

(** What the loop returns: the index it started with if no item is
    closer than [min_diff], else the index of an item that is closer and
    as close as any. *)
Lemma closest_loop_min (t : Z) (items : list (Z * Subtitle)) :
  forall idx md,
    (closest_loop t items idx md = idx
     /\ forall i s, In (i, s) items ->
          exists m, md = Some m /\ m <= Z.abs (start_ms s - t))
    \/ (exists s,
          In (closest_loop t items idx md, s) items
          /\ (forall m, md = Some m -> Z.abs (start_ms s - t) < m)
          /\ forall i' s', In (i', s') items ->
               Z.abs (start_ms s - t) <= Z.abs (start_ms s' - t)).
Proof.
  induction items as [|[i s] rest IH]; intros idx md; cbn [closest_loop].
  - left. split; [reflexivity | intros ? ? []].
  - destruct (match md with
              | Some m => Z.abs (start_ms s - t) <? m
              | None => true
              end) eqn:Ec.
    + right.
      assert (Hbeat : forall m, md = Some m -> Z.abs (start_ms s - t) < m).
      { intros m ->. apply Z.ltb_lt. exact Ec. }
      destruct (IH i (Some (Z.abs (start_ms s - t))))
        as [[-> Hall]|(s2 & Hin & Hlt & Hmin)].
      * exists s. split; [left; reflexivity|]. split; [exact Hbeat|].
        intros i' s' [E|Hin]; [injection E as <- <-; lia|].
        destruct (Hall _ _ Hin) as (m & E & Hm). injection E as <-. exact Hm.
      * exists s2. split; [right; exact Hin|].
        specialize (Hlt _ eq_refl). split.
        -- intros m Hm. specialize (Hbeat m Hm). lia.
        -- intros i' s' [E|Hin']; [injection E as <- <-; lia|eauto].
    + destruct md as [m|]; [|discriminate]. apply Z.ltb_ge in Ec.
      destruct (IH idx (Some m)) as [[-> Hall]|(s2 & Hin & Hlt & Hmin)].
      * left. split; [reflexivity|].
        intros i' s' [E|Hin]; [injection E as <- <-; eauto | eauto].
      * right. exists s2. split; [right; exact Hin|].
        split; [exact Hlt|]. specialize (Hlt _ eq_refl).
        intros i' s' [E|Hin']; [injection E as <- <-; lia | eauto].
Qed.

Lemma slice_inside {A} (l : list A) (lo hi : Z) :
  0 <= lo <= hi -> hi <= Z.of_nat (length l) ->
  slice l lo hi = firstn (Z.to_nat (hi - lo)) (skipn (Z.to_nat lo) l)
  /\ length (slice l lo hi) = Z.to_nat (hi - lo)
  /\ forall k, lo <= Z.of_nat k < hi ->
       nth_error (slice l lo hi) (k - Z.to_nat lo) = nth_error l k.
Proof.
  intros Hlo Hhi. unfold slice, slice_bound.
  destruct (Z.ltb_spec lo 0); [lia|]. destruct (Z.ltb_spec hi 0); [lia|].
  rewrite !Z.min_l by lia.
  split; [reflexivity|]. split.
  - rewrite length_firstn, length_skipn. lia.
  - intros k Hk.
    rewrite nth_error_firstn.
    destruct (Nat.ltb_spec (k - Z.to_nat lo) (Z.to_nat (hi - lo))); [|lia].
    rewrite nth_error_skipn. f_equal. lia.
Qed.

(** X12. [get_nearby_subtitles] with a count of at least one, on an
    engine that has cues and whose adjusted time is read as
    [current_time]: the result is a run of at most [count] consecutive
    cues of the list, and it holds a cue whose start is as close to
    [current_time] as that of any cue. *)
Theorem nearby_holds_closest (self : SubtitleSync) (count : Z)
    (now : float) (current_time : Z) :
  1 <= count -> subtitles self <> [] ->
  get_adjusted_time_ms self now = ok current_time ->
  exists nearby cue,
    get_nearby_subtitles self count now = ok nearby
    /\ In cue nearby
    /\ In cue (subtitles self)
    /\ (forall other, In other (subtitles self) ->
          Z.abs (start_ms cue - current_time)
          <= Z.abs (start_ms other - current_time))
    /\ (1 <= length nearby)%nat
    /\ Z.of_nat (length nearby) <= count
    /\ exists first,
         nearby = firstn (length nearby) (skipn first (subtitles self)).
Proof.
  intros Hcount Hne Ht. unfold get_nearby_subtitles. rewrite Ht.
  destruct (subtitles self) as [|x l] eqn:E; [contradiction|].
  rewrite <- E in *. clear Hne. cbn [bind ok].
  set (t := current_time).
  destruct (closest_loop_min t (enumerate (subtitles self)) 0 None)
    as [[_ Hall]|(cue & Hin & _ & Hmin)].
  { exfalso. rewrite E in Hall.
    destruct (Hall 0 x (or_introl eq_refl)) as (m & Hm & _). discriminate. }
  set (c := closest_loop t (enumerate (subtitles self)) 0 None) in *.
  unfold enumerate in Hin. apply enumerate_from_in in Hin.
  destruct Hin as (k & Hc & Hk). simpl in Hc.
  assert (Hlt : (k < length (subtitles self))%nat)
    by (apply nth_error_Some; congruence).
  assert (Hhalf : 0 <= count / 2 < count).
  { split; [apply Z.div_pos; lia | apply Z.div_lt_upper_bound; lia]. }
  set (lo := Z.max 0 (c - count / 2)).
  set (hi := Z.min (Z.of_nat (length (subtitles self))) (lo + count)).
  assert (Hlo : 0 <= lo <= c) by (unfold lo; lia).
  assert (Hhi : c < hi <= Z.of_nat (length (subtitles self)))
    by (unfold hi, lo; lia).
  destruct (slice_inside (subtitles self) lo hi ltac:(lia) ltac:(lia))
    as (Hs & Hlen & Hnth).
  eexists _, cue. split; [reflexivity|].
  split; [|split; [|split; [|split; [|split]]]].
  - apply (nth_error_In _ (k - Z.to_nat lo)).
    rewrite Hnth by lia. exact Hk.
  - eapply nth_error_In. exact Hk.
  - intros other Hother. apply In_nth_error in Hother.
    destruct Hother as [j Hj].
    apply (Hmin (Z.of_nat (0 + j)) other).
    unfold enumerate. apply enumerate_from_nth. exact Hj.
  - rewrite Hlen. lia.
  - rewrite Hlen. unfold hi. lia.
  - exists (Z.to_nat lo). rewrite Hlen. exact Hs.
Qed.

Lemma nearby_holds_closest_witness :
  1 <= 3
  /\ subtitles (fst (start (init scenario_A_cues) (clock_at 0))) <> []
  /\ get_adjusted_time_ms (fst (start (init scenario_A_cues) (clock_at 0)))
       (clock_at 6000) = ok 6000
  /\ exists nearby,
       get_nearby_subtitles (fst (start (init scenario_A_cues) (clock_at 0)))
         3 (clock_at 6000) = ok nearby
       /\ Z.of_nat (length nearby) <= 3.
Proof.
  assert (H1 : 1 <= 3) by lia.
  assert (H2 : subtitles (fst (start (init scenario_A_cues) (clock_at 0)))
               <> [])
    by discriminate.
  assert (H3 : get_adjusted_time_ms
                 (fst (start (init scenario_A_cues) (clock_at 0)))
                 (clock_at 6000) = ok 6000)
    by (vm_compute; reflexivity).
  destruct (nearby_holds_closest _ 3 (clock_at 6000) 6000 H1 H2 H3)
    as (nearby & cue & Hn & _ & _ & _ & _ & H & _).
  exact (conj H1 (conj H2 (conj H3 (ex_intro _ nearby (conj Hn H))))).
Defined.

End SyncInfoFacts.
